(** * fast-lazyload: the observation-and-reveal coordinator of [src/index.ts]

    A shallow embedding of the lazy loader.  The browser objects the
    script talks to (elements, the document tree, the intersection
    observer, event listeners) are a record [Page]; each function of
    [src/index.ts] is a computation in a small state-and-exception monad
    [M] over that record.  Every call the script makes on a browser
    object is also appended to a log, so that statements about the order
    and the number of calls can be made. *)

From Stdlib Require Import QArith ZArith String Ascii List Bool Lia.
From stdpp Require Import list gmap strings.

Local Open Scope string_scope.
Local Open Scope list_scope.

(** ** JavaScript values *)

Module JS.

(** The values that flow through the script: a string or [undefined]
    (what [dataset.x] yields for a missing attribute). *)
Inductive Value : Type :=
| undefined
| str (s : string).

#[export] Instance Value_eq_dec : EqDecision Value.
Proof. solve_decision. Defined.

(** [ToString], as applied by template literals, by [+] with a string
    operand and by the setter of a [DOMString] attribute. *)
Definition ToString (v : Value) : string :=
  match v with
  | undefined => "undefined"
  | str s => s
  end.

(** [ToBoolean] on strings and [undefined]. *)
Definition truthy (v : Value) : bool :=
  match v with
  | undefined => false
  | str s => negb (String.eqb s "")
  end.

(** Numbers as they occur in the viewport test.  [innerWidth] and
    [clientWidth] are integers ([long]); the window property may be
    missing, which reads as [undefined]. *)
Definition Long : Type := option Z.

Definition truthy_long (v : Long) : bool :=
  match v with
  | None => false
  | Some n => negb (n =? 0)%Z
  end.

(** [a || b] where [b] is a number. *)
Definition or_long (a : Long) (b : Z) : Long :=
  if truthy_long a then a else Some b.

(** [x < v] for a finite double [x]; comparing with [undefined]
    compares with [NaN] and is false. *)
Definition lt_long (x : Q) (v : Long) : bool :=
  match v with
  | None => false
  | Some n => negb (Qle_bool (inject_Z n) x)
  end.

(** [x > 0] for a finite double [x]. *)
Definition gt_zero (x : Q) : bool := negb (Qle_bool x 0).

(** Exceptions the browser objects used here can raise. *)
Inductive Exception : Type :=
| SyntaxError
| InvalidCharacterError
| TypeError.

Inductive Completion (A : Type) : Type :=
| Normal (a : A)
| Throw (e : Exception).

Arguments Normal {A} a.
Arguments Throw {A} e.

End JS.

(** ** Strings of the DOM *)

Module DOMString.

Definition is_lower_alpha (c : ascii) : bool :=
  let n := nat_of_ascii c in (97 <=? n)%nat && (n <=? 122)%nat.

Definition is_upper_alpha (c : ascii) : bool :=
  let n := nat_of_ascii c in (65 <=? n)%nat && (n <=? 90)%nat.

Definition to_upper (c : ascii) : ascii :=
  if is_lower_alpha c then ascii_of_nat (nat_of_ascii c - 32) else c.

Definition to_lower (c : ascii) : ascii :=
  if is_upper_alpha c then ascii_of_nat (nat_of_ascii c + 32) else c.

(** ASCII lowercase, applied by the attribute methods of an HTML
    element of an HTML document to the name they are given. *)
Fixpoint ascii_lowercase (s : string) : string :=
  match s with
  | EmptyString => EmptyString
  | String c r => String (to_lower c) (ascii_lowercase r)
  end.

(** ASCII whitespace: tab, line feed, form feed, carriage return, space. *)
Definition is_whitespace (c : ascii) : bool :=
  let n := nat_of_ascii c in
  (n =? 9)%nat || (n =? 10)%nat || (n =? 12)%nat || (n =? 13)%nat || (n =? 32)%nat.

Fixpoint existsb_string (p : ascii -> bool) (s : string) : bool :=
  match s with
  | EmptyString => false
  | String c r => p c || existsb_string p r
  end.

Fixpoint forallb_string (p : ascii -> bool) (s : string) : bool :=
  match s with
  | EmptyString => true
  | String c r => p c && forallb_string p r
  end.

Definition is_digit (c : ascii) : bool :=
  let n := nat_of_ascii c in (48 <=? n)%nat && (n <=? 57)%nat.

Definition is_non_ascii (c : ascii) : bool := (128 <=? nat_of_ascii c)%nat.

(** The characters a CSS identifier starts with, and those it goes on
    with. *)
Definition is_name_start (c : ascii) : bool :=
  is_lower_alpha c || is_upper_alpha c || Ascii.eqb c "_" || is_non_ascii c.

Definition is_name_char (c : ascii) : bool :=
  is_name_start c || is_digit c || Ascii.eqb c "-".

(** A CSS identifier that is written without escapes. *)
Definition is_identifier (s : string) : bool :=
  match s with
  | EmptyString => false
  | String c r =>
      if Ascii.eqb c "-" then
        match r with
        | String d r' =>
            (is_name_start d || Ascii.eqb d "-") && forallb_string is_name_char r'
        | EmptyString => false
        end
      else is_name_start c && forallb_string is_name_char r
  end.

(** The characters of an unquoted CSS URL: the printable ones other than
    white space, the two quotes, the parentheses and the backslash. *)
Definition is_url_char (c : ascii) : bool :=
  let n := nat_of_ascii c in
  ((33 <=? n)%nat && (n <=? 126)%nat
   && negb (n =? 34)%nat && negb (n =? 39)%nat && negb (n =? 40)%nat
   && negb (n =? 41)%nat && negb (n =? 92)%nat)
  || is_non_ascii c.

(** The double quote. *)
Definition quote : string := String "034"%char EmptyString.

(** [s.startsWith(p)] paired with the rest of [s]. *)
Fixpoint strip_prefix (p s : string) : option string :=
  match p with
  | EmptyString => Some s
  | String a p' =>
      match s with
      | EmptyString => None
      | String b s' => if Ascii.eqb a b then strip_prefix p' s' else None
      end
  end.

(** [s] without its last character, when that is a closing
    parenthesis. *)
Fixpoint strip_closing (s : string) : option string :=
  match s with
  | EmptyString => None
  | String c r =>
      match r with
      | EmptyString => if Ascii.eqb c ")" then Some EmptyString else None
      | String _ _ =>
          match strip_closing r with
          | Some r' => Some (String c r')
          | None => None
          end
      end
  end.

(** The name a [data-*] attribute gets in [dataset]: every hyphen that
    is followed by an ASCII lowercase letter is dropped and that letter
    is uppercased. *)
Fixpoint camel (s : string) : string :=
  match s with
  | EmptyString => EmptyString
  | String c r =>
      if Ascii.eqb c "-"%char then
        match r with
        | String d r' =>
            if is_lower_alpha d then String (to_upper d) (camel r')
            else String c (camel r)
        | EmptyString => String c EmptyString
        end
      else String c (camel r)
  end.

End DOMString.

(** ** The DOM objects the script reads and writes *)

Module DOM.
Import JS DOMString.

(** A node is known by its identity; its data lives in the map [nodes]
    of the page. *)
Definition elem : Type := nat.

Record DOMRect : Type := mkDOMRect {
  top : Q;
  right : Q;
  bottom : Q;
  left : Q
}.

(** The inline style of an element as its declaration block: the
    longhand properties with their values, in order. *)
Definition CSSStyleDeclaration : Type := list (string * string).

(** One node.  [attributes] holds the content attributes in order,
    with the exception of [style] and [class], which are kept in the
    form the script uses them: [style] is [None] when the element has no
    [style] attribute and the declaration block otherwise, with the
    values in their serialised form; [classList] is the token list of
    [class].  [properties] holds the properties that assignments of the
    script created on the object of the node itself, for the names that
    the interface of the element does not define. *)
Record Element : Type := mkElement {
  nodeType : Z;
  nodeName : string;
  attributes : list (string * string);
  style : option CSSStyleDeclaration;
  classList : list string;
  boundingClientRect : DOMRect;
  properties : list (string * Value)
}.

#[export] Instance Element_inhabited : Inhabited Element :=
  populate (mkElement 0 "" [] None [] (mkDOMRect 0 0 0 0) []).

Definition with_attributes (a : list (string * string)) (el : Element) : Element :=
  mkElement (nodeType el) (nodeName el) a (style el) (classList el)
            (boundingClientRect el) (properties el).

Definition with_style (s : option CSSStyleDeclaration) (el : Element) : Element :=
  mkElement (nodeType el) (nodeName el) (attributes el) s (classList el)
            (boundingClientRect el) (properties el).

Definition with_classList (c : list string) (el : Element) : Element :=
  mkElement (nodeType el) (nodeName el) (attributes el) (style el) c
            (boundingClientRect el) (properties el).

Definition with_properties (q : list (string * Value)) (el : Element) : Element :=
  mkElement (nodeType el) (nodeName el) (attributes el) (style el) (classList el)
            (boundingClientRect el) q.

(** *** Association lists for attributes and declarations *)

Fixpoint assoc_get (k : string) (l : list (string * string)) : option string :=
  match l with
  | [] => None
  | (k', v) :: r => if String.eqb k' k then Some v else assoc_get k r
  end.

(** Replace the value in place, or append the pair when the key is new. *)
Fixpoint assoc_set (k v : string) (l : list (string * string)) : list (string * string) :=
  match l with
  | [] => [(k, v)]
  | (k', v') :: r =>
      if String.eqb k' k then (k, v) :: r else (k', v') :: assoc_set k v r
  end.

Definition assoc_remove (k : string) (l : list (string * string)) : list (string * string) :=
  List.filter (fun kv => negb (String.eqb (fst kv) k)) l.

(** *** Attributes *)

(** The text of a declaration block, as the [style] attribute shows it
    once the block was written to. *)
Definition cssText (decls : CSSStyleDeclaration) : string :=
  String.concat " " (List.map (fun d => fst d +:+ ": " +:+ snd d +:+ ";") decls).

(** [el.getAttribute(name)].  The [style] attribute reads as the text
    of the declaration block and the [class] attribute as the tokens of
    the class list; [class] is taken as absent when there is no token. *)
Definition getAttribute (name : string) (el : Element) : option string :=
  if String.eqb (ascii_lowercase name) "style" then
    match style el with Some decls => Some (cssText decls) | None => None end
  else if String.eqb (ascii_lowercase name) "class" then
    match classList el with [] => None | l => Some (String.concat " " l) end
  else assoc_get (ascii_lowercase name) (attributes el).

Definition hasAttribute (name : string) (el : Element) : bool :=
  if String.eqb (ascii_lowercase name) "style" then
    match style el with Some _ => true | None => false end
  else
    match getAttribute name el with Some _ => true | None => false end.

(** [el.setAttribute(name, value)] and [el.removeAttribute(name)], for
    the names the script passes: [data-*] and [fetchpriority]. *)
Definition setAttribute (name value : string) (el : Element) : Element :=
  with_attributes (assoc_set (ascii_lowercase name) value (attributes el)) el.

Definition removeAttribute (name : string) (el : Element) : Element :=
  with_attributes (assoc_remove (ascii_lowercase name) (attributes el)) el.

(** The properties of the object itself. *)
Fixpoint property_get (k : string) (l : list (string * Value)) : option Value :=
  match l with
  | [] => None
  | (k', v) :: r => if String.eqb k' k then Some v else property_get k r
  end.

Fixpoint property_set (k : string) (v : Value) (l : list (string * Value)) :
    list (string * Value) :=
  match l with
  | [] => [(k, v)]
  | (k', v') :: r =>
      if String.eqb k' k then (k, v) :: r else (k', v') :: property_set k v r
  end.

Definition property (k : string) (el : Element) : option Value :=
  property_get k (properties el).

Definition set_property (k : string) (v : Value) (el : Element) : Element :=
  with_properties (property_set k v (properties el)) el.

(** The elements whose interface has a [src] property that reflects
    the [src] attribute, and those with a [srcset]. *)
Definition reflects_src (name : string) : bool :=
  existsb (String.eqb name)
    ["IMG"; "VIDEO"; "AUDIO"; "SOURCE"; "TRACK"; "IFRAME"; "FRAME"; "EMBED";
     "INPUT"; "SCRIPT"].

Definition reflects_srcset (name : string) : bool :=
  existsb (String.eqb name) ["IMG"; "SOURCE"].

(** [el.src = v] and [el.srcset = v].  On an element that reflects the
    attribute, the attribute is set to [ToString v]; on any other
    element the assignment creates a property of the object, which
    holds [v] as it is. *)
Definition set_src (v : Value) (el : Element) : Element :=
  if reflects_src (nodeName el) then setAttribute "src" (ToString v) el
  else set_property "src" v el.

Definition set_srcset (v : Value) (el : Element) : Element :=
  if reflects_srcset (nodeName el) then setAttribute "srcset" (ToString v) el
  else set_property "srcset" v el.

Definition src (el : Element) : option string := getAttribute "src" el.
Definition srcset (el : Element) : option string := getAttribute "srcset" el.

(** *** dataset *)

(** The property name under which [dataset] exposes an attribute:
    [None] for an attribute that is not exposed (no [data-] prefix, or
    an uppercase letter after it). *)
Definition dataset_name (attr_name : string) : option string :=
  match strip_prefix "data-" attr_name with
  | Some rest =>
      if existsb_string is_upper_alpha rest then None else Some (camel rest)
  | None => None
  end.

Fixpoint dataset_find (key : string) (l : list (string * string)) : option string :=
  match l with
  | [] => None
  | (n, v) :: r =>
      match dataset_name n with
      | Some k => if String.eqb k key then Some v else dataset_find key r
      | None => dataset_find key r
      end
  end.

(** [el.dataset[key]] (properties inherited from [Object.prototype]
    are not part of the model). *)
Definition dataset_get (key : string) (el : Element) : Value :=
  match dataset_find key (attributes el) with
  | Some v => str v
  | None => undefined
  end.

(** [key in el.dataset]. *)
Definition dataset_in (key : string) (el : Element) : bool :=
  match dataset_find key (attributes el) with
  | Some _ => true
  | None => false
  end.

(** *** Inline style *)

(** [el.style.backgroundImage]: the empty string when the block has no
    such declaration. *)
Definition backgroundImage (el : Element) : string :=
  match style el with
  | Some decls =>
      match assoc_get "background-image" decls with
      | Some v => v
      | None => ""
      end
  | None => ""
  end.

(** The text is made of the characters of an unquoted CSS URL. *)
Definition unquoted_url (X : string) : bool := forallb_string is_url_char X.

(** The value [url(X)] for an [X] made of the characters of an
    unquoted URL; any other text gives [None].  (White space around [X],
    escapes, a quoted [X] and lists of images, which are CSS as well,
    are not part of the model.) *)
Definition css_url_argument (v : string) : option string :=
  match strip_prefix "url(" v with
  | Some rest =>
      match strip_closing rest with
      | Some X => if unquoted_url X then Some X else None
      | None => None
      end
  | None => None
  end.

(** The serialised form of [url(X)]. *)
Definition css_url (X : string) : string :=
  "url(" +:+ quote +:+ X +:+ quote +:+ ")".

(** [el.style.backgroundImage = v].  A value that is valid CSS is
    stored in its serialised form; any other value is ignored and the
    declaration block stays as it is. *)
Definition set_backgroundImage (v : string) (el : Element) : Element :=
  match css_url_argument v with
  | Some X =>
      with_style
        (Some (assoc_set "background-image" (css_url X)
                 (match style el with Some decls => decls | None => [] end)))
        el
  | None => el
  end.

(** *** classList *)

(** The check every [DOMTokenList] method makes on a token. *)
Definition validate_token (t : string) : Completion unit :=
  if String.eqb t "" then Throw SyntaxError
  else if existsb_string is_whitespace t then Throw InvalidCharacterError
  else Normal tt.

Definition valid_token (t : string) : bool :=
  negb (String.eqb t "") && negb (existsb_string is_whitespace t).

Definition contains (t : string) (l : list string) : bool :=
  existsb (String.eqb t) l.

Definition tokens_add (t : string) (l : list string) : list string :=
  if contains t l then l else l ++ [t].

Definition tokens_remove (t : string) (l : list string) : list string :=
  List.filter (fun t' => negb (String.eqb t' t)) l.

(** *** The document tree *)

Unset Elimination Schemes.
Inductive Tree : Type :=
| Node (e : elem) (children : list Tree).
Set Elimination Schemes.

Definition root (t : Tree) : elem :=
  match t with Node e _ => e end.

(** Nodes in tree order. *)
Fixpoint preorder (t : Tree) : list elem :=
  match t with
  | Node e kids => e :: concat (List.map preorder kids)
  end.

Definition forest_preorder (f : list Tree) : list elem :=
  concat (List.map preorder f).

Definition is_child (n : elem) (kids : list Tree) : bool :=
  existsb (fun k => Nat.eqb (root k) n) kids.

(** The element whose child [n] is. *)
Fixpoint parent_in (n : elem) (t : Tree) : option elem :=
  match t with
  | Node p kids =>
      if is_child n kids then Some p
      else
        (fix first (ks : list Tree) : option elem :=
           match ks with
           | [] => None
           | k :: r =>
               match parent_in n k with
               | Some q => Some q
               | None => first r
               end
           end) kids
  end.

Fixpoint forest_parent (n : elem) (f : list Tree) : option elem :=
  match f with
  | [] => None
  | t :: r =>
      match parent_in n t with
      | Some q => Some q
      | None => forest_parent n r
      end
  end.

(** Put the leaf [new] in front of the child [ref]. *)
Fixpoint insert_child (new ref : elem) (kids : list Tree) : list Tree :=
  match kids with
  | [] => []
  | k :: r =>
      if Nat.eqb (root k) ref then Node new [] :: k :: r
      else k :: insert_child new ref r
  end.

Fixpoint tree_insertBefore (p new ref : elem) (t : Tree) : Tree :=
  match t with
  | Node e kids =>
      let kids' := List.map (tree_insertBefore p new ref) kids in
      Node e (if Nat.eqb e p then insert_child new ref kids' else kids')
  end.

(** Detach the subtree rooted at [n]. *)
Fixpoint tree_remove (n : elem) (t : Tree) : Tree :=
  match t with
  | Node e kids =>
      Node e
        ((fix rest (ks : list Tree) : list Tree :=
            match ks with
            | [] => []
            | k :: r =>
                if Nat.eqb (root k) n then rest r
                else tree_remove n k :: rest r
            end) kids)
  end.

Fixpoint forest_remove (n : elem) (f : list Tree) : list Tree :=
  match f with
  | [] => []
  | k :: r =>
      if Nat.eqb (root k) n then forest_remove n r
      else tree_remove n k :: forest_remove n r
  end.

(** *** Events *)

Inductive EventTarget : Type :=
| the_window
| the_node (e : elem).

#[export] Instance EventTarget_eq_dec : EqDecision EventTarget.
Proof. solve_decision. Defined.

(** The three arrow functions the script registers as listeners, each
    with the variable it closes over. *)
Inductive Callback : Type :=
| on_load (target : elem)
| on_error (target : elem)
| on_window_load (node : elem).

#[export] Instance Callback_eq_dec : EqDecision Callback.
Proof. solve_decision. Defined.

Record Listener : Type := mkListener {
  listener_target : EventTarget;
  listener_type : string;
  listener_callback : Callback
}.

(** *** The window *)

Record Window : Type := mkWindow {
  innerWidth : Long;
  innerHeight : Long;
  has_IntersectionObserver : bool;
  has_MutationObserver : bool
}.

(** *** The log of calls *)

Inductive Call : Type :=
| classList_add_call (e : elem) (token : string)
| classList_remove_call (e : elem) (token : string)
| addEventListener_call (t : EventTarget) (type : string) (cb : Callback)
| set_backgroundImage_call (e : elem) (v : string)
| set_src_call (e : elem) (v : Value)
| set_srcset_call (e : elem) (v : Value)
| setAttribute_call (e : elem) (name value : string)
| removeAttribute_call (e : elem) (name : string)
| observe_call (e : elem)
| unobserve_call (e : elem)
| mutation_observe_call (e : elem)
| createElement_call (tag : string) (e : elem)
| insertBefore_call (parent new ref : elem)
| remove_call (e : elem)
| unveil_call (e : elem)
| lazyscript_call (e : elem).

#[export] Instance Call_eq_dec : EqDecision Call.
Proof. solve_decision. Defined.

(** *** The page *)

Record Page : Type := mkPage {
  window : Window;
  clientWidth : Z;
  clientHeight : Z;
  nodes : gmap elem Element;
  document : list Tree;
  body : option elem;
  next_node : elem;
  observationTargets : gset elem;
  mutationTargets : list elem;
  listeners : list Listener;
  log : list Call
}.

End DOM.


(** ** Computations over the page *)

Module Browser.
Import JS DOMString DOM.

Definition with_nodes (n : gmap elem Element) (p : Page) : Page :=
  mkPage (window p) (clientWidth p) (clientHeight p) n (document p) (body p)
         (next_node p) (observationTargets p) (mutationTargets p)
         (listeners p) (log p).

Definition with_document (d : list Tree) (p : Page) : Page :=
  mkPage (window p) (clientWidth p) (clientHeight p) (nodes p) d (body p)
         (next_node p) (observationTargets p) (mutationTargets p)
         (listeners p) (log p).

Definition with_next_node (n : elem) (p : Page) : Page :=
  mkPage (window p) (clientWidth p) (clientHeight p) (nodes p) (document p)
         (body p) n (observationTargets p) (mutationTargets p)
         (listeners p) (log p).

Definition with_observationTargets (s : gset elem) (p : Page) : Page :=
  mkPage (window p) (clientWidth p) (clientHeight p) (nodes p) (document p)
         (body p) (next_node p) s (mutationTargets p) (listeners p) (log p).

Definition with_mutationTargets (l : list elem) (p : Page) : Page :=
  mkPage (window p) (clientWidth p) (clientHeight p) (nodes p) (document p)
         (body p) (next_node p) (observationTargets p) l (listeners p) (log p).

Definition with_listeners (l : list Listener) (p : Page) : Page :=
  mkPage (window p) (clientWidth p) (clientHeight p) (nodes p) (document p)
         (body p) (next_node p) (observationTargets p) (mutationTargets p)
         l (log p).

Definition with_log (l : list Call) (p : Page) : Page :=
  mkPage (window p) (clientWidth p) (clientHeight p) (nodes p) (document p)
         (body p) (next_node p) (observationTargets p) (mutationTargets p)
         (listeners p) l.

(** A computation runs on a page and completes normally or abruptly;
    what it did to the page before an exception stays done. *)
Definition M (A : Type) : Type := Page -> Completion A * Page.

#[export] Instance M_ret : MRet M := fun A a p => (Normal a, p).

#[export] Instance M_bind : MBind M := fun A B k m p =>
  match m p with
  | (Normal a, p') => k a p'
  | (Throw e, p') => (Throw e, p')
  end.

Definition throw {A : Type} (e : Exception) : M A := fun p => (Throw e, p).

Definition gets {A : Type} (f : Page -> A) : M A := fun p => (Normal (f p), p).

Definition modify (f : Page -> Page) : M unit := fun p => (Normal tt, f p).

Definition completes (c : Completion unit) : M unit :=
  match c with
  | Normal _ => mret tt
  | Throw e => throw e
  end.

(** Append one entry to the log. *)
Definition record (c : Call) : M unit :=
  modify (fun p => with_log (log p ++ [c]) p).

(** [l.forEach(f)]: an exception in [f] ends the loop. *)
Fixpoint forEach {A : Type} (l : list A) (f : A -> M unit) : M unit :=
  match l with
  | [] => mret tt
  | x :: r => f x;; forEach r f
  end.

(** Run a callback the way the platform does: an exception it raises is
    reported and goes no further. *)
Definition report (m : M unit) : M unit := fun p => (Normal tt, snd (m p)).

(** The data of the node [e]. *)
Definition node (p : Page) (e : elem) : Element := nodes p !!! e.

Definition update_node (e : elem) (f : Element -> Element) : M unit :=
  modify (fun p => with_nodes (<[e := f (node p e)]> (nodes p)) p).

Definition read_node {A : Type} (e : elem) (f : Element -> A) : M A :=
  gets (fun p => f (node p e)).

(** *** Element methods *)

Definition classList_add (e : elem) (token : string) : M unit :=
  record (classList_add_call e token);;
  completes (validate_token token);;
  update_node e (fun el => with_classList (tokens_add token (classList el)) el).

Definition classList_remove (e : elem) (token : string) : M unit :=
  record (classList_remove_call e token);;
  completes (validate_token token);;
  update_node e (fun el => with_classList (tokens_remove token (classList el)) el).

Definition addEventListener (t : EventTarget) (type : string) (cb : Callback) : M unit :=
  record (addEventListener_call t type cb);;
  modify (fun p => with_listeners (listeners p ++ [mkListener t type cb]) p).

Definition el_hasAttribute (e : elem) (name : string) : M bool :=
  read_node e (hasAttribute name).

Definition el_setAttribute (e : elem) (name value : string) : M unit :=
  record (setAttribute_call e name value);;
  update_node e (setAttribute name value).

Definition el_removeAttribute (e : elem) (name : string) : M unit :=
  record (removeAttribute_call e name);;
  update_node e (removeAttribute name).

Definition el_dataset (e : elem) (key : string) : M Value :=
  read_node e (dataset_get key).

Definition el_dataset_in (key : string) (e : elem) : M bool :=
  read_node e (dataset_in key).

Definition el_backgroundImage (e : elem) : M string :=
  read_node e backgroundImage.

Definition el_set_backgroundImage (e : elem) (v : string) : M unit :=
  record (set_backgroundImage_call e v);;
  update_node e (set_backgroundImage v).

Definition el_set_src (e : elem) (v : Value) : M unit :=
  record (set_src_call e v);;
  update_node e (set_src v).

Definition el_set_srcset (e : elem) (v : Value) : M unit :=
  record (set_srcset_call e v);;
  update_node e (set_srcset v).

(** The selector [[name]].  The selectors of the script are
    [[data-${Options.attribute}]].  When the text between the brackets
    is a CSS identifier, the selector is valid and selects by the
    presence of that one attribute, the name being compared in lowercase
    as the attribute methods do.  Any other text is taken as a syntax
    error.  (Texts that spell another valid selector, with a matcher
    such as [=], an escape, white space before the closing bracket or a
    closing bracket of their own, are not part of the model.) *)
Definition attribute_selector (name : string) : Completion unit :=
  if is_identifier name then Normal tt else Throw SyntaxError.

(** [el.matches("[name]")] on an element. *)
Definition el_matches (e : elem) (name : string) : M bool :=
  completes (attribute_selector name);;
  read_node e (hasAttribute name).

(** *** The document *)

(** [document.querySelectorAll("[name]")]: the elements of the document
    that carry the attribute, in tree order. *)
Definition querySelectorAll (name : string) : M (list elem) :=
  completes (attribute_selector name);;
  gets (fun p =>
          List.filter
            (fun e => (nodeType (node p e) =? 1)%Z && hasAttribute name (node p e))
            (forest_preorder (document p))).

(** A new script element: no attributes, no parent. *)
Definition new_script : Element :=
  mkElement 1 "SCRIPT" [] None [] (mkDOMRect 0 0 0 0) [].

(** [document.createElement("script")]. *)
Definition createElement_script : M elem :=
  e ← gets next_node;
  record (createElement_call "script" e);;
  modify (fun p => with_next_node (S e) (with_nodes (<[e := new_script]> (nodes p)) p));;
  mret e.

Definition parentElement (e : elem) : M (option elem) :=
  gets (fun p => forest_parent e (document p)).

(** [parent.insertBefore(new, ref)] for a [new] that is not in the
    document yet and a [ref] that is a child of [parent]. *)
Definition insertBefore (parent new ref : elem) : M unit :=
  record (insertBefore_call parent new ref);;
  modify (fun p => with_document (List.map (tree_insertBefore parent new ref) (document p)) p).

(** [node.remove()]. *)
Definition remove (e : elem) : M unit :=
  record (remove_call e);;
  modify (fun p => with_document (forest_remove e (document p)) p).

(** *** The observers *)

(** [new IntersectionObserver(lazyLoadBackgrounds)]: the page keeps the
    targets of this one observer. *)
Definition new_IntersectionObserver : M unit :=
  modify (with_observationTargets ∅).

Definition observe (e : elem) : M unit :=
  record (observe_call e);;
  modify (fun p => with_observationTargets ({[e]} ∪ observationTargets p) p).

Definition unobserve (e : elem) : M unit :=
  record (unobserve_call e);;
  modify (fun p => with_observationTargets (observationTargets p ∖ {[e]}) p).

(** [observer.observe(document.body, {childList: true, subtree: true})];
    [document.body] is [null] while the document has no body, and
    [observe(null)] is a [TypeError]. *)
Definition mutation_observe_body : M unit :=
  b ← gets body;
  match b with
  | Some e =>
      record (mutation_observe_call e);;
      modify (fun p => with_mutationTargets (mutationTargets p ++ [e]) p)
  | None => throw TypeError
  end.

End Browser.


(** ** The script *)

(** The configuration record of both versions of the script. *)
Record LazyloadOptions : Type := mkOptions {
  loading : string;
  failed : string;
  on : string;
  loaded : string;
  attribute : string
}.

(** The defaults of line 7. *)
Definition default_options : LazyloadOptions :=
  mkOptions "lazy-loading" "lazy-failed" "lazy" "lazy-loaded" "lazy".

(** [Options], line 7: the value of [window.lazyloadOptions] when the
    window has that property, else the defaults. *)
Definition resolve_options (lazyloadOptions : option LazyloadOptions) : LazyloadOptions :=
  match lazyloadOptions with
  | Some o => o
  | None => default_options
  end.

(** What the intersection observer hands to its callback. *)
Record IntersectionObserverEntry : Type := mkEntry {
  isIntersecting : bool;
  target : DOM.elem
}.

(** What the mutation observer hands to its callback. *)
Record MutationRecord : Type := mkMutation {
  type : string;
  addedNodes : list DOM.elem
}.

(** *** [src/index.ts] *)

Module Index.
Import JS DOMString DOM Browser.

Section Script.

Variable Options : LazyloadOptions.

(** ['data-' + Options.attribute], also the attribute name inside the
    selector [[data-${Options.attribute}]]. *)
Definition marker : string := "data-" +:+ attribute Options.

(** Lines 15-25. *)
Definition isElementInViewport (el : elem) : M bool :=
  rect ← read_node el boundingClientRect;
  w ← gets window;
  cw ← gets clientWidth;
  ch ← gets clientHeight;
  mret (gt_zero (bottom rect)
        && gt_zero (right rect)
        && lt_long (left rect) (or_long (innerWidth w) cw)
        && lt_long (top rect) (or_long (innerHeight w) ch)).

(** Lines 32-41.  The log entry at the start marks the call. *)
Definition unveil (lazyBackground : elem) : M unit :=
  record (unveil_call lazyBackground);;
  styled ← el_hasAttribute lazyBackground "style";
  image ← el_backgroundImage lazyBackground;
  (if styled && truthy (str image) then
     lazy ← el_dataset lazyBackground "lazy";
     el_set_backgroundImage lazyBackground ("url(" +:+ ToString lazy +:+ ")")
   else
     lazy ← el_dataset lazyBackground "lazy";
     el_set_src lazyBackground lazy);;
  el_removeAttribute lazyBackground ("data-" +:+ attribute Options).

(** Lines 50-69, the arrow function applied to each entry; [observer]
    is the one intersection observer of the page. *)
Definition entry_callback (entry : IntersectionObserverEntry) : M unit :=
  if isIntersecting entry then
    classList_add (target entry) (on Options);;
    addEventListener (the_node (target entry)) "load" (on_load (target entry));;
    addEventListener (the_node (target entry)) "error" (on_error (target entry));;
    classList_add (target entry) (loading Options);;
    unveil (target entry);;
    unobserve (target entry)
  else mret tt.

(** Lines 49-70. *)
Definition lazyLoadBackgrounds (entries : list IntersectionObserverEntry) : M unit :=
  forEach entries entry_callback.

(** Lines 76-79. *)
Definition fallbackNode (node : elem) : M unit :=
  unveil node;;
  classList_add node (loaded Options).

(** Lines 85-99: the call registers the listener and returns. *)
Definition lazyscript (node : elem) : M unit :=
  record (lazyscript_call node);;
  addEventListener the_window "load" (on_window_load node).

(** The bodies of the three listeners: lines 56-59, 61-63 and 87-98.
    The loop of lines 90-92 goes over the attributes of [node], which
    the loop does not change. *)
Definition run_callback (cb : Callback) : M unit :=
  match cb with
  | on_load t =>
      classList_add t (loaded Options);;
      classList_remove t (loading Options)
  | on_error t =>
      classList_add t (failed Options)
  | on_window_load node =>
      script ← createElement_script;
      attrs ← read_node node attributes;
      forEach attrs (fun a =>
        if String.eqb (fst a) ("data-" +:+ attribute Options)
        then el_setAttribute script (fst a) (snd a)
        else mret tt);;
      lazy ← el_dataset node "lazy";
      el_set_src script lazy;;
      parent ← parentElement node;
      match parent with
      | Some p => insertBefore p script node
      | None => mret tt
      end;;
      remove node
  end.

(** Lines 124-140, the arrow function applied to each added node. *)
Definition added_node (node : elem) : M unit :=
  nt ← read_node node nodeType;
  selected ← (if (nt =? 1)%Z return M bool
              then el_matches node marker else mret false);
  if (selected : bool) then
    name ← read_node node nodeName;
    if String.eqb name "SCRIPT" then lazyscript node
    else
      visible ← isElementInViewport node;
      if (visible : bool) then
        unveil node;;
        if String.eqb name "IMG" || String.eqb name "VIDEO" then
          hinted ← el_hasAttribute node "fetchpriority";
          if (hinted : bool) then mret tt
          else el_setAttribute node "fetchpriority" "high"
        else mret tt
      else observe node
  else mret tt.

(** Lines 121-143, the callback of the mutation observer. *)
Definition mutation_callback (mutationsList : list MutationRecord) : M unit :=
  forEach mutationsList (fun mutation =>
    if String.eqb (type mutation) "childList" then
      forEach (addedNodes mutation) added_node
    else mret tt).

(** Lines 106-159. *)
Definition fastLazyLoad : M unit :=
  lazyElements ← querySelectorAll marker;
  w ← gets window;
  if has_IntersectionObserver w && has_MutationObserver w then
    new_IntersectionObserver;;
    forEach lazyElements observe;;
    mutation_observe_body
  else
    forEach lazyElements fallbackNode.

(** *** The platform calling back *)

(** The intersection observer delivers a batch of entries. *)
Definition deliver_entries (entries : list IntersectionObserverEntry) : M unit :=
  report (lazyLoadBackgrounds entries).

(** The mutation observer delivers a batch of records. *)
Definition deliver_mutations (records : list MutationRecord) : M unit :=
  report (mutation_callback records).

(** An event of type [ty] fires at [t]: the listeners registered for it
    at that moment run in the order of registration, and stay
    registered. *)
Definition dispatchEvent (t : EventTarget) (ty : string) : M unit :=
  ls ← gets listeners;
  forEach ls (fun l =>
    if bool_decide (listener_target l = t) && String.eqb (listener_type l) ty
    then report (run_callback (listener_callback l))
    else mret tt).

End Script.

End Index.


(** *** The later version of the script ([unveil] with a source set) *)

Module Later.
Import JS DOMString DOM Browser.

Section Script.

Variable Options : LazyloadOptions.

(** Lines 32-45 of the later version.  In line 40 the [+] binds tighter
    than [in], so the key looked up is [Options.attribute + '-srcset'];
    in line 41 the value assigned is [dataset[Options.attribute]] with
    ['-srcset'] appended. *)
Definition unveil (lazyElement : elem) : M unit :=
  record (unveil_call lazyElement);;
  styled ← el_hasAttribute lazyElement "style";
  image ← el_backgroundImage lazyElement;
  (if styled && truthy (str image) then
     pending ← el_dataset lazyElement (attribute Options);
     el_set_backgroundImage lazyElement ("url(" +:+ ToString pending +:+ ")")
   else
     pending ← el_dataset lazyElement (attribute Options);
     el_set_src lazyElement pending;;
     listed ← el_dataset_in (attribute Options +:+ "-srcset") lazyElement;
     if (listed : bool) then
       again ← el_dataset lazyElement (attribute Options);
       el_set_srcset lazyElement (str (ToString again +:+ "-srcset"))
     else mret tt);;
  el_removeAttribute lazyElement ("data-" +:+ attribute Options).

(** Lines 91-102 of the later version: the body of the listener that
    [lazyscript] registers for the load event of the window.  It differs
    from the earlier one in line 98, which reads
    [dataset[Options.attribute]]. *)
Definition window_load_listener (node : elem) : M unit :=
  script ← createElement_script;
  attrs ← read_node node attributes;
  forEach attrs (fun a =>
    if String.eqb (fst a) ("data-" +:+ attribute Options)
    then el_setAttribute script (fst a) (snd a)
    else mret tt);;
  pending ← el_dataset node (attribute Options);
  el_set_src script pending;;
  parent ← parentElement node;
  match parent with
  | Some p => insertBefore p script node
  | None => mret tt
  end;;
  remove node.

End Script.

End Later.


(** ** Notions used in the statements *)

Module Notions.
Import JS DOMString DOM Browser.

(** The extent of the viewport along one axis as the specification words
    it: the inner dimension of the window, unless that is zero or
    undefined, in which case the client dimension of the document root. *)
Definition viewport_extent (inner : Long) (client : Z) : Z :=
  match inner with
  | None => client
  | Some n => if decide (n = 0%Z) then client else n
  end.

(** The rectangle overlaps a viewport of the given width and height. *)
Definition overlaps_viewport (r : DOMRect) (width height : Z) : Prop :=
  (0 < bottom r)%Q /\ (0 < right r)%Q /\
  (left r < inject_Z width)%Q /\ (top r < inject_Z height)%Q.

(** The element has a [style] attribute whose background image is not
    empty: the condition of line 34. *)
Definition has_inline_background (el : Element) : bool :=
  hasAttribute "style" el && negb (String.eqb (backgroundImage el) "").

(** What [Index.unveil] does to the data of the element it is given... *)
Definition unveil_element (O : LazyloadOptions) (el : Element) : Element :=
  removeAttribute (Index.marker O)
    (if has_inline_background el
     then set_backgroundImage ("url(" +:+ ToString (dataset_get "lazy" el) +:+ ")") el
     else set_src (dataset_get "lazy" el) el).

(** ...and the calls it logs. *)
Definition unveil_calls (O : LazyloadOptions) (e : elem) (el : Element) : list Call :=
  [ unveil_call e;
    (if has_inline_background el
     then set_backgroundImage_call e ("url(" +:+ ToString (dataset_get "lazy" el) +:+ ")")
     else set_src_call e (dataset_get "lazy" el));
    removeAttribute_call e (Index.marker O) ].

(** A key without hyphens and without uppercase letters. *)
Fixpoint plain (k : string) : bool :=
  match k with
  | EmptyString => true
  | String c r =>
      negb (Ascii.eqb c "-") && negb (is_upper_alpha c) && plain r
  end.

(** The string holds a hyphen that is followed by a lowercase letter. *)
Definition head_lower (s : string) : bool :=
  match s with
  | String d _ => is_lower_alpha d
  | EmptyString => false
  end.

Fixpoint dash_lower (s : string) : bool :=
  match s with
  | EmptyString => false
  | String c r => (Ascii.eqb c "-" && head_lower r) || dash_lower r
  end.

(** What [Later.unveil] does to the data of the element it is given. *)
Definition later_unveil_element (O : LazyloadOptions) (el : Element) : Element :=
  removeAttribute (Index.marker O)
    (if has_inline_background el
     then set_backgroundImage
            ("url(" +:+ ToString (dataset_get (attribute O) el) +:+ ")") el
     else set_src (dataset_get (attribute O) el) el).

(** *** Pages to run the script on *)

Definition no_rect : DOMRect := mkDOMRect 0 0 0 0.

Definition img (attrs : list (string * string)) : Element :=
  mkElement 1 "IMG" attrs None [] no_rect [].

Definition html : Element := mkElement 1 "HTML" [] None [] no_rect [].

(** A window of 800 by 600 with both observers; the document is the
    root [0] with the one child [1], whose data is [el]. *)
Definition page_of (el : Element) : Page :=
  mkPage (mkWindow (Some 800%Z) (Some 600%Z) true true) 800 600
         (<[1%nat := el]> (<[0%nat := html]> ∅))
         [Node 0 [Node 1 []]] (Some 0%nat) 2 ∅ [] [] [].

(** [<img data-lazy="a.png">] *)
Definition lazy_img_page : Page := page_of (img [("data-lazy", "a.png")]).

(** [<img data-defer="a.png">], with the options that name the marker
    attribute [defer]. *)
Definition defer_options : LazyloadOptions :=
  mkOptions "lazy-loading" "lazy-failed" "lazy" "lazy-loaded" "defer".

Definition defer_img_page : Page := page_of (img [("data-defer", "a.png")]).

(** [<img data-lazy="a.png" data-lazy-srcset="a-2x.png 2x">] *)
Definition srcset_img_page : Page :=
  page_of (img [("data-lazy", "a.png"); ("data-lazy-srcset", "a-2x.png 2x")]).

(** *** What handling one intersecting entry does *)

Definition entry_listeners (t : elem) : list Listener :=
  [ mkListener (the_node t) "load" (on_load t);
    mkListener (the_node t) "error" (on_error t) ].

Definition entry_calls (O : LazyloadOptions) (t : elem) (el : Element) : list Call :=
  [ classList_add_call t (on O);
    addEventListener_call (the_node t) "load" (on_load t);
    addEventListener_call (the_node t) "error" (on_error t);
    classList_add_call t (loading O) ]
  ++ unveil_calls O t el
  ++ [ unobserve_call t ].

Definition entered_element (O : LazyloadOptions) (el : Element) : Element :=
  unveil_element O
    (with_classList (tokens_add (loading O) (tokens_add (on O) (classList el))) el).

Definition entered_page (O : LazyloadOptions) (t : elem) (p : Page) : Page :=
  with_observationTargets (observationTargets p ∖ {[t]})
    (with_listeners (listeners p ++ entry_listeners t)
       (with_log (log p ++ entry_calls O t (node p t))
          (with_nodes (<[t := entered_element O (node p t)]> (nodes p)) p))).

(** The page after a batch of entries, each handled in turn. *)
Fixpoint entered_all (O : LazyloadOptions) (entries : list IntersectionObserverEntry)
    (p : Page) : Page :=
  match entries with
  | [] => p
  | entry :: r =>
      entered_all O r
        (if isIntersecting entry then entered_page O (target entry) p else p)
  end.

(** *** Counting in the log *)

Definition count (c : Call) (l : list Call) : nat := count_occ Call_eq_dec l c.

(** The number of intersecting entries of the batch whose target is [t]. *)
Definition entries_for (t : elem) (entries : list IntersectionObserverEntry) : nat :=
  length (List.filter (fun en => isIntersecting en && Nat.eqb (target en) t) entries).

(** *** Batches as the platform delivers them *)

Fixpoint distinct (l : list elem) : bool :=
  match l with
  | [] => true
  | x :: r => negb (existsb (Nat.eqb x) r) && distinct r
  end.

Definition intersecting_targets (entries : list IntersectionObserverEntry) : list elem :=
  List.map target (List.filter isIntersecting entries).

(** A batch in which no element has two intersecting entries and every
    intersecting entry is for an element the observer is watching. *)
Definition well_delivered (entries : list IntersectionObserverEntry) (p : Page) : bool :=
  distinct (intersecting_targets entries)
  && forallb (fun t => bool_decide (t ∈ observationTargets p))
       (intersecting_targets entries).

(** Deliver the batches one after the other. *)
Fixpoint deliver_all (O : LazyloadOptions)
    (batches : list (list IntersectionObserverEntry)) (p : Page) : Page :=
  match batches with
  | [] => p
  | b :: r => deliver_all O r (snd (Index.deliver_entries O b p))
  end.

Fixpoint well_delivered_all (O : LazyloadOptions)
    (batches : list (list IntersectionObserverEntry)) (p : Page) : bool :=
  match batches with
  | [] => true
  | b :: r =>
      well_delivered b p
      && well_delivered_all O r (snd (Index.deliver_entries O b p))
  end.

(** *** Parts of the page a computation leaves alone *)

Definition preserves {X A : Type} (f : Page -> X) (m : M A) : Prop :=
  forall p : Page, f (snd (m p)) = f p.

(** A listener as the script registers them. *)
Definition script_listener (l : Listener) : bool :=
  match listener_callback l with
  | on_load t =>
      bool_decide (listener_target l = the_node t) && String.eqb (listener_type l) "load"
  | on_error t =>
      bool_decide (listener_target l = the_node t) && String.eqb (listener_type l) "error"
  | on_window_load _ =>
      bool_decide (listener_target l = the_window) && String.eqb (listener_type l) "load"
  end.

(** [n] events of type [ty] fire at [t], one after the other. *)
Fixpoint dispatch_times (O : LazyloadOptions) (n : nat) (t : EventTarget)
    (ty : string) (p : Page) : Page :=
  match n with
  | 0 => p
  | S k => dispatch_times O k t ty (snd (Index.dispatchEvent O t ty p))
  end.

(** The page [lazy_img_page] with the image under observation. *)
Definition watched_img_page : Page :=
  with_observationTargets {[1%nat]} lazy_img_page.

(** The page after the error listener of [t] ran once. *)
Definition failed_page (O : LazyloadOptions) (t : elem) (q : Page) : Page :=
  with_log (log q ++ [classList_add_call t (failed O)])
    (with_nodes
       (<[t := with_classList (tokens_add (failed O) (classList (node q t)))
                 (node q t)]> (nodes q)) q).

(** The listeners of [ls] that an event of type [ty] at [t] runs. *)
Definition listening (t : EventTarget) (ty : string) (ls : list Listener) : list Listener :=
  List.filter
    (fun l => bool_decide (listener_target l = t) && String.eqb (listener_type l) ty)
    ls.

(** *** The fallback and the classification of added nodes *)

(** What [Index.fallbackNode] does to the data of the element. *)
Definition fallback_element (O : LazyloadOptions) (el : Element) : Element :=
  with_classList (tokens_add (loaded O) (classList el)) (unveil_element O el).

(** The elements [document.querySelectorAll] finds for the marker. *)
Definition lazyElements (O : LazyloadOptions) (p : Page) : list elem :=
  List.filter
    (fun e => (nodeType (node p e) =? 1)%Z && hasAttribute (Index.marker O) (node p e))
    (forest_preorder (document p)).

(** The tag is one of those that get a fetch priority, and the element
    has none yet. *)
Definition wants_priority (el : Element) : bool :=
  (String.eqb (nodeName el) "IMG" || String.eqb (nodeName el) "VIDEO")
  && negb (hasAttribute "fetchpriority" el).

(** The nodes a batch of mutation records reports as added, in order. *)
Definition added_nodes (records : list MutationRecord) : list elem :=
  concat (List.map addedNodes
            (List.filter (fun m => String.eqb (type m) "childList") records)).

(** [lazy_img_page] on a platform without the intersection observer. *)
Definition legacy_img_page : Page :=
  mkPage (mkWindow (Some 800%Z) (Some 600%Z) false true) 800 600
         (nodes lazy_img_page) (document lazy_img_page) (body lazy_img_page)
         (next_node lazy_img_page) ∅ [] [] [].

(** [lazy_img_page] with the image placed inside the viewport. *)
Definition visible_img_page : Page :=
  page_of (mkElement 1 "IMG" [("data-lazy", "a.png")] None []
             (mkDOMRect 10 110 110 10) []).

(** *** Replacing a node of the document *)

(** The tree with every child subtree rooted at [old] replaced by the
    leaf [new]: the same tree with [new] where [old] was. *)
Fixpoint tree_replace (old new : elem) (t : Tree) : Tree :=
  match t with
  | Node e kids =>
      Node e (List.map
                (fun k => if Nat.eqb (root k) old then Node new []
                          else tree_replace old new k) kids)
  end.

Definition forest_replace (old new : elem) (f : list Tree) : list Tree :=
  List.map
    (fun k => if Nat.eqb (root k) old then Node new [] else tree_replace old new k) f.

(** No two attributes of the list have the same name. *)
Fixpoint unique_names (l : list (string * string)) : bool :=
  match l with
  | [] => true
  | a :: r =>
      negb (existsb (fun b => String.eqb (fst b) (fst a)) r) && unique_names r
  end.

(** Every node of the document was created before the next one will be. *)
Definition allocated (p : Page) : bool :=
  forallb (fun e => Nat.ltb e (next_node p)) (forest_preorder (document p)).

(** [<script data-lazy="c.js">] as the child [1] of the root. *)
Definition lazy_script : Element :=
  mkElement 1 "SCRIPT" [("data-lazy", "c.js")] None [] no_rect [].

Definition script_page : Page := page_of lazy_script.

(** *** Further notions *)

(** The value of one declaration of the inline style, if there is one. *)
Definition style_property (prop : string) (el : Element) : option string :=
  match style el with
  | Some decls => assoc_get prop decls
  | None => None
  end.

(** The computation raises no exception, on any page. *)
Definition completes_normally {A : Type} (m : M A) : Prop :=
  forall p : Page, exists a : A, fst (m p) = Normal a.

(** The element is in the watch set. *)
Definition watched (t : elem) (p : Page) : bool :=
  bool_decide (t ∈ observationTargets p).

(** The page after the load listener of [t] ran once. *)
Definition loaded_page (O : LazyloadOptions) (t : elem) (q : Page) : Page :=
  with_log (log q ++ [classList_add_call t (loaded O);
                      classList_remove_call t (loading O)])
    (with_nodes
       (<[t := with_classList
                 (tokens_remove (loading O)
                    (tokens_add (loaded O) (classList (node q t))))
                 (node q t)]> (nodes q)) q).

(** The first intersecting entry of a batch, if there is one. *)
Fixpoint first_intersecting (entries : list IntersectionObserverEntry) : option elem :=
  match entries with
  | [] => None
  | en :: r => if isIntersecting en then Some (target en) else first_intersecting r
  end.

(** What [classList.add] raises for a token that is not valid. *)
Definition token_error (t : string) : Exception :=
  if String.eqb t "" then SyntaxError else InvalidCharacterError.

(** Options whose [on] class name is empty. *)
Definition empty_on_options : LazyloadOptions :=
  mkOptions "lazy-loading" "lazy-failed" "" "lazy-loaded" "lazy".

(** Options whose [loaded] class name holds a space. *)
Definition spaced_loaded_options : LazyloadOptions :=
  mkOptions "lazy-loading" "lazy-failed" "lazy" "lazy loaded" "lazy".

(** Options that name the marker attribute [my-lazy], and
    [<img data-my-lazy="a.png">]. *)
Definition hyphen_options : LazyloadOptions :=
  mkOptions "lazy-loading" "lazy-failed" "lazy" "lazy-loaded" "my-lazy".

Definition hyphen_img_page : Page := page_of (img [("data-my-lazy", "a.png")]).

(** [<script data-defer="c.js">] as the child [1] of the root. *)
Definition defer_script_page : Page :=
  page_of (mkElement 1 "SCRIPT" [("data-defer", "c.js")] None [] no_rect []).

(** [<div style="background-image: url(proxy.jpg); width: 960px"
    data-lazy="b.png" title="t">] *)
Definition background_div : Element :=
  mkElement 1 "DIV" [("data-lazy", "b.png"); ("title", "t")]
            (Some [("background-image", css_url "proxy.jpg"); ("width", "960px")])
            ["hero"] no_rect [].

Definition background_page : Page := page_of background_div.

(** [visible_img_page] with the image under observation. *)
Definition watched_visible_page : Page :=
  with_observationTargets {[1%nat]} visible_img_page.

(** The computation puts no element into the watch set. *)
Definition never_watches {A : Type} (m : M A) : Prop :=
  forall (p : Page) (x : elem),
    x ∈ observationTargets (snd (m p)) -> x ∈ observationTargets p.

(** The computation takes no element out of the watch set. *)
Definition never_unwatches {A : Type} (m : M A) : Prop :=
  forall (p : Page) (x : elem),
    x ∈ observationTargets p -> x ∈ observationTargets (snd (m p)).

(** The node is an element that matches the marker selector: the test
    of line 125. *)
Definition selected (O : LazyloadOptions) (p : Page) (n : elem) : bool :=
  (nodeType (node p n) =? 1)%Z && hasAttribute (Index.marker O) (node p n).

(** A character that cannot follow the name inside an attribute
    selector: after the name only white space, a matcher or the closing
    bracket may come. *)
Definition is_selector_delimiter (c : ascii) : bool :=
  existsb (Ascii.eqb c)
    ["."; "#"; ","; ":"; "("; ")"; "["; ">"; "+"; "!"; "@"; "%"; "&"; "?"; ";";
     "<"; "{"; "}"]%char.

(** After white space inside the brackets, another name or a delimiter
    breaks the selector. *)
Fixpoint breaks_after_space (s : string) : bool :=
  match s with
  | EmptyString => false
  | String c r =>
      if is_whitespace c then breaks_after_space r
      else is_name_char c || is_selector_delimiter c
  end.

(** The marker name makes [[data-name]] a selector that does not parse:
    its identifier characters are followed by a delimiter, or by white
    space and then another name or a delimiter. *)
Fixpoint breaks_selector (s : string) : bool :=
  match s with
  | EmptyString => false
  | String c r =>
      if is_name_char c then breaks_selector r
      else if is_whitespace c then breaks_after_space r
      else is_selector_delimiter c
  end.

(** Options with the marker name [a b], and with the [failed] class
    name holding a space. *)
Definition spaced_attribute_options : LazyloadOptions :=
  mkOptions "lazy-loading" "lazy-failed" "lazy" "lazy-loaded" "a b".

Definition spaced_failed_options : LazyloadOptions :=
  mkOptions "lazy-loading" "lazy failed" "lazy" "lazy-loaded" "lazy".

(** [<img data-lazy="a.png"><img data-lazy="b.png">] as the children
    [1] and [2] of the root, on a platform without the intersection
    observer. *)
Definition legacy_two_img_page : Page :=
  mkPage (mkWindow (Some 800%Z) (Some 600%Z) false true) 800 600
         (<[2%nat := img [("data-lazy", "b.png")]]>
            (<[1%nat := img [("data-lazy", "a.png")]]> (<[0%nat := html]> ∅)))
         [Node 0 [Node 1 []; Node 2 []]] (Some 0%nat) 3 ∅ [] [] [].


(** [<div data-lazy="a.png">], without an inline style. *)
Definition plain_div_page : Page :=
  page_of (mkElement 1 "DIV" [("data-lazy", "a.png")] None [] no_rect []).

(** [lazy_img_page] with the root and the image under observation. *)
Definition both_watched_page : Page :=
  with_observationTargets ({[0%nat]} ∪ {[1%nat]}) lazy_img_page.

(** A text node, as the child [1] of the root. *)
Definition text_page : Page :=
  page_of (mkElement 3 "#text" [] None [] no_rect []).

End Notions.

(** * Proofs *)

Import JS DOMString DOM Browser Notions.

(** ** Numbers *)

Lemma gt_zero_spec (x : Q) : gt_zero x = true <-> (0 < x)%Q.
Proof.
  unfold gt_zero. rewrite negb_true_iff, <- not_true_iff_false, Qle_bool_iff.
  split; [apply Qnot_le_lt | apply Qlt_not_le].
Qed.

Lemma lt_long_spec (x : Q) (n : Z) : lt_long x (Some n) = true <-> (x < inject_Z n)%Q.
Proof.
  unfold lt_long. rewrite negb_true_iff, <- not_true_iff_false, Qle_bool_iff.
  split; [apply Qnot_le_lt | apply Qlt_not_le].
Qed.

Lemma or_long_extent (inner : Long) (client : Z) :
  or_long inner client = Some (viewport_extent inner client).
Proof.
  unfold or_long, viewport_extent, truthy_long.
  destruct inner as [n|]; [|reflexivity].
  destruct (decide (n = 0%Z)) as [->|Hn]; [reflexivity|].
  apply Z.eqb_neq in Hn. rewrite Hn. reflexivity.
Qed.

Lemma isElementInViewport_run (p : Page) (el : elem) :
  Index.isElementInViewport el p =
  (Normal (gt_zero (bottom (boundingClientRect (node p el)))
           && gt_zero (right (boundingClientRect (node p el)))
           && lt_long (left (boundingClientRect (node p el)))
                (or_long (innerWidth (window p)) (clientWidth p))
           && lt_long (top (boundingClientRect (node p el)))
                (or_long (innerHeight (window p)) (clientHeight p))),
   p).
Proof. reflexivity. Qed.

(** C2: the viewport predicate completes normally, leaves the page as it
    is, and answers true exactly when the bounding rectangle of the
    element has bottom > 0, right > 0, left < width and top < height, the
    width and height being the inner dimensions of the window or, when
    those are zero or undefined, the client dimensions of the root. *)
Theorem isElementInViewport_overlap (p : Page) (el : elem) :
  exists b : bool,
    Index.isElementInViewport el p = (Normal b, p) /\
    (b = true <->
     overlaps_viewport (boundingClientRect (node p el))
       (viewport_extent (innerWidth (window p)) (clientWidth p))
       (viewport_extent (innerHeight (window p)) (clientHeight p))).
Proof.
  eexists. split; [apply isElementInViewport_run|].
  unfold overlaps_viewport.
  rewrite !andb_true_iff, !or_long_extent, !gt_zero_spec, !lt_long_spec.
  tauto.
Qed.

(** ** Strings *)

Lemma to_upper_is_upper (d : ascii) :
  is_lower_alpha d = true -> is_upper_alpha (to_upper d) = true.
Proof.
  destruct d as [[] [] [] [] [] [] [] []]; intros H; vm_compute in H |- *;
    congruence.
Qed.

Lemma to_upper_not_lower (d : ascii) :
  is_lower_alpha d = true -> is_lower_alpha (to_upper d) = false.
Proof.
  destruct d as [[] [] [] [] [] [] [] []]; intros H; vm_compute in H |- *;
    congruence.
Qed.

Lemma to_upper_not_dash (d : ascii) :
  is_lower_alpha d = true -> Ascii.eqb (to_upper d) "-" = false.
Proof.
  destruct d as [[] [] [] [] [] [] [] []]; intros H; vm_compute in H |- *;
    congruence.
Qed.

Lemma ascii_lowercase_data (s : string) :
  ascii_lowercase ("data-" +:+ s) = "data-" +:+ ascii_lowercase s.
Proof. reflexivity. Qed.

Lemma append_nil (s : string) : "" +:+ s = s.
Proof. reflexivity. Qed.

Lemma append_cons (c : ascii) (r s : string) :
  String c r +:+ s = String c (r +:+ s).
Proof. reflexivity. Qed.

Lemma strip_prefix_Some (p s rest : string) :
  strip_prefix p s = Some rest <-> s = p +:+ rest.
Proof.
  revert s. induction p as [|a p IH]; intros s.
  - rewrite append_nil. simpl. split; congruence.
  - rewrite append_cons. simpl.
    destruct s as [|b s]; [split; discriminate|].
    destruct (Ascii.eqb_spec a b) as [->|Hab].
    + rewrite IH. split; congruence.
    + split; [discriminate | congruence].
Qed.

(** A plain key is the [dataset] name of itself only. *)
Lemma camel_plain (k s : string) : plain k = true -> camel s = k -> s = k.
Proof.
  revert s. induction k as [|c k IH]; intros s Hk Hs.
  - destruct s as [|a r]; [reflexivity|]. simpl in Hs.
    destruct (Ascii.eqb a "-"); [destruct r as [|d r']|]; try discriminate.
    destruct (is_lower_alpha d); discriminate.
  - simpl in Hk. apply andb_true_iff in Hk as [Hc Hk].
    apply andb_true_iff in Hc as [Hdash Hup].
    apply negb_true_iff in Hdash, Hup.
    destruct s as [|a r]; [discriminate|]. simpl in Hs.
    destruct (Ascii.eqb a "-") eqn:Ha.
    + apply Ascii.eqb_eq in Ha. subst a.
      destruct r as [|d r'].
      * injection Hs as <- _. discriminate.
      * destruct (is_lower_alpha d) eqn:Hd.
        -- injection Hs as <- _. rewrite (to_upper_is_upper d Hd) in Hup. discriminate.
        -- injection Hs as <- _. discriminate.
    + injection Hs as -> Hr. f_equal. apply IH; assumption.
Qed.

Lemma camel_of_plain (k : string) : plain k = true -> camel k = k.
Proof.
  induction k as [|c k IH]; [reflexivity|]. simpl. intros Hk.
  apply andb_true_iff in Hk as [Hc Hk].
  apply andb_true_iff in Hc as [Hdash _].
  apply negb_true_iff in Hdash. rewrite Hdash, IH by assumption. reflexivity.
Qed.

Lemma plain_no_upper (k : string) :
  plain k = true -> existsb_string is_upper_alpha k = false.
Proof.
  induction k as [|c k IH]; [reflexivity|]. simpl. intros Hk.
  apply andb_true_iff in Hk as [Hc Hk].
  apply andb_true_iff in Hc as [_ Hup].
  apply negb_true_iff in Hup. rewrite Hup, IH by assumption. reflexivity.
Qed.

(** For such a key, [dataset] exposes exactly the attribute [data-key]. *)
Lemma dataset_name_plain (k n : string) :
  plain k = true -> (dataset_name n = Some k <-> n = "data-" +:+ k).
Proof.
  intros Hk. unfold dataset_name. split.
  - destruct (strip_prefix "data-" n) as [rest|] eqn:Hn; [|discriminate].
    apply strip_prefix_Some in Hn.
    destruct (existsb_string is_upper_alpha rest); [discriminate|].
    intros [= Hc]. apply camel_plain in Hc; [|assumption]. congruence.
  - intros ->.
    replace (strip_prefix "data-" ("data-" +:+ k)) with (Some k)
      by (symmetry; apply strip_prefix_Some; reflexivity).
    rewrite plain_no_upper, camel_of_plain by assumption. reflexivity.
Qed.

Lemma dataset_find_plain (k : string) (l : list (string * string)) :
  plain k = true -> dataset_find k l = assoc_get ("data-" +:+ k) l.
Proof.
  intros Hk. induction l as [|[n v] l IH]; [reflexivity|].
  cbn [dataset_find assoc_get].
  destruct (String.eqb_spec n ("data-" +:+ k)) as [->|Hn].
  - replace (dataset_name ("data-" +:+ k)) with (Some k)
      by (symmetry; apply dataset_name_plain; [assumption|reflexivity]).
    rewrite String.eqb_refl. reflexivity.
  - destruct (dataset_name n) as [k'|] eqn:Hk'; [|exact IH].
    destruct (String.eqb_spec k' k) as [->|_]; [|exact IH].
    apply dataset_name_plain in Hk'; [contradiction | assumption].
Qed.

(** [el.dataset.lazy] is the value of the attribute [data-lazy]. *)
Lemma dataset_lazy (el : Element) :
  dataset_get "lazy" el =
  match getAttribute "data-lazy" el with Some v => str v | None => undefined end.
Proof.
  unfold dataset_get, getAttribute.
  rewrite (dataset_find_plain "lazy") by reflexivity. reflexivity.
Qed.

(** ** Association lists *)

Lemma assoc_get_set_eq (k v : string) (l : list (string * string)) :
  assoc_get k (assoc_set k v l) = Some v.
Proof.
  induction l as [|[k' v'] l IH]; simpl.
  - rewrite String.eqb_refl. reflexivity.
  - destruct (String.eqb k' k) eqn:E; simpl.
    + rewrite String.eqb_refl. reflexivity.
    + rewrite E. exact IH.
Qed.

Lemma assoc_get_set_ne (k k' v : string) (l : list (string * string)) :
  k <> k' -> assoc_get k' (assoc_set k v l) = assoc_get k' l.
Proof.
  intros Hne. induction l as [|[k0 v0] l IH]; simpl.
  - apply String.eqb_neq in Hne. rewrite Hne. reflexivity.
  - destruct (String.eqb_spec k0 k) as [->|Hk0]; simpl.
    + apply String.eqb_neq in Hne. rewrite Hne. reflexivity.
    + rewrite IH. reflexivity.
Qed.

Lemma assoc_get_remove_eq (k : string) (l : list (string * string)) :
  assoc_get k (assoc_remove k l) = None.
Proof.
  induction l as [|[k' v'] l IH]; [reflexivity|]. simpl.
  destruct (String.eqb k' k) eqn:E; simpl; [exact IH|].
  rewrite E. exact IH.
Qed.

Lemma assoc_get_remove_ne (k k' : string) (l : list (string * string)) :
  k <> k' -> assoc_get k' (assoc_remove k l) = assoc_get k' l.
Proof.
  intros Hne. induction l as [|[k0 v0] l IH]; [reflexivity|]. simpl.
  destruct (String.eqb_spec k0 k) as [->|Hk0]; simpl.
  - apply String.eqb_neq in Hne. rewrite Hne. exact IH.
  - rewrite IH. reflexivity.
Qed.

(** ** Attributes of an element *)

(** For a name other than [style] and [class], the attribute is the
    entry of the attribute list. *)
Lemma getAttribute_ordinary (name : string) (el : Element) :
  ascii_lowercase name <> "style" ->
  ascii_lowercase name <> "class" ->
  getAttribute name el = assoc_get (ascii_lowercase name) (attributes el).
Proof.
  intros Hs Hc. unfold getAttribute.
  apply String.eqb_neq in Hs, Hc. rewrite Hs, Hc. reflexivity.
Qed.

Lemma getAttribute_data (a : string) (el : Element) :
  getAttribute ("data-" +:+ a) el =
  assoc_get ("data-" +:+ ascii_lowercase a) (attributes el).
Proof. reflexivity. Qed.

Lemma getAttribute_set_eq (name v : string) (el : Element) :
  ascii_lowercase name <> "style" ->
  ascii_lowercase name <> "class" ->
  getAttribute name (setAttribute name v el) = Some v.
Proof.
  intros Hs Hc. rewrite getAttribute_ordinary by assumption.
  unfold setAttribute, with_attributes. cbn [attributes].
  apply assoc_get_set_eq.
Qed.

Lemma getAttribute_set_ne (name name' v : string) (el : Element) :
  ascii_lowercase name <> ascii_lowercase name' ->
  getAttribute name' (setAttribute name v el) = getAttribute name' el.
Proof.
  intros H. unfold getAttribute, setAttribute, with_attributes.
  cbn [attributes style classList].
  destruct (String.eqb (ascii_lowercase name') "style"); [reflexivity|].
  destruct (String.eqb (ascii_lowercase name') "class"); [reflexivity|].
  apply assoc_get_set_ne, H.
Qed.

Lemma getAttribute_remove_eq (name : string) (el : Element) :
  ascii_lowercase name <> "style" ->
  ascii_lowercase name <> "class" ->
  getAttribute name (removeAttribute name el) = None.
Proof.
  intros Hs Hc. rewrite getAttribute_ordinary by assumption.
  unfold removeAttribute, with_attributes. cbn [attributes].
  apply assoc_get_remove_eq.
Qed.

Lemma getAttribute_remove_ne (name name' : string) (el : Element) :
  ascii_lowercase name <> ascii_lowercase name' ->
  getAttribute name' (removeAttribute name el) = getAttribute name' el.
Proof.
  intros H. unfold getAttribute, removeAttribute, with_attributes.
  cbn [attributes style classList].
  destruct (String.eqb (ascii_lowercase name') "style"); [reflexivity|].
  destruct (String.eqb (ascii_lowercase name') "class"); [reflexivity|].
  apply assoc_get_remove_ne, H.
Qed.

(** ** Values of the background image *)

Lemma strip_closing_append (X : string) : strip_closing (X +:+ ")") = Some X.
Proof.
  induction X as [|c X IH]; [reflexivity|].
  rewrite append_cons. cbn [strip_closing].
  destruct (X +:+ ")") as [|d r] eqn:E.
  - destruct X; discriminate.
  - rewrite IH. reflexivity.
Qed.

(** The value [url(X)] is valid CSS when [X] is made of the characters
    of an unquoted URL, and is not otherwise. *)
Lemma css_url_argument_url (X : string) :
  css_url_argument ("url(" +:+ X +:+ ")") =
  if unquoted_url X then Some X else None.
Proof.
  unfold css_url_argument.
  replace (strip_prefix "url(" ("url(" +:+ X +:+ ")")) with (Some (X +:+ ")"))
    by (symmetry; apply strip_prefix_Some; reflexivity).
  rewrite strip_closing_append. reflexivity.
Qed.

Lemma backgroundImage_set (X : string) (el : Element) :
  unquoted_url X = true ->
  backgroundImage (set_backgroundImage ("url(" +:+ X +:+ ")") el) = css_url X.
Proof.
  intros HX. unfold set_backgroundImage. rewrite css_url_argument_url, HX.
  unfold backgroundImage, with_style. cbn [style].
  rewrite assoc_get_set_eq. reflexivity.
Qed.

Lemma set_backgroundImage_ignored (X : string) (el : Element) :
  unquoted_url X = false ->
  set_backgroundImage ("url(" +:+ X +:+ ")") el = el.
Proof.
  intros HX. unfold set_backgroundImage. rewrite css_url_argument_url, HX.
  reflexivity.
Qed.

Lemma css_url_not_empty (X : string) : String.eqb (css_url X) "" = false.
Proof. reflexivity. Qed.

(** Whatever the value assigned, an element with an inline background
    image still has one afterwards. *)
Lemma has_inline_background_set (v : string) (el : Element) :
  has_inline_background el = true ->
  has_inline_background (set_backgroundImage v el) = true.
Proof.
  intros H. unfold set_backgroundImage.
  destruct (css_url_argument v) as [X|]; [|exact H].
  unfold has_inline_background, hasAttribute, backgroundImage, with_style.
  cbn [style]. rewrite assoc_get_set_eq, css_url_not_empty. reflexivity.
Qed.

(** ** Assignments to [src] *)

Lemma property_get_set_eq (k : string) (v : Value) (l : list (string * Value)) :
  property_get k (property_set k v l) = Some v.
Proof.
  induction l as [|[k' v'] l IH]; simpl.
  - rewrite String.eqb_refl. reflexivity.
  - destruct (String.eqb k' k) eqn:E; simpl.
    + rewrite String.eqb_refl. reflexivity.
    + rewrite E. exact IH.
Qed.

Lemma src_set (v : Value) (el : Element) :
  reflects_src (nodeName el) = true ->
  src (set_src v el) = Some (ToString v).
Proof.
  intros H. unfold src, set_src. rewrite H.
  apply getAttribute_set_eq; discriminate.
Qed.

Lemma src_set_property (v : Value) (el : Element) :
  reflects_src (nodeName el) = false ->
  property "src" (set_src v el) = Some v /\
  attributes (set_src v el) = attributes el.
Proof.
  intros H. unfold set_src. rewrite H. split; [|reflexivity].
  unfold property, set_property, with_properties. cbn [properties].
  apply property_get_set_eq.
Qed.

(** An assignment to [src] changes no attribute other than [src]. *)
Lemma getAttribute_set_src (name : string) (v : Value) (el : Element) :
  ascii_lowercase name <> "src" ->
  getAttribute name (set_src v el) = getAttribute name el.
Proof.
  intros H. unfold set_src. destruct (reflects_src (nodeName el)); [|reflexivity].
  apply getAttribute_set_ne. intros Heq. apply H. rewrite <- Heq. reflexivity.
Qed.

Lemma marker_lowercase (O : LazyloadOptions) :
  ascii_lowercase (Index.marker O) = "data-" +:+ ascii_lowercase (attribute O).
Proof. reflexivity. Qed.

(** ** Running computations *)

Ltac run :=
  repeat (progress (
    unfold mbind, M_bind, mret, M_ret, gets, modify, record, completes, throw,
      report, update_node, read_node, el_hasAttribute, el_backgroundImage,
      el_dataset, el_dataset_in, el_set_backgroundImage, el_set_src,
      el_set_srcset, el_setAttribute, el_removeAttribute, el_matches, node,
      with_log, with_nodes, with_listeners, with_document, with_next_node,
      with_observationTargets, with_mutationTargets; cbn)).

Lemma bind_run {A B : Type} (m : M A) (k : A -> M B) (p p' : Page) (a : A) :
  m p = (Normal a, p') -> (m ≫= k) p = k a p'.
Proof. intros H. unfold mbind, M_bind. rewrite H. reflexivity. Qed.

(** The two calls that take the marker selector, for a marker that is
    a CSS identifier and for one that is not. *)
Lemma querySelectorAll_run (O : LazyloadOptions) (p : Page) :
  is_identifier (Index.marker O) = true ->
  querySelectorAll (Index.marker O) p = (Normal (lazyElements O p), p).
Proof.
  intros H. unfold querySelectorAll, attribute_selector. rewrite H. reflexivity.
Qed.

Lemma querySelectorAll_invalid (name : string) (p : Page) :
  is_identifier name = false ->
  querySelectorAll name p = (Throw SyntaxError, p).
Proof.
  intros H. unfold querySelectorAll, attribute_selector. rewrite H. reflexivity.
Qed.

Lemma el_matches_run (e : elem) (name : string) (p : Page) :
  is_identifier name = true ->
  el_matches e name p = (Normal (hasAttribute name (node p e)), p).
Proof.
  intros H. unfold el_matches, attribute_selector. rewrite H. reflexivity.
Qed.

Lemma el_matches_invalid (e : elem) (name : string) (p : Page) :
  is_identifier name = false ->
  el_matches e name p = (Throw SyntaxError, p).
Proof.
  intros H. unfold el_matches, attribute_selector. rewrite H. reflexivity.
Qed.

Lemma forEach_app {A : Type} (l1 l2 : list A) (f : A -> M unit) (p : Page) :
  forEach (l1 ++ l2) f p = (forEach l1 f;; forEach l2 f) p.
Proof.
  revert p. induction l1 as [|x l1 IH]; intros p; [reflexivity|].
  cbn [forEach app]. unfold mbind, M_bind in *.
  destruct (f x p) as [[[]|e] p1]; [apply IH | reflexivity].
Qed.

Lemma validate_valid (t : string) :
  valid_token t = true -> validate_token t = Normal tt.
Proof.
  unfold valid_token, validate_token. intros H.
  apply andb_true_iff in H as [H1 H2].
  apply negb_true_iff in H1, H2. rewrite H1, H2. reflexivity.
Qed.

(** ** The reveal operation *)

Lemma unveil_run (O : LazyloadOptions) (e : elem) (p : Page) :
  Index.unveil O e p =
  (Normal tt,
   with_log (log p ++ unveil_calls O e (node p e))
     (with_nodes (<[e := unveil_element O (node p e)]> (nodes p)) p)).
Proof.
  unfold Index.unveil, unveil_calls, unveil_element, has_inline_background.
  run. unfold truthy.
  destruct (hasAttribute "style" (nodes p !!! e)
            && negb (backgroundImage (nodes p !!! e) =? ""))%bool; run.
  all: rewrite lookup_total_insert_eq, insert_insert_eq, <- !app_assoc; reflexivity.
Qed.

Lemma hasAttribute_remove_eq (name : string) (el : Element) :
  ascii_lowercase name <> "style" ->
  ascii_lowercase name <> "class" ->
  hasAttribute name (removeAttribute name el) = false.
Proof.
  intros Hs Hc. unfold hasAttribute.
  rewrite getAttribute_remove_eq by assumption.
  apply String.eqb_neq in Hs. rewrite Hs. reflexivity.
Qed.

Lemma marker_not_style (O : LazyloadOptions) :
  ascii_lowercase (Index.marker O) <> "style".
Proof. unfold Index.marker. rewrite ascii_lowercase_data. discriminate. Qed.

Lemma marker_not_class (O : LazyloadOptions) :
  ascii_lowercase (Index.marker O) <> "class".
Proof. unfold Index.marker. rewrite ascii_lowercase_data. discriminate. Qed.

Lemma marker_not_src (O : LazyloadOptions) :
  ascii_lowercase (Index.marker O) <> ascii_lowercase "src".
Proof. unfold Index.marker. rewrite ascii_lowercase_data. discriminate. Qed.

(** After [unveil] the marker attribute is gone, whatever the options. *)
Lemma unveil_element_unmarked (O : LazyloadOptions) (el : Element) :
  hasAttribute (Index.marker O) (unveil_element O el) = false.
Proof. apply hasAttribute_remove_eq; [apply marker_not_style | apply marker_not_class]. Qed.

Lemma has_inline_background_removeAttribute (name : string) (el : Element) :
  has_inline_background (removeAttribute name el) = has_inline_background el.
Proof. reflexivity. Qed.

Lemma has_inline_background_set_src (v : Value) (el : Element) :
  has_inline_background (set_src v el) = has_inline_background el.
Proof. unfold set_src. destruct (reflects_src (nodeName el)); reflexivity. Qed.

Lemma has_inline_background_unveil (O : LazyloadOptions) (el : Element) :
  has_inline_background (unveil_element O el) = has_inline_background el.
Proof.
  unfold unveil_element. rewrite has_inline_background_removeAttribute.
  destruct (has_inline_background el) eqn:E.
  - apply has_inline_background_set, E.
  - rewrite has_inline_background_set_src. exact E.
Qed.

(** What the reveal operation leaves in the element, by the branch it
    takes; [v] is what [dataset.lazy] reads. *)
Lemma backgroundImage_unveil_element (O : LazyloadOptions) (el : Element) :
  has_inline_background el = true ->
  unquoted_url (ToString (dataset_get "lazy" el)) = true ->
  backgroundImage (unveil_element O el) = css_url (ToString (dataset_get "lazy" el)).
Proof.
  intros H HX. unfold unveil_element. rewrite H.
  change (backgroundImage (removeAttribute ?n ?x)) with (backgroundImage x).
  apply backgroundImage_set, HX.
Qed.

Lemma backgroundImage_unveil_ignored (O : LazyloadOptions) (el : Element) :
  has_inline_background el = true ->
  unquoted_url (ToString (dataset_get "lazy" el)) = false ->
  unveil_element O el = removeAttribute (Index.marker O) el.
Proof.
  intros H HX. unfold unveil_element.
  rewrite H, set_backgroundImage_ignored by exact HX. reflexivity.
Qed.

Lemma src_unveil_element (O : LazyloadOptions) (el : Element) :
  has_inline_background el = false ->
  reflects_src (nodeName el) = true ->
  src (unveil_element O el) = Some (ToString (dataset_get "lazy" el)).
Proof.
  intros H Hr. unfold unveil_element. rewrite H. unfold src.
  rewrite getAttribute_remove_ne by apply marker_not_src.
  apply src_set, Hr.
Qed.

Lemma property_unveil_element (O : LazyloadOptions) (el : Element) :
  has_inline_background el = false ->
  reflects_src (nodeName el) = false ->
  property "src" (unveil_element O el) = Some (dataset_get "lazy" el) /\
  src (unveil_element O el) = src el.
Proof.
  intros H Hr. unfold unveil_element. rewrite H.
  destruct (src_set_property (dataset_get "lazy" el) el Hr) as [Hp Ha].
  split; [exact Hp|]. unfold src.
  rewrite getAttribute_remove_ne by apply marker_not_src.
  unfold set_src. rewrite Hr. reflexivity.
Qed.

(** For the parts of an element that the reveal operation does not
    write to: go through the branches it can take. *)
Ltac unveil_branches :=
  unfold unveil_element, later_unveil_element, set_backgroundImage, set_src;
  repeat match goal with
         | |- context [if ?b then _ else _] => destruct b
         | |- context [match css_url_argument ?v with _ => _ end] =>
             destruct (css_url_argument v)
         end;
  reflexivity.

Lemma dataset_lazy_value (el : Element) (X : string) :
  getAttribute "data-lazy" el = Some X -> dataset_get "lazy" el = str X.
Proof. intros H. rewrite dataset_lazy, H. reflexivity. Qed.




(** ** The names [dataset] gives to attributes *)

Lemma head_lower_camel (s : string) :
  head_lower s = false -> head_lower (camel s) = false.
Proof.
  destruct s as [|a r]; [reflexivity|]. simpl. intros Ha.
  destruct (Ascii.eqb a "-") eqn:E; [|exact Ha].
  destruct r as [|d r']; [exact Ha|].
  destruct (is_lower_alpha d) eqn:Hd; [|exact Ha].
  simpl. apply to_upper_not_lower, Hd.
Qed.

Lemma camel_hyphen_lower (d : ascii) (r : string) :
  is_lower_alpha d = true ->
  camel (String "-" (String d r)) = String (to_upper d) (camel r).
Proof. intros Hd. cbn [camel]. rewrite Hd. reflexivity. Qed.

Lemma camel_hyphen_other (d : ascii) (r : string) :
  is_lower_alpha d = false ->
  camel (String "-" (String d r)) = String "-" (camel (String d r)).
Proof. intros Hd. cbn [camel]. rewrite Hd. reflexivity. Qed.

Lemma camel_other (c : ascii) (r : string) :
  Ascii.eqb c "-" = false -> camel (String c r) = String c (camel r).
Proof. intros Hc. cbn [camel]. rewrite Hc. reflexivity. Qed.

(** No name of [dataset] holds a hyphen followed by a lowercase letter. *)
Lemma camel_no_dash_lower (s : string) : dash_lower (camel s) = false.
Proof.
  remember (String.length s) as n eqn:Hn.
  revert s Hn. induction n as [n IH] using lt_wf_ind. intros s Hn.
  destruct s as [|c r]; [reflexivity|]. cbn [String.length] in Hn.
  destruct (Ascii.eqb c "-") eqn:Hc.
  - apply Ascii.eqb_eq in Hc. subst c.
    destruct r as [|d r']; [reflexivity|]. cbn [String.length] in Hn.
    destruct (is_lower_alpha d) eqn:Hd.
    + rewrite camel_hyphen_lower by exact Hd. cbn [dash_lower].
      rewrite (to_upper_not_dash d Hd). cbn [andb orb].
      apply (IH (String.length r')); [lia | reflexivity].
    + rewrite camel_hyphen_other by exact Hd. cbn [dash_lower].
      rewrite (head_lower_camel (String d r')) by exact Hd.
      cbn [andb orb Ascii.eqb].
      replace (Ascii.eqb "-" "-") with true by reflexivity. cbn [andb orb].
      apply (IH (String.length (String d r'))); [cbn [String.length]; lia | reflexivity].
  - rewrite camel_other by exact Hc. cbn [dash_lower]. rewrite Hc. cbn [andb orb].
    apply (IH (String.length r)); [lia | reflexivity].
Qed.

Lemma dash_lower_srcset (a : string) : dash_lower (a +:+ "-srcset") = true.
Proof.
  induction a as [|c a IH]; [reflexivity|].
  rewrite append_cons. simpl. rewrite IH. apply orb_true_r.
Qed.

Lemma dataset_find_dash_lower (k : string) (l : list (string * string)) :
  dash_lower k = true -> dataset_find k l = None.
Proof.
  intros Hk. induction l as [|[n v] l IH]; [reflexivity|]. simpl.
  destruct (dataset_name n) as [k'|] eqn:Hn; [|exact IH].
  destruct (String.eqb_spec k' k) as [->|_]; [|exact IH].
  unfold dataset_name in Hn.
  destruct (strip_prefix "data-" n) as [rest|]; [|discriminate].
  destruct (existsb_string is_upper_alpha rest); [discriminate|].
  injection Hn as <-. rewrite camel_no_dash_lower in Hk. discriminate.
Qed.

(** The test of line 40 of the later version fails for every element
    and every configured attribute name. *)
Lemma srcset_key_not_in_dataset (a : string) (el : Element) :
  dataset_in (a +:+ "-srcset") el = false.
Proof.
  unfold dataset_in. rewrite dataset_find_dash_lower; [reflexivity|].
  apply dash_lower_srcset.
Qed.

Lemma later_unveil_run (O : LazyloadOptions) (e : elem) (p : Page) :
  exists calls : list Call,
    Later.unveil O e p =
    (Normal tt,
     with_log (log p ++ calls)
       (with_nodes (<[e := later_unveil_element O (node p e)]> (nodes p)) p)) /\
    forall v : Value, set_srcset_call e v ∉ calls.
Proof.
  unfold Later.unveil, later_unveil_element, has_inline_background.
  run. unfold truthy.
  destruct (hasAttribute "style" (nodes p !!! e)
            && negb (backgroundImage (nodes p !!! e) =? ""))%bool; run.
  - eexists [_; _; _]. split.
    + rewrite lookup_total_insert_eq, insert_insert_eq, <- !app_assoc. reflexivity.
    + intros v Hv. repeat (apply elem_of_cons in Hv as [Hv|Hv]; [discriminate|]).
      inversion Hv.
  - rewrite srcset_key_not_in_dataset. run.
    eexists [_; _; _]. split.
    + rewrite lookup_total_insert_eq, insert_insert_eq, <- !app_assoc. reflexivity.
    + intros v Hv. repeat (apply elem_of_cons in Hv as [Hv|Hv]; [discriminate|]).
      inversion Hv.
Qed.

Lemma srcset_after_reveal (name : string) (v : Value) (el : Element) :
  srcset (removeAttribute ("data-" +:+ name) (set_src v el)) = srcset el.
Proof.
  unfold srcset.
  rewrite getAttribute_remove_ne by discriminate.
  apply getAttribute_set_src. discriminate.
Qed.

Lemma srcset_after_background (name v : string) (el : Element) :
  srcset (removeAttribute ("data-" +:+ name) (set_backgroundImage v el)) = srcset el.
Proof.
  unfold srcset. rewrite getAttribute_remove_ne by discriminate.
  unfold set_backgroundImage. destruct (css_url_argument v); reflexivity.
Qed.

(** C4: the reveal operation of neither version sets the source set.
    In the earlier version no line assigns it; in the later version the
    test that guards the assignment never holds.  For the element
    [<img data-lazy="a.png" data-lazy-srcset="a-2x.png 2x">] under the
    default options, both versions set [src] to [a.png] and leave the
    element without a [srcset]. *)
Theorem srcset_never_assigned :
  (forall (O : LazyloadOptions) (p : Page) (e : elem),
     srcset (node (snd (Later.unveil O e p)) e) = srcset (node p e) /\
     srcset (node (snd (Index.unveil O e p)) e) = srcset (node p e)) /\
  getAttribute "data-lazy-srcset" (node srcset_img_page 1) = Some "a-2x.png 2x" /\
  src (node (snd (Later.unveil default_options 1 srcset_img_page)) 1) = Some "a.png" /\
  srcset (node (snd (Later.unveil default_options 1 srcset_img_page)) 1) = None /\
  src (node (snd (Index.unveil default_options 1 srcset_img_page)) 1) = Some "a.png" /\
  srcset (node (snd (Index.unveil default_options 1 srcset_img_page)) 1) = None.
Proof.
  split; [|vm_compute; repeat split; reflexivity].
  intros O p e. split.
  - destruct (later_unveil_run O e p) as (calls & -> & _).
    unfold node at 1. cbn. rewrite lookup_total_insert_eq.
    unfold later_unveil_element, Index.marker.
    destruct (has_inline_background (node p e));
      [apply srcset_after_background | apply srcset_after_reveal].
  - rewrite unveil_run.
    unfold node at 1. cbn. rewrite lookup_total_insert_eq.
    unfold unveil_element, Index.marker.
    destruct (has_inline_background (node p e));
      [apply srcset_after_background | apply srcset_after_reveal].
Qed.

(** C5: the earlier version reads the pending URL from the attribute
    [data-lazy] whatever the configured name is.  For every options
    record, an element without an inline background image gets as [src]
    the value of its [data-lazy] attribute (the text "undefined" when it
    has none), and the configured marker is what gets removed; on an
    element that does not reflect [src] the value goes into the property
    [src] of the object ([undefined] when there is no [data-lazy]) and
    the attribute stays as it was.  With the marker configured as
    [defer], the element [<img data-defer="a.png">] ends with [src]
    "undefined" and without its marker; the later version gives it the
    [src] "a.png". *)
Theorem unveil_reads_data_lazy :
  (forall (O : LazyloadOptions) (p : Page) (e : elem),
     src (node (snd (Index.unveil O e p)) e) =
     if has_inline_background (node p e) then src (node p e)
     else if reflects_src (nodeName (node p e))
          then Some (match getAttribute "data-lazy" (node p e) with
                     | Some v => v
                     | None => "undefined"
                     end)
          else src (node p e)) /\
  (forall (O : LazyloadOptions) (p : Page) (e : elem),
     has_inline_background (node p e) = false ->
     reflects_src (nodeName (node p e)) = false ->
     property "src" (node (snd (Index.unveil O e p)) e) =
     Some (match getAttribute "data-lazy" (node p e) with
           | Some v => str v
           | None => undefined
           end)) /\
  getAttribute "data-defer" (node defer_img_page 1) = Some "a.png" /\
  src (node (snd (Index.unveil defer_options 1 defer_img_page)) 1) = Some "undefined" /\
  hasAttribute "data-defer" (node (snd (Index.unveil defer_options 1 defer_img_page)) 1) = false /\
  src (node (snd (Later.unveil defer_options 1 defer_img_page)) 1) = Some "a.png".
Proof.
  assert (Hnode : forall O p e,
            node (snd (Index.unveil O e p)) e = unveil_element O (node p e)).
  { intros O p e. rewrite unveil_run. unfold node at 1. cbn.
    apply lookup_total_insert_eq. }
  split; [|split; [|vm_compute; repeat split; reflexivity]].
  - intros O p e. rewrite Hnode.
    destruct (has_inline_background (node p e)) eqn:E.
    + unfold unveil_element, src. rewrite E.
      rewrite getAttribute_remove_ne by apply marker_not_src.
      unfold set_backgroundImage. destruct (css_url_argument _); reflexivity.
    + destruct (reflects_src (nodeName (node p e))) eqn:Er.
      * rewrite src_unveil_element, dataset_lazy by assumption.
        destruct (getAttribute "data-lazy" (node p e)); reflexivity.
      * apply (property_unveil_element O _ E Er).
  - intros O p e E Er. rewrite Hnode.
    destruct (property_unveil_element O _ E Er) as [Hp _].
    rewrite Hp, dataset_lazy. reflexivity.
Qed.

(** ** What a computation leaves alone *)

Lemma preserves_ret {X A : Type} (f : Page -> X) (a : A) : preserves f (mret a).
Proof. intros p. reflexivity. Qed.

Lemma preserves_throw {X A : Type} (f : Page -> X) (e : Exception) :
  preserves f (throw (A := A) e).
Proof. intros p. reflexivity. Qed.

Lemma preserves_gets {X A : Type} (f : Page -> X) (g : Page -> A) :
  preserves f (gets g).
Proof. intros p. reflexivity. Qed.

Lemma preserves_completes {X : Type} (f : Page -> X) (c : Completion unit) :
  preserves f (completes c).
Proof. destruct c; intros p; reflexivity. Qed.

Lemma preserves_modify {X : Type} (f : Page -> X) (g : Page -> Page) :
  (forall p, f (g p) = f p) -> preserves f (modify g).
Proof. intros H p. apply H. Qed.

Lemma preserves_bind {X A B : Type} (f : Page -> X) (m : M A) (k : A -> M B) :
  preserves f m -> (forall a, preserves f (k a)) -> preserves f (m ≫= k).
Proof.
  intros Hm Hk p. unfold mbind, M_bind.
  specialize (Hm p). destruct (m p) as [[a|e] p1]; cbn in *.
  - rewrite Hk. exact Hm.
  - exact Hm.
Qed.

Lemma preserves_forEach {X A : Type} (f : Page -> X) (l : list A) (g : A -> M unit) :
  (forall a, preserves f (g a)) -> preserves f (forEach l g).
Proof.
  intros Hg. induction l as [|x l IH]; cbn [forEach].
  - apply preserves_ret.
  - apply preserves_bind; [apply Hg | intros _; exact IH].
Qed.

Lemma preserves_report {X : Type} (f : Page -> X) (m : M unit) :
  preserves f m -> preserves f (report m).
Proof. intros Hm p. apply Hm. Qed.

Ltac frame_step :=
  lazymatch goal with
  | |- preserves _ (mret _) => apply preserves_ret
  | |- preserves _ (throw _) => apply preserves_throw
  | |- preserves _ (gets _) => apply preserves_gets
  | |- preserves _ (completes _) => apply preserves_completes
  | |- preserves _ (modify _) => apply preserves_modify; intros; reflexivity
  | |- preserves _ (report _) => apply preserves_report
  | |- preserves _ (forEach _ _) => apply preserves_forEach; intros ?
  | |- preserves _ (mbind _ _) => apply preserves_bind; [|intros ?]
  | |- preserves _ (if ?b then _ else _) => destruct b
  | |- preserves _ (match ?x with Some _ => _ | None => _ end) => destruct x
  | |- preserves _ _ =>
      progress unfold record, update_node, read_node, classList_add,
        classList_remove, addEventListener, el_hasAttribute, el_setAttribute,
        el_removeAttribute, el_dataset, el_dataset_in, el_backgroundImage,
        el_set_backgroundImage, el_set_src, el_set_srcset, el_matches,
        createElement_script, parentElement, insertBefore, remove, observe,
        unobserve, Index.unveil, Index.lazyscript, Index.isElementInViewport
  end.

Ltac frame := repeat frame_step.

(** Running a listener registers and removes no listener. *)
Lemma run_callback_listeners (O : LazyloadOptions) (cb : Callback) :
  preserves listeners (Index.run_callback O cb).
Proof. destruct cb; unfold Index.run_callback; frame. Qed.

(** Nor does an event: the listeners stay registered after they ran. *)
Lemma dispatchEvent_listeners (O : LazyloadOptions) (t : EventTarget) (ty : string) :
  preserves listeners (Index.dispatchEvent O t ty).
Proof. unfold Index.dispatchEvent. frame. apply run_callback_listeners. Qed.

(** ** The class list *)

Lemma classList_add_run (e : elem) (t : string) (p : Page) :
  valid_token t = true ->
  classList_add e t p =
  (Normal tt,
   with_log (log p ++ [classList_add_call e t])
     (with_nodes
        (<[e := with_classList (tokens_add t (classList (node p e))) (node p e)]>
           (nodes p)) p)).
Proof.
  intros Ht. unfold classList_add. run. rewrite (validate_valid t Ht). reflexivity.
Qed.

Lemma classList_remove_run (e : elem) (t : string) (p : Page) :
  valid_token t = true ->
  classList_remove e t p =
  (Normal tt,
   with_log (log p ++ [classList_remove_call e t])
     (with_nodes
        (<[e := with_classList (tokens_remove t (classList (node p e))) (node p e)]>
           (nodes p)) p)).
Proof.
  intros Ht. unfold classList_remove. run. rewrite (validate_valid t Ht). reflexivity.
Qed.

Lemma contains_add (t : string) (l : list string) : contains t (tokens_add t l) = true.
Proof.
  unfold tokens_add. destruct (contains t l) eqn:E; [exact E|].
  unfold contains. rewrite existsb_app. cbn. rewrite String.eqb_refl.
  apply orb_true_iff. right. reflexivity.
Qed.

Lemma contains_add_mono (t u : string) (l : list string) :
  contains t l = true -> contains t (tokens_add u l) = true.
Proof.
  intros H. unfold tokens_add. destruct (contains u l); [exact H|].
  unfold contains in *. rewrite existsb_app, H. reflexivity.
Qed.

(** ** The intersection callback *)

Lemma entry_callback_run (O : LazyloadOptions) (en : IntersectionObserverEntry) (p : Page) :
  valid_token (on O) = true -> valid_token (loading O) = true ->
  Index.entry_callback O en p =
  (Normal tt, if isIntersecting en then entered_page O (target en) p else p).
Proof.
  intros Hon Hloading. unfold Index.entry_callback.
  destruct (isIntersecting en); [|reflexivity].
  erewrite bind_run by (apply classList_add_run, Hon).
  unfold addEventListener, unobserve. run.
  rewrite classList_add_run by exact Hloading. run.
  rewrite unveil_run. run.
  unfold entered_page, entry_calls, entered_element. run.
  rewrite !lookup_total_insert_eq, !insert_insert_eq.
  f_equal. f_equal; try reflexivity; rewrite <- ?app_assoc; reflexivity.
Qed.

Lemma lazyLoadBackgrounds_run (O : LazyloadOptions)
    (entries : list IntersectionObserverEntry) (p : Page) :
  valid_token (on O) = true -> valid_token (loading O) = true ->
  Index.lazyLoadBackgrounds O entries p = (Normal tt, entered_all O entries p).
Proof.
  intros Hon Hloading. unfold Index.lazyLoadBackgrounds.
  revert p. induction entries as [|en r IH]; intros p; [reflexivity|].
  cbn [forEach entered_all].
  erewrite bind_run by (apply entry_callback_run; assumption).
  apply IH.
Qed.

Lemma entered_all_app (O : LazyloadOptions)
    (l1 l2 : list IntersectionObserverEntry) (p : Page) :
  entered_all O (l1 ++ l2) p = entered_all O l2 (entered_all O l1 p).
Proof.
  revert p. induction l1 as [|en l1 IH]; intros p; [reflexivity|].
  cbn [app entered_all]. apply IH.
Qed.

Lemma on_load_run (O : LazyloadOptions) (t : elem) (q : Page) :
  valid_token (loaded O) = true -> valid_token (loading O) = true ->
  Index.run_callback O (on_load t) q =
  (Normal tt,
   with_log (log q ++ [classList_add_call t (loaded O);
                       classList_remove_call t (loading O)])
     (with_nodes
        (<[t := with_classList
                  (tokens_remove (loading O)
                     (tokens_add (loaded O) (classList (node q t))))
                  (node q t)]> (nodes q)) q)).
Proof.
  intros Hloaded Hloading. cbn [Index.run_callback].
  erewrite bind_run by (apply classList_add_run, Hloaded).
  rewrite classList_remove_run by exact Hloading. run.
  rewrite lookup_total_insert_eq, insert_insert_eq, <- app_assoc. reflexivity.
Qed.

Lemma on_error_run (O : LazyloadOptions) (t : elem) (q : Page) :
  valid_token (failed O) = true ->
  Index.run_callback O (on_error t) q =
  (Normal tt,
   with_log (log q ++ [classList_add_call t (failed O)])
     (with_nodes
        (<[t := with_classList (tokens_add (failed O) (classList (node q t)))
                  (node q t)]> (nodes q)) q)).
Proof. intros Hfailed. cbn [Index.run_callback]. apply classList_add_run, Hfailed. Qed.

(** C6, with the listeners as the script registers them: when the
    class names [on] and [loading] are valid tokens, every intersecting
    entry of a batch is reached, and handling it makes exactly these
    calls in this order: add the [on] class, register a load listener,
    register an error listener, add the [loading] class, the calls of
    the reveal operation, unobserve the element; the rest of the batch
    follows.  The load listener, when run, adds the [loaded] class and
    then removes the [loading] class; the error listener adds the
    [failed] class.  Neither is one-shot: an event leaves every listener
    registered. *)
Theorem intersecting_entry_steps (O : LazyloadOptions)
    (before after : list IntersectionObserverEntry) (t : elem) (p : Page) :
  valid_token (on O) = true ->
  valid_token (loading O) = true ->
  exists p1 p2 : Page,
    Index.lazyLoadBackgrounds O before p = (Normal tt, p1) /\
    Index.entry_callback O (mkEntry true t) p1 = (Normal tt, p2) /\
    Index.lazyLoadBackgrounds O (before ++ mkEntry true t :: after) p =
      Index.lazyLoadBackgrounds O after p2 /\
    log p2 =
      log p1
      ++ [ classList_add_call t (on O);
           addEventListener_call (the_node t) "load" (on_load t);
           addEventListener_call (the_node t) "error" (on_error t);
           classList_add_call t (loading O) ]
      ++ unveil_calls O t (node p1 t)
      ++ [ unobserve_call t ] /\
    listeners p2 =
      listeners p1
      ++ [ mkListener (the_node t) "load" (on_load t);
           mkListener (the_node t) "error" (on_error t) ] /\
    observationTargets p2 = observationTargets p1 ∖ {[t]} /\
    (forall q : Page,
       valid_token (loaded O) = true ->
       exists q' : Page,
         Index.run_callback O (on_load t) q = (Normal tt, q') /\
         log q' = log q ++ [ classList_add_call t (loaded O);
                             classList_remove_call t (loading O) ] /\
         classList (node q' t) =
           tokens_remove (loading O) (tokens_add (loaded O) (classList (node q t)))) /\
    (forall q : Page,
       valid_token (failed O) = true ->
       exists q' : Page,
         Index.run_callback O (on_error t) q = (Normal tt, q') /\
         log q' = log q ++ [ classList_add_call t (failed O) ] /\
         classList (node q' t) = tokens_add (failed O) (classList (node q t))) /\
    (forall (tgt : EventTarget) (ty : string) (q : Page),
       listeners (snd (Index.dispatchEvent O tgt ty q)) = listeners q).
Proof.
  intros Hon Hloading.
  exists (entered_all O before p), (entered_page O t (entered_all O before p)).
  split; [apply lazyLoadBackgrounds_run; assumption|].
  split; [apply (entry_callback_run O (mkEntry true t)); assumption|].
  split.
  { rewrite !lazyLoadBackgrounds_run by assumption.
    rewrite entered_all_app. reflexivity. }
  split; [reflexivity|].
  split; [reflexivity|].
  split; [reflexivity|].
  split.
  { intros q Hloaded. eexists. split; [apply on_load_run; assumption|].
    split; [reflexivity|].
    unfold node at 1. cbn. rewrite lookup_total_insert_eq. reflexivity. }
  split.
  { intros q Hfailed. eexists. split; [apply on_error_run; assumption|].
    split; [reflexivity|].
    unfold node at 1. cbn. rewrite lookup_total_insert_eq. reflexivity. }
  intros tgt ty q. apply dispatchEvent_listeners.
Qed.

Lemma intersecting_entry_steps_witness :
  exists p1 p2 : Page,
    Index.lazyLoadBackgrounds default_options [] watched_img_page = (Normal tt, p1) /\
    Index.entry_callback default_options (mkEntry true 1) p1 = (Normal tt, p2) /\
    Index.lazyLoadBackgrounds default_options ([] ++ mkEntry true 1 :: []) watched_img_page =
      Index.lazyLoadBackgrounds default_options [] p2 /\
    log p2 =
      log p1
      ++ [ classList_add_call 1 (on default_options);
           addEventListener_call (the_node 1) "load" (on_load 1);
           addEventListener_call (the_node 1) "error" (on_error 1);
           classList_add_call 1 (loading default_options) ]
      ++ unveil_calls default_options 1 (node p1 1)
      ++ [ unobserve_call 1 ] /\
    listeners p2 =
      listeners p1
      ++ [ mkListener (the_node 1) "load" (on_load 1);
           mkListener (the_node 1) "error" (on_error 1) ] /\
    observationTargets p2 = observationTargets p1 ∖ {[1%nat]} /\
    (forall q : Page,
       valid_token (loaded default_options) = true ->
       exists q' : Page,
         Index.run_callback default_options (on_load 1) q = (Normal tt, q') /\
         log q' = log q ++ [ classList_add_call 1 (loaded default_options);
                             classList_remove_call 1 (loading default_options) ] /\
         classList (node q' 1) =
           tokens_remove (loading default_options)
             (tokens_add (loaded default_options) (classList (node q 1)))) /\
    (forall q : Page,
       valid_token (failed default_options) = true ->
       exists q' : Page,
         Index.run_callback default_options (on_error 1) q = (Normal tt, q') /\
         log q' = log q ++ [ classList_add_call 1 (failed default_options) ] /\
         classList (node q' 1) =
           tokens_add (failed default_options) (classList (node q 1))) /\
    (forall (tgt : EventTarget) (ty : string) (q : Page),
       listeners (snd (Index.dispatchEvent default_options tgt ty q)) = listeners q).
Proof.
  apply (intersecting_entry_steps default_options [] [] 1 watched_img_page);
    reflexivity.
Defined.

(** The load listener is not one-shot, as C6 words it: after the image
    of [watched_img_page] was revealed and two load events fired at it,
    the listener is still registered and has added the [loaded] class
    twice. *)
Lemma load_listener_runs_twice :
  let p1 := snd (Index.deliver_entries default_options [mkEntry true 1] watched_img_page) in
  listeners p1 = entry_listeners 1 /\
  listeners (dispatch_times default_options 1 (the_node 1) "load" p1) = entry_listeners 1 /\
  count (classList_add_call 1 "lazy-loaded")
        (log (dispatch_times default_options 2 (the_node 1) "load" p1)) = 2.
Proof. vm_compute. repeat split; reflexivity. Qed.

(** ** Load errors *)

Lemma classList_unveil_element (O : LazyloadOptions) (el : Element) :
  classList (unveil_element O el) = classList el.
Proof. unveil_branches. Qed.

Lemma deliver_entries_run (O : LazyloadOptions)
    (entries : list IntersectionObserverEntry) (p : Page) :
  valid_token (on O) = true -> valid_token (loading O) = true ->
  Index.deliver_entries O entries p = (Normal tt, entered_all O entries p).
Proof.
  intros Hon Hloading. unfold Index.deliver_entries, report.
  rewrite lazyLoadBackgrounds_run by assumption. reflexivity.
Qed.

(** Among the listeners of the script, those for an error at the node
    [t] are the error listener of [t]. *)
Lemma error_listener_callback (t : elem) (l : Listener) :
  script_listener l = true ->
  listener_target l = the_node t ->
  String.eqb (listener_type l) "error" = true ->
  listener_callback l = on_error t.
Proof.
  unfold script_listener. intros Hl Ht Hty.
  apply String.eqb_eq in Hty.
  destruct (listener_callback l) as [t'|t'|n'];
    apply andb_true_iff in Hl as [Htarget Htype];
    apply bool_decide_eq_true in Htarget; apply String.eqb_eq in Htype.
  - rewrite Hty in Htype. discriminate.
  - rewrite Ht in Htarget. congruence.
  - rewrite Ht in Htarget. discriminate.
Qed.

Lemma iter_failed_page_shift (O : LazyloadOptions) (t : elem) (k : nat) (q : Page) :
  Nat.iter k (failed_page O t) (failed_page O t q) =
  Nat.iter (S k) (failed_page O t) q.
Proof. symmetry. apply Nat.iter_succ_r. Qed.

Lemma error_listeners_run (O : LazyloadOptions) (t : elem) (ls : list Listener) (q : Page) :
  valid_token (failed O) = true ->
  forallb script_listener ls = true ->
  forEach ls (fun l =>
    if bool_decide (listener_target l = the_node t) && String.eqb (listener_type l) "error"
    then report (Index.run_callback O (listener_callback l))
    else mret tt) q =
  (Normal tt, Nat.iter (length (listening (the_node t) "error" ls)) (failed_page O t) q).
Proof.
  intros Hfailed. revert q. induction ls as [|l ls IH]; intros q Hls; [reflexivity|].
  cbn [forallb] in Hls. apply andb_true_iff in Hls as [Hl Hls].
  cbn [forEach listening List.filter].
  destruct (bool_decide (listener_target l = the_node t)
            && String.eqb (listener_type l) "error") eqn:E.
  - apply andb_true_iff in E as [Ht Hty]. apply bool_decide_eq_true in Ht.
    rewrite (error_listener_callback t l Hl Ht Hty).
    erewrite bind_run
      by (unfold report; rewrite on_error_run by exact Hfailed; reflexivity).
    rewrite IH by exact Hls. cbn [length].
    rewrite <- iter_failed_page_shift. reflexivity.
  - erewrite bind_run by reflexivity. apply IH, Hls.
Qed.

Lemma dispatch_error_run (O : LazyloadOptions) (t : elem) (q : Page) :
  valid_token (failed O) = true ->
  forallb script_listener (listeners q) = true ->
  snd (Index.dispatchEvent O (the_node t) "error" q) =
  Nat.iter (length (listening (the_node t) "error" (listeners q))) (failed_page O t) q.
Proof.
  intros Hfailed Hls. unfold Index.dispatchEvent.
  erewrite bind_run by reflexivity.
  rewrite error_listeners_run by assumption. reflexivity.
Qed.

Lemma iter_failed_page (O : LazyloadOptions) (t : elem) (k : nat) (q : Page) :
  listeners (Nat.iter k (failed_page O t) q) = listeners q /\
  log (Nat.iter k (failed_page O t) q) =
    log q ++ repeat (classList_add_call t (failed O)) k /\
  (forall c : string,
     contains c (classList (node q t)) = true ->
     contains c (classList (node (Nat.iter k (failed_page O t) q) t)) = true) /\
  (1 <= k ->
   contains (failed O) (classList (node (Nat.iter k (failed_page O t) q) t)) = true).
Proof.
  induction k as [|k (IHl & IHlog & IHc & IHf)]; cbn [Nat.iter].
  - repeat split; [symmetry; apply app_nil_r | auto | lia].
  - assert (Hnode : forall x : Page,
               classList (node (failed_page O t x) t) =
               tokens_add (failed O) (classList (node x t))).
    { intros x. unfold failed_page, node. cbn.
      rewrite lookup_total_insert_eq. reflexivity. }
    rewrite !Nat.iter_succ.
    repeat split.
    + exact IHl.
    + assert (Hlog : forall x : Page,
                 log (failed_page O t x) = log x ++ [classList_add_call t (failed O)])
        by reflexivity.
      rewrite Hlog, IHlog, <- app_assoc. f_equal.
      change [classList_add_call t (failed O)]
        with (repeat (classList_add_call t (failed O)) 1).
      rewrite <- repeat_app. f_equal. lia.
    + intros c Hc. rewrite Hnode. apply contains_add_mono, IHc, Hc.
    + intros _. rewrite Hnode. apply contains_add.
Qed.

Lemma dispatch_times_error (O : LazyloadOptions) (t : elem) (n : nat) (q : Page) :
  valid_token (failed O) = true ->
  forallb script_listener (listeners q) = true ->
  let k := length (listening (the_node t) "error" (listeners q)) in
  dispatch_times O n (the_node t) "error" q = Nat.iter (n * k) (failed_page O t) q.
Proof.
  intros Hfailed. revert q. induction n as [|n IH]; intros q Hls k; [reflexivity|].
  cbn [dispatch_times]. rewrite dispatch_error_run by assumption. fold k.
  destruct (iter_failed_page O t k q) as (Hl & _).
  rewrite IH by (rewrite Hl; exact Hls). rewrite Hl. fold k.
  rewrite <- Nat.iter_add. f_equal. lia.
Qed.

(** C10: let the class names [on], [loading] and [failed] be valid
    tokens and the listeners of the page those of the script.  After an
    intersecting entry for [t] was delivered and then one or more error
    events fired at [t], the element carries the classes [loading],
    [failed] and [on], and all the error events did is call
    [classList.add] with [failed] on [t]. *)
Theorem failed_element_keeps_loading (O : LazyloadOptions) (p : Page) (t : elem) (n : nat) :
  valid_token (on O) = true ->
  valid_token (loading O) = true ->
  valid_token (failed O) = true ->
  forallb script_listener (listeners p) = true ->
  let p1 := snd (Index.deliver_entries O [mkEntry true t] p) in
  let p2 := dispatch_times O (S n) (the_node t) "error" p1 in
  contains (loading O) (classList (node p2 t)) = true /\
  contains (failed O) (classList (node p2 t)) = true /\
  contains (on O) (classList (node p2 t)) = true /\
  exists k : nat,
    1 <= k /\ log p2 = log p1 ++ repeat (classList_add_call t (failed O)) k.
Proof.
  intros Hon Hloading Hfailed Hls p1 p2.
  assert (Hp1 : p1 = entered_page O t p).
  { unfold p1. rewrite deliver_entries_run by assumption. reflexivity. }
  assert (Hls1 : forallb script_listener (listeners p1) = true).
  { rewrite Hp1. unfold entered_page. cbn.
    rewrite forallb_app, Hls. cbn.
    rewrite !bool_decide_eq_true_2 by reflexivity. reflexivity. }
  assert (Hk : 1 <= length (listening (the_node t) "error" (listeners p1))).
  { rewrite Hp1. unfold entered_page, listening. cbn.
    rewrite List.filter_app, length_app. cbn.
    rewrite !bool_decide_eq_true_2 by reflexivity. cbn. lia. }
  assert (Hclasses : classList (node p1 t) =
            tokens_add (loading O) (tokens_add (on O) (classList (node p t)))).
  { rewrite Hp1. unfold entered_page, node. cbn.
    rewrite lookup_total_insert_eq. unfold entered_element.
    rewrite classList_unveil_element. reflexivity. }
  unfold p2. rewrite dispatch_times_error by assumption.
  set (k := length (listening (the_node t) "error" (listeners p1))) in *.
  destruct (iter_failed_page O t (S n * k) p1) as (_ & Hlog & Hc & Hf).
  split; [apply Hc; rewrite Hclasses; apply contains_add|].
  split; [apply Hf; nia|].
  split; [apply Hc; rewrite Hclasses; apply contains_add_mono, contains_add|].
  exists (S n * k). split; [nia | exact Hlog].
Qed.

Lemma failed_element_keeps_loading_witness :
  let p1 := snd (Index.deliver_entries default_options [mkEntry true 1] watched_img_page) in
  let p2 := dispatch_times default_options (S 0) (the_node 1) "error" p1 in
  contains (loading default_options) (classList (node p2 1)) = true /\
  contains (failed default_options) (classList (node p2 1)) = true /\
  contains (on default_options) (classList (node p2 1)) = true /\
  exists k : nat,
    1 <= k /\
    log p2 = log p1 ++ repeat (classList_add_call 1 (failed default_options)) k.
Proof.
  apply (failed_element_keeps_loading default_options watched_img_page 1 0);
    reflexivity.
Defined.

(** With the [failed] class name [lazy failed], the error listener
    raises when it runs, and the element never gets a [failed] class:
    after the error event it carries [on] and [loading] only. *)
Lemma invalid_failed_never_marked :
  let p1 := snd (Index.deliver_entries spaced_failed_options [mkEntry true 1]
                   watched_img_page) in
  let p2 := dispatch_times spaced_failed_options 1 (the_node 1) "error" p1 in
  valid_token (failed spaced_failed_options) = false /\
  fst (Index.run_callback spaced_failed_options (on_error 1) p1) =
    Throw InvalidCharacterError /\
  classList (node p2 1) = ["lazy"; "lazy-loading"] /\
  contains (failed spaced_failed_options) (classList (node p2 1)) = false.
Proof. vm_compute. repeat split; reflexivity. Qed.

(** ** Counting reveals *)

Lemma count_app (c : Call) (l1 l2 : list Call) :
  count c (l1 ++ l2) = count c l1 + count c l2.
Proof. apply count_occ_app. Qed.

Lemma count_unveil_entry_calls (O : LazyloadOptions) (t t' : elem) (el : Element) :
  count (unveil_call t) (entry_calls O t' el) = if Nat.eqb t' t then 1 else 0.
Proof.
  unfold count, entry_calls, unveil_calls.
  destruct (has_inline_background el); cbn [app count_occ];
    repeat (destruct (Call_eq_dec _ _) as [?|?]; try discriminate);
    destruct (Nat.eqb_spec t' t); congruence.
Qed.

Lemma count_unobserve_entry_calls (O : LazyloadOptions) (t t' : elem) (el : Element) :
  count (unobserve_call t) (entry_calls O t' el) = if Nat.eqb t' t then 1 else 0.
Proof.
  unfold count, entry_calls, unveil_calls.
  destruct (has_inline_background el); cbn [app count_occ];
    repeat (destruct (Call_eq_dec _ _) as [?|?]; try discriminate);
    destruct (Nat.eqb_spec t' t); congruence.
Qed.

Lemma entered_all_count (O : LazyloadOptions) (c : elem -> Call) (t : elem)
    (entries : list IntersectionObserverEntry) (p : Page) :
  (forall t' el, count (c t) (entry_calls O t' el) = if Nat.eqb t' t then 1 else 0) ->
  count (c t) (log (entered_all O entries p)) =
  count (c t) (log p) + entries_for t entries.
Proof.
  intros Hc. revert p. induction entries as [|en r IH]; intros p.
  - cbn. lia.
  - cbn [entered_all]. rewrite IH. unfold entries_for. cbn [List.filter].
    destruct (isIntersecting en); cbn [andb].
    + change (log (entered_page O (target en) p))
        with (log p ++ entry_calls O (target en) (node p (target en))).
      rewrite count_app, Hc.
      destruct (Nat.eqb (target en) t); cbn [length]; lia.
    + reflexivity.
Qed.

Lemma entries_for_targets (t : elem) (entries : list IntersectionObserverEntry) :
  entries_for t entries =
  length (List.filter (fun x => Nat.eqb x t) (intersecting_targets entries)).
Proof.
  unfold entries_for, intersecting_targets.
  induction entries as [|en r IH]; [reflexivity|]. cbn [List.filter].
  destruct (isIntersecting en); cbn [andb List.map List.filter]; [|exact IH].
  destruct (Nat.eqb (target en) t); cbn [length]; rewrite IH; reflexivity.
Qed.

Lemma filter_absent (t : elem) (l : list elem) :
  existsb (Nat.eqb t) l = false -> List.filter (fun x => Nat.eqb x t) l = [].
Proof.
  induction l as [|x l IH]; [reflexivity|]. cbn [existsb List.filter].
  intros H. apply orb_false_iff in H as [Hx Hl].
  rewrite Nat.eqb_sym, Hx. apply IH, Hl.
Qed.

Lemma distinct_at_most_once (t : elem) (l : list elem) :
  distinct l = true -> length (List.filter (fun x => Nat.eqb x t) l) <= 1.
Proof.
  induction l as [|x l IH]; cbn [distinct List.filter length]; [lia|].
  intros H. apply andb_true_iff in H as [Hx Hl]. apply negb_true_iff in Hx.
  destruct (Nat.eqb_spec x t) as [->|_]; [|apply IH, Hl].
  rewrite filter_absent by exact Hx. cbn. lia.
Qed.

Lemma filter_present (t : elem) (l : list elem) :
  1 <= length (List.filter (fun x => Nat.eqb x t) l) -> In t l.
Proof.
  induction l as [|x l IH]; cbn [List.filter length]; [lia|].
  destruct (Nat.eqb_spec x t) as [->|_]; [left; reflexivity|].
  intros H. right. apply IH, H.
Qed.

Lemma filter_not_in (t : elem) (l : list elem) :
  ~ In t l -> length (List.filter (fun x => Nat.eqb x t) l) = 0.
Proof.
  intros H. destruct (length (List.filter (fun x => Nat.eqb x t) l)) eqn:E;
    [reflexivity|].
  exfalso. apply H, filter_present. lia.
Qed.

(** The callback takes the targets of its intersecting entries out of
    the watch set and puts nothing in. *)
Lemma entered_all_targets (O : LazyloadOptions)
    (entries : list IntersectionObserverEntry) (p : Page) (x : elem) :
  x ∈ observationTargets (entered_all O entries p) <->
  x ∈ observationTargets p /\ ~ In x (intersecting_targets entries).
Proof.
  revert p. induction entries as [|en r IH]; intros p.
  - cbn. tauto.
  - cbn [entered_all]. rewrite IH. unfold intersecting_targets.
    cbn [List.filter]. destruct (isIntersecting en); cbn [List.map In].
    + change (observationTargets (entered_page O (target en) p))
        with (observationTargets p ∖ {[target en]}).
      rewrite elem_of_difference, elem_of_singleton.
      fold (intersecting_targets r). intuition congruence.
    + fold (intersecting_targets r). tauto.
Qed.

Lemma well_delivered_watched (entries : list IntersectionObserverEntry) (p : Page) (t : elem) :
  well_delivered entries p = true ->
  In t (intersecting_targets entries) -> t ∈ observationTargets p.
Proof.
  unfold well_delivered. intros H Ht.
  apply andb_true_iff in H as [_ H].
  rewrite forallb_forall in H. specialize (H t Ht).
  apply bool_decide_eq_true in H. exact H.
Qed.

(** One batch: as many reveals and as many removals from the watch set
    as the batch has intersecting entries for the element, which is at
    most one; after the batch the element is not watched. *)
Lemma batch_reveals (O : LazyloadOptions)
    (b : list IntersectionObserverEntry) (q : Page) (t : elem) :
  valid_token (on O) = true -> valid_token (loading O) = true ->
  well_delivered b q = true ->
  let q' := snd (Index.deliver_entries O b q) in
  entries_for t b <= 1 /\
  count (unveil_call t) (log q') = count (unveil_call t) (log q) + entries_for t b /\
  count (unobserve_call t) (log q') = count (unobserve_call t) (log q) + entries_for t b /\
  (1 <= entries_for t b -> t ∈ observationTargets q /\ t ∉ observationTargets q') /\
  (t ∉ observationTargets q -> entries_for t b = 0 /\ t ∉ observationTargets q').
Proof.
  intros Hon Hloading Hb q'. unfold q'.
  rewrite deliver_entries_run by assumption. cbn [snd].
  split.
  { rewrite entries_for_targets. apply distinct_at_most_once.
    unfold well_delivered in Hb. apply andb_true_iff in Hb as [Hb _]. exact Hb. }
  split; [apply entered_all_count, count_unveil_entry_calls|].
  split; [apply entered_all_count, count_unobserve_entry_calls|].
  split.
  - intros Ht. rewrite entries_for_targets in Ht. apply filter_present in Ht.
    split; [eapply well_delivered_watched; eassumption|].
    rewrite entered_all_targets. tauto.
  - intros Ht. split.
    + rewrite entries_for_targets. apply filter_not_in. intros Hin.
      apply Ht. eapply well_delivered_watched; eassumption.
    + rewrite entered_all_targets. tauto.
Qed.

Lemma entries_for_app (t : elem) (b1 b2 : list IntersectionObserverEntry) :
  entries_for t (b1 ++ b2) = entries_for t b1 + entries_for t b2.
Proof. unfold entries_for. rewrite List.filter_app. apply length_app. Qed.

(** An element that is not watched stays unwatched and is not revealed. *)
Lemma unwatched_stays (O : LazyloadOptions)
    (batches : list (list IntersectionObserverEntry)) (p : Page) (t : elem) :
  valid_token (on O) = true -> valid_token (loading O) = true ->
  well_delivered_all O batches p = true ->
  t ∉ observationTargets p ->
  entries_for t (concat batches) = 0 /\ t ∉ observationTargets (deliver_all O batches p).
Proof.
  intros Hon Hloading. revert p.
  induction batches as [|b r IH]; intros p Hall Ht; [split; [reflexivity|exact Ht]|].
  cbn [well_delivered_all] in Hall. apply andb_true_iff in Hall as [Hb Hr].
  destruct (batch_reveals O b p t Hon Hloading Hb) as (_ & _ & _ & _ & Hun).
  destruct (Hun Ht) as [H0 Ht'].
  destruct (IH _ Hr Ht') as [Hr0 Hfinal].
  cbn [concat deliver_all]. rewrite entries_for_app, H0, Hr0. split; [reflexivity|exact Hfinal].
Qed.

Lemma sequence_reveals (O : LazyloadOptions)
    (batches : list (list IntersectionObserverEntry)) (p : Page) (t : elem) :
  valid_token (on O) = true -> valid_token (loading O) = true ->
  well_delivered_all O batches p = true ->
  let n := entries_for t (concat batches) in
  let p' := deliver_all O batches p in
  n <= 1 /\
  count (unveil_call t) (log p') = count (unveil_call t) (log p) + n /\
  count (unobserve_call t) (log p') = count (unobserve_call t) (log p) + n /\
  (n = 1 -> t ∉ observationTargets p').
Proof.
  intros Hon Hloading. revert p.
  induction batches as [|b r IH]; intros p Hall.
  - cbn. repeat split; lia.
  - cbn [well_delivered_all] in Hall. apply andb_true_iff in Hall as [Hb Hr].
    destruct (batch_reveals O b p t Hon Hloading Hb) as (Hle & Hu & Ho & Hin & _).
    destruct (IH _ Hr) as (IHle & IHu & IHo & IHn).
    cbn [concat deliver_all]. cbv zeta. rewrite entries_for_app.
    destruct (entries_for t b) as [|[|k]] eqn:Eb; [| |lia].
    + rewrite IHu, IHo, Hu, Ho. repeat split; try lia.
      intros Hn. apply IHn. lia.
    + destruct Hin as [_ Hout]; [lia|].
      destruct (unwatched_stays O r _ t Hon Hloading Hr Hout) as [Hr0 Hfinal].
      rewrite IHu, IHo, Hu, Ho, Hr0. repeat split; try lia. intros _. exact Hfinal.
Qed.

Lemma well_delivered_all_app (O : LazyloadOptions)
    (l1 l2 : list (list IntersectionObserverEntry)) (p : Page) :
  well_delivered_all O (l1 ++ l2) p =
  well_delivered_all O l1 p && well_delivered_all O l2 (deliver_all O l1 p).
Proof.
  revert p. induction l1 as [|b l1 IH]; intros p; [reflexivity|].
  cbn [app well_delivered_all deliver_all]. rewrite IH. apply andb_assoc.
Qed.

(** C1, for batches as the platform delivers them.  Let the class names
    [on] and [loading] be valid tokens, and let every batch hold at most
    one intersecting entry per element and intersecting entries only for
    elements that are watched when the batch is delivered.  Then over
    the whole sequence an element is revealed as often as it is taken
    out of the watch set, and that is at most once; when it has been
    revealed it is not watched at the end.  In each single invocation of
    the callback the element is revealed and unobserved equally often,
    once per intersecting entry for it, and when it has such an entry it
    was watched before the invocation and is not watched after it. *)
Theorem watched_element_revealed_once (O : LazyloadOptions)
    (batches : list (list IntersectionObserverEntry)) (p : Page) (t : elem) :
  valid_token (on O) = true ->
  valid_token (loading O) = true ->
  well_delivered_all O batches p = true ->
  let n := entries_for t (concat batches) in
  let p' := deliver_all O batches p in
  n <= 1 /\
  count (unveil_call t) (log p') = count (unveil_call t) (log p) + n /\
  count (unobserve_call t) (log p') = count (unobserve_call t) (log p) + n /\
  (n = 1 -> t ∉ observationTargets p') /\
  (forall (before : list (list IntersectionObserverEntry))
          (b : list IntersectionObserverEntry)
          (after : list (list IntersectionObserverEntry)),
     batches = before ++ b :: after ->
     let q := deliver_all O before p in
     let q' := snd (Index.deliver_entries O b q) in
     count (unveil_call t) (log q') = count (unveil_call t) (log q) + entries_for t b /\
     count (unobserve_call t) (log q') = count (unobserve_call t) (log q) + entries_for t b /\
     (1 <= entries_for t b -> t ∈ observationTargets q /\ t ∉ observationTargets q')).
Proof.
  intros Hon Hloading Hall n p'.
  destruct (sequence_reveals O batches p t Hon Hloading Hall) as (Hle & Hu & Ho & Hn).
  repeat split; try assumption.
  all: intros; subst batches;
    rewrite well_delivered_all_app in Hall;
    apply andb_true_iff in Hall as [_ Hall];
    cbn [well_delivered_all] in Hall;
    apply andb_true_iff in Hall as [Hb _];
    destruct (batch_reveals O b (deliver_all O before p) t Hon Hloading Hb)
      as (_ & Hu' & Ho' & Hin & _); try assumption; apply Hin; assumption.
Qed.

Lemma watched_element_revealed_once_witness :
  let n := entries_for 1 (concat [[mkEntry true 1]]) in
  let p' := deliver_all default_options [[mkEntry true 1]] watched_img_page in
  n <= 1 /\
  count (unveil_call 1) (log p') = count (unveil_call 1) (log watched_img_page) + n /\
  count (unobserve_call 1) (log p') = count (unobserve_call 1) (log watched_img_page) + n /\
  (n = 1 -> 1%nat ∉ observationTargets p') /\
  (forall (before : list (list IntersectionObserverEntry))
          (b : list IntersectionObserverEntry)
          (after : list (list IntersectionObserverEntry)),
     [[mkEntry true 1]] = before ++ b :: after ->
     let q := deliver_all default_options before watched_img_page in
     let q' := snd (Index.deliver_entries default_options b q) in
     count (unveil_call 1) (log q') = count (unveil_call 1) (log q) + entries_for 1 b /\
     count (unobserve_call 1) (log q') = count (unobserve_call 1) (log q) + entries_for 1 b /\
     (1 <= entries_for 1 b -> 1%nat ∈ observationTargets q /\ 1%nat ∉ observationTargets q')).
Proof.
  apply (watched_element_revealed_once default_options [[mkEntry true 1]]
           watched_img_page 1); reflexivity.
Defined.

(** A batch with two intersecting entries for one element, as the
    platform queues them when the element enters, leaves and enters the
    viewport again before the callback runs, contradicts C1 as it is
    worded: the watched image of [watched_img_page] is revealed twice and
    unobserved twice in one invocation, and the second reveal overwrites
    its [src]. *)
Lemma duplicate_entries_reveal_twice :
  let batch := [mkEntry true 1; mkEntry false 1; mkEntry true 1] in
  let p' := snd (Index.deliver_entries default_options batch watched_img_page) in
  bool_decide (1%nat ∈ observationTargets watched_img_page) = true /\
  count (unveil_call 1) (log p') = 2 /\
  count (unobserve_call 1) (log p') = 2 /\
  src (node p' 1) = Some "undefined".
Proof. vm_compute. repeat split; reflexivity. Qed.

(** ** The fallback *)

Lemma fallbackNode_run (O : LazyloadOptions) (e : elem) (p : Page) :
  valid_token (loaded O) = true ->
  Index.fallbackNode O e p =
  (Normal tt,
   with_log (log p ++ unveil_calls O e (node p e) ++ [classList_add_call e (loaded O)])
     (with_nodes (<[e := fallback_element O (node p e)]> (nodes p)) p)).
Proof.
  intros Hloaded. unfold Index.fallbackNode.
  erewrite bind_run by apply unveil_run.
  rewrite classList_add_run by exact Hloaded. run.
  rewrite lookup_total_insert_eq, insert_insert_eq, <- app_assoc.
  unfold fallback_element. rewrite classList_unveil_element. reflexivity.
Qed.

Lemma distinct_cons (x : elem) (l : list elem) :
  distinct (x :: l) = true <-> ~ In x l /\ distinct l = true.
Proof.
  cbn [distinct]. rewrite andb_true_iff, negb_true_iff.
  split; intros [Hx Hl]; (split; [|exact Hl]).
  - intros Hin. apply not_true_iff_false in Hx. apply Hx.
    apply existsb_exists. exists x. split; [exact Hin | apply Nat.eqb_refl].
  - apply not_true_iff_false. intros Hex.
    apply existsb_exists in Hex as (y & Hy & Hxy).
    apply Nat.eqb_eq in Hxy. subst y. exact (Hx Hy).
Qed.

Lemma distinct_filter (f : elem -> bool) (l : list elem) :
  distinct l = true -> distinct (List.filter f l) = true.
Proof.
  induction l as [|x l IH]; [reflexivity|].
  rewrite distinct_cons. intros [Hx Hl]. cbn [List.filter].
  destruct (f x); [|apply IH, Hl].
  apply distinct_cons. split; [|apply IH, Hl].
  intros Hin. apply filter_In in Hin as [Hin _]. exact (Hx Hin).
Qed.

(** The fallback loop over elements that are all different. *)
Lemma fallback_loop (O : LazyloadOptions) (l : list elem) (p : Page) :
  valid_token (loaded O) = true ->
  distinct l = true ->
  exists (p' : Page) (calls : list Call),
    forEach l (Index.fallbackNode O) p = (Normal tt, p') /\
    (forall e, In e l -> node p' e = fallback_element O (node p e)) /\
    (forall e, ~ In e l -> node p' e = node p e) /\
    log p' = log p ++ calls /\
    (forall e c, In (classList_add_call e c) calls -> c = loaded O) /\
    observationTargets p' = observationTargets p /\
    listeners p' = listeners p /\
    document p' = document p.
Proof.
  intros Hloaded. revert p. induction l as [|x l IH]; intros p Hl.
  - exists p, []. cbn. rewrite app_nil_r. repeat split; tauto.
  - apply distinct_cons in Hl as [Hx Hl].
    cbn [forEach]. erewrite bind_run by (apply fallbackNode_run, Hloaded).
    set (p1 := with_log _ _).
    destruct (IH p1 Hl) as (p' & calls & Hrun & Hin & Hout & Hlog & Hcalls & Ho & Hls & Hd).
    assert (Hp1 : forall e, node p1 e =
              if decide (x = e) then fallback_element O (node p x) else node p e).
    { intros e. unfold p1, node. cbn. apply lookup_total_insert. }
    exists p', (unveil_calls O x (node p x) ++ [classList_add_call x (loaded O)] ++ calls).
    split; [exact Hrun|].
    split.
    { intros e [->|He].
      - rewrite Hout by exact Hx. rewrite Hp1. rewrite decide_True by reflexivity.
        reflexivity.
      - rewrite Hin by exact He. rewrite Hp1.
        rewrite decide_False by (intros ->; exact (Hx He)). reflexivity. }
    split.
    { intros e He. rewrite Hout by (intros H; apply He; right; exact H).
      rewrite Hp1. rewrite decide_False by (intros ->; apply He; left; reflexivity).
      reflexivity. }
    split.
    { rewrite Hlog. unfold p1. cbn. rewrite <- !app_assoc. reflexivity. }
    split.
    { intros e c Hc. apply in_app_or in Hc as [Hc|Hc].
      - unfold unveil_calls in Hc. cbn in Hc.
        destruct (has_inline_background (node p x));
          repeat (destruct Hc as [Hc|Hc]; [discriminate Hc|]); destruct Hc.
      - destruct Hc as [Hc|Hc]; [congruence|]. eapply Hcalls, Hc. }
    split; [exact Ho|]. split; [exact Hls | exact Hd].
Qed.

(** C8: on a platform without the intersection observer or without the
    mutation observer, with a marker that makes a valid selector,
    [loaded] a valid class name and a document in which no node occurs
    twice, the entry point completes normally; every element that
    matched the marker selector has been through the reveal operation
    and then got the [loaded] class; no other node changed; the only
    class the entry point added is [loaded]; nothing is watched and no
    listener is registered. *)
Theorem fallback_reveals_all (O : LazyloadOptions) (p : Page) :
  has_IntersectionObserver (window p) && has_MutationObserver (window p) = false ->
  is_identifier (Index.marker O) = true ->
  valid_token (loaded O) = true ->
  distinct (forest_preorder (document p)) = true ->
  exists (p' : Page) (calls : list Call),
    Index.fastLazyLoad O p = (Normal tt, p') /\
    (forall e, In e (lazyElements O p) ->
       node p' e =
         with_classList (tokens_add (loaded O) (classList (node p e)))
           (unveil_element O (node p e)) /\
       hasAttribute (Index.marker O) (node p' e) = false /\
       contains (loaded O) (classList (node p' e)) = true) /\
    (forall e, ~ In e (lazyElements O p) -> node p' e = node p e) /\
    log p' = log p ++ calls /\
    (forall e c, In (classList_add_call e c) calls -> c = loaded O) /\
    observationTargets p' = observationTargets p /\
    listeners p' = listeners p.
Proof.
  intros Hcap Hmarker Hloaded Hdoc.
  destruct (fallback_loop O (lazyElements O p) p Hloaded)
    as (p' & calls & Hrun & Hin & Hout & Hlog & Hcalls & Ho & Hls & _).
  { apply distinct_filter, Hdoc. }
  exists p', calls.
  split.
  { unfold Index.fastLazyLoad.
    erewrite bind_run by (apply querySelectorAll_run, Hmarker).
    erewrite bind_run by reflexivity.
    rewrite Hcap. exact Hrun. }
  split.
  { intros e He. rewrite (Hin e He). split; [reflexivity|].
    split.
    - exact (unveil_element_unmarked O (node p e)).
    - apply contains_add. }
  repeat split; assumption.
Qed.

Lemma fallback_reveals_all_witness :
  exists (p' : Page) (calls : list Call),
    Index.fastLazyLoad default_options legacy_img_page = (Normal tt, p') /\
    (forall e, In e (lazyElements default_options legacy_img_page) ->
       node p' e =
         with_classList
           (tokens_add (loaded default_options) (classList (node legacy_img_page e)))
           (unveil_element default_options (node legacy_img_page e)) /\
       hasAttribute (Index.marker default_options) (node p' e) = false /\
       contains (loaded default_options) (classList (node p' e)) = true) /\
    (forall e, ~ In e (lazyElements default_options legacy_img_page) ->
       node p' e = node legacy_img_page e) /\
    log p' = log legacy_img_page ++ calls /\
    (forall e c, In (classList_add_call e c) calls -> c = loaded default_options) /\
    observationTargets p' = observationTargets legacy_img_page /\
    listeners p' = listeners legacy_img_page.
Proof.
  apply (fallback_reveals_all default_options legacy_img_page); reflexivity.
Defined.

(** With the [loaded] class name [lazy loaded], the entry point raises
    when it adds the class to the first image, and the second image is
    never revealed: it keeps its marker and gets no [src]. *)
Lemma invalid_loaded_leaves_second :
  let r := Index.fastLazyLoad spaced_loaded_options legacy_two_img_page in
  has_IntersectionObserver (window legacy_two_img_page) = false /\
  lazyElements spaced_loaded_options legacy_two_img_page = [1%nat; 2%nat] /\
  fst r = Throw InvalidCharacterError /\
  src (node (snd r) 1) = Some "a.png" /\
  classList (node (snd r) 1) = [] /\
  node (snd r) 2 = node legacy_two_img_page 2 /\
  hasAttribute "data-lazy" (node (snd r) 2) = true /\
  src (node (snd r) 2) = None.
Proof. vm_compute. repeat split; reflexivity. Qed.

(** ** Nodes added to the document *)

Lemma mutation_callback_nodes (O : LazyloadOptions) (records : list MutationRecord) (p : Page) :
  Index.mutation_callback O records p =
  forEach (added_nodes records) (Index.added_node O) p.
Proof.
  unfold Index.mutation_callback, added_nodes. revert p.
  induction records as [|m r IH]; intros p; [reflexivity|].
  cbn [forEach List.filter].
  destruct (String.eqb (type m) "childList"); cbn [List.map concat].
  - rewrite forEach_app. unfold mbind, M_bind.
    destruct (forEach (addedNodes m) (Index.added_node O) p) as [[[]|e] p1];
      [apply IH | reflexivity].
  - erewrite bind_run by reflexivity. apply IH.
Qed.

Lemma fetchpriority_after_unveil (O : LazyloadOptions) (el : Element) :
  hasAttribute "fetchpriority" (unveil_element O el) = hasAttribute "fetchpriority" el.
Proof.
  unfold hasAttribute.
  replace (String.eqb (ascii_lowercase "fetchpriority") "style") with false
    by reflexivity.
  unfold unveil_element.
  rewrite getAttribute_remove_ne by (rewrite marker_lowercase; discriminate).
  destruct (has_inline_background el).
  - unfold set_backgroundImage. destruct (css_url_argument _); reflexivity.
  - rewrite getAttribute_set_src by discriminate. reflexivity.
Qed.

Lemma nodeName_unveil_element (O : LazyloadOptions) (el : Element) :
  nodeName (unveil_element O el) = nodeName el.
Proof. unveil_branches. Qed.

(** C9: an added node that is an element, matches the marker selector
    (a valid selector, the marker being a CSS identifier) and is not a
    script is classified by the viewport predicate, which leaves the
    page as it is.  When the predicate holds, the node goes
    through the reveal operation, the watch set stays as it was, and the
    node gets [fetchpriority="high"] exactly when its tag is IMG or VIDEO
    and it had no [fetchpriority] attribute.  When the predicate fails,
    the node is added to the watch set and nothing else changes.  The
    callback of the mutation observer does this for the added nodes of
    the [childList] records of a batch, in order. *)
Theorem inserted_element_classified (O : LazyloadOptions) (p : Page) (n : elem) :
  nodeType (node p n) = 1%Z ->
  is_identifier (Index.marker O) = true ->
  hasAttribute (Index.marker O) (node p n) = true ->
  nodeName (node p n) <> "SCRIPT" ->
  exists (visible : bool) (p' : Page),
    Index.isElementInViewport n p = (Normal visible, p) /\
    Index.added_node O n p = (Normal tt, p') /\
    (if visible then
       observationTargets p' = observationTargets p /\
       node p' n =
         (if wants_priority (node p n)
          then setAttribute "fetchpriority" "high" (unveil_element O (node p n))
          else unveil_element O (node p n)) /\
       log p' =
         log p ++ unveil_calls O n (node p n)
         ++ (if wants_priority (node p n)
             then [setAttribute_call n "fetchpriority" "high"] else [])
     else
       observationTargets p' = {[n]} ∪ observationTargets p /\
       nodes p' = nodes p /\
       log p' = log p ++ [observe_call n]) /\
    (forall (records : list MutationRecord) (q : Page),
       Index.mutation_callback O records q =
       forEach (added_nodes records) (Index.added_node O) q).
Proof.
  intros Htype Hsel Hmarker Hname.
  pose proof (isElementInViewport_run p n) as Hvis.
  set (visible := (_ && _)%bool) in Hvis.
  exists visible.
  assert (Hscript : String.eqb (nodeName (node p n)) "SCRIPT" = false)
    by (apply String.eqb_neq, Hname).
  assert (Hstep : Index.added_node O n p =
            (if visible then
               Index.unveil O n;;
               if String.eqb (nodeName (node p n)) "IMG"
                  || String.eqb (nodeName (node p n)) "VIDEO" then
                 hinted ← el_hasAttribute n "fetchpriority";
                 if (hinted : bool) then mret tt
                 else el_setAttribute n "fetchpriority" "high"
               else mret tt
             else observe n) p).
  { unfold Index.added_node.
    erewrite bind_run by reflexivity. rewrite Htype. cbn [Z.eqb Pos.eqb].
    erewrite bind_run by (rewrite el_matches_run by exact Hsel; rewrite Hmarker; reflexivity).
    cbv beta iota.
    erewrite bind_run by reflexivity. rewrite Hscript.
    erewrite bind_run by exact Hvis. reflexivity. }
  rewrite Hstep. clear Hstep.
  destruct visible.
  - erewrite bind_run by apply unveil_run.
    set (p1 := with_log _ _).
    assert (Hp1 : node p1 n = unveil_element O (node p n)).
    { unfold p1, node. cbn. apply lookup_total_insert_eq. }
    unfold wants_priority.
    destruct (String.eqb (nodeName (node p n)) "IMG"
              || String.eqb (nodeName (node p n)) "VIDEO") eqn:Etag; cbn [andb].
    + erewrite bind_run
        by (unfold el_hasAttribute, read_node, gets;
            rewrite Hp1, fetchpriority_after_unveil; reflexivity).
      destruct (hasAttribute "fetchpriority" (node p n)) eqn:Ehint; cbn [negb].
      * eexists. split; [exact Hvis|]. split; [reflexivity|].
        split; [|apply mutation_callback_nodes].
        split; [reflexivity|]. split; [exact Hp1|].
        unfold p1. cbn. rewrite ?app_nil_r. reflexivity.
      * eexists. split; [exact Hvis|]. split; [reflexivity|].
        split; [|apply mutation_callback_nodes].
        split; [reflexivity|]. unfold el_setAttribute. run.
        rewrite !lookup_total_insert_eq.
        split; [reflexivity|]. rewrite <- app_assoc. reflexivity.
    + eexists. split; [exact Hvis|]. split; [reflexivity|].
      split; [|apply mutation_callback_nodes].
      split; [reflexivity|]. split; [exact Hp1|].
      unfold p1. cbn. rewrite ?app_nil_r. reflexivity.
  - eexists. split; [exact Hvis|]. split; [reflexivity|].
    split; [|apply mutation_callback_nodes].
    repeat split.
Qed.

Lemma inserted_element_classified_witness :
  exists (visible : bool) (p' : Page),
    Index.isElementInViewport 1 visible_img_page = (Normal visible, visible_img_page) /\
    Index.added_node default_options 1 visible_img_page = (Normal tt, p') /\
    (if visible then
       observationTargets p' = observationTargets visible_img_page /\
       node p' 1 =
         (if wants_priority (node visible_img_page 1)
          then setAttribute "fetchpriority" "high"
                 (unveil_element default_options (node visible_img_page 1))
          else unveil_element default_options (node visible_img_page 1)) /\
       log p' =
         log visible_img_page
         ++ unveil_calls default_options 1 (node visible_img_page 1)
         ++ (if wants_priority (node visible_img_page 1)
             then [setAttribute_call 1 "fetchpriority" "high"] else [])
     else
       observationTargets p' = {[1%nat]} ∪ observationTargets visible_img_page /\
       nodes p' = nodes visible_img_page /\
       log p' = log visible_img_page ++ [observe_call 1]) /\
    (forall (records : list MutationRecord) (q : Page),
       Index.mutation_callback default_options records q =
       forEach (added_nodes records) (Index.added_node default_options) q).
Proof.
  apply (inserted_element_classified default_options visible_img_page 1);
    [reflexivity | reflexivity | reflexivity | discriminate].
Defined.

(** ** The document tree *)

Lemma Tree_induction (P : Tree -> Prop) :
  (forall e kids, Forall P kids -> P (Node e kids)) -> forall t, P t.
Proof.
  intros H.
  refine (fix IH (t : Tree) : P t :=
            match t with
            | Node e kids =>
                H e kids
                  ((fix go (ks : list Tree) : Forall P ks :=
                      match ks with
                      | [] => @List.Forall_nil _ P
                      | k :: r => @List.Forall_cons _ P k r (IH k) (go r)
                      end) kids)
            end).
Qed.

Lemma preorder_Node (e : elem) (kids : list Tree) :
  preorder (Node e kids) = e :: forest_preorder kids.
Proof. reflexivity. Qed.

Lemma forest_preorder_cons (k : Tree) (r : list Tree) :
  forest_preorder (k :: r) = preorder k ++ forest_preorder r.
Proof. reflexivity. Qed.

Lemma root_in_preorder (t : Tree) : In (root t) (preorder t).
Proof. destruct t. left. reflexivity. Qed.

Lemma tree_remove_Node (n e : elem) (kids : list Tree) :
  tree_remove n (Node e kids) = Node e (forest_remove n kids).
Proof.
  cbn [tree_remove]. f_equal.
  induction kids as [|k r IH]; [reflexivity|].
  cbn [forest_remove]. rewrite IH. reflexivity.
Qed.

Lemma tree_replace_Node (old new e : elem) (kids : list Tree) :
  tree_replace old new (Node e kids) = Node e (forest_replace old new kids).
Proof. reflexivity. Qed.

Lemma root_insertBefore (p new ref : elem) (t : Tree) :
  root (tree_insertBefore p new ref t) = root t.
Proof. destruct t. reflexivity. Qed.

Lemma is_child_false (ref : elem) (f : list Tree) :
  ~ In ref (forest_preorder f) -> is_child ref f = false.
Proof.
  induction f as [|k r IH]; [reflexivity|].
  rewrite forest_preorder_cons. intros H. cbn [is_child existsb].
  rewrite (proj2 (Nat.eqb_neq (root k) ref)).
  - apply IH. intros Hr. apply H, in_or_app. right. exact Hr.
  - intros <-. apply H, in_or_app. left. apply root_in_preorder.
Qed.

Lemma insert_child_absent (new ref : elem) (f : list Tree) :
  is_child ref f = false -> insert_child new ref f = f.
Proof.
  induction f as [|k r IH]; [reflexivity|]. cbn [is_child existsb insert_child].
  intros H. apply orb_false_iff in H as [Hk Hr]. rewrite Hk. f_equal. apply IH, Hr.
Qed.

Lemma is_child_map_insertBefore (p new ref x : elem) (f : list Tree) :
  is_child x (List.map (tree_insertBefore p new ref) f) = is_child x f.
Proof.
  induction f as [|k r IH]; [reflexivity|]. cbn [List.map is_child existsb].
  rewrite root_insertBefore. f_equal. exact IH.
Qed.

(** A tree in which [ref] does not occur is left alone. *)
Lemma absent_unchanged (p new ref : elem) (t : Tree) :
  ~ In ref (preorder t) ->
  tree_insertBefore p new ref t = t /\ tree_remove ref t = t /\ tree_replace ref new t = t.
Proof.
  induction t as [e kids IH] using Tree_induction. rewrite preorder_Node.
  intros H.
  assert (Hkids : ~ In ref (forest_preorder kids)) by (intros Hin; apply H; right; exact Hin).
  assert (Hall : List.map (tree_insertBefore p new ref) kids = kids /\
                 forest_remove ref kids = kids /\
                 forest_replace ref new kids = kids).
  { clear H. induction kids as [|k r IHr]; [repeat split|].
    rewrite forest_preorder_cons in Hkids.
    apply List.Forall_cons_iff in IH as [Hk Hr].
    destruct Hk as (Hk1 & Hk2 & Hk3);
      [intros Hin; apply Hkids, in_or_app; left; exact Hin|].
    destruct (IHr Hr) as (Hr1 & Hr2 & Hr3);
      [intros Hin; apply Hkids, in_or_app; right; exact Hin|].
    assert (Hroot : Nat.eqb (root k) ref = false).
    { apply Nat.eqb_neq. intros <-. apply Hkids, in_or_app. left. apply root_in_preorder. }
    cbn [List.map forest_remove forest_replace].
    fold (forest_replace ref new r).
    rewrite Hroot, Hk1, Hk2, Hk3, Hr1, Hr2, Hr3. repeat split. }
  destruct Hall as (H1 & H2 & H3).
  rewrite tree_remove_Node, tree_replace_Node, H2, H3.
  cbn [tree_insertBefore]. rewrite H1.
  rewrite insert_child_absent by (apply is_child_false, Hkids).
  destruct (Nat.eqb e p); repeat split.
Qed.

Lemma distinct_app (l1 l2 : list elem) :
  distinct (l1 ++ l2) = true ->
  distinct l1 = true /\ distinct l2 = true /\ (forall x, In x l1 -> ~ In x l2).
Proof.
  induction l1 as [|a l1 IH]; cbn [app].
  - intros H. repeat split; [exact H | intros x []].
  - intros H. apply distinct_cons in H as [Ha H].
    destruct (IH H) as (H1 & H2 & H12).
    split; [apply distinct_cons; split; [|exact H1]|].
    + intros Hin. apply Ha, in_or_app. left. exact Hin.
    + split; [exact H2|]. intros x [<-|Hx] Hx2.
      * apply Ha, in_or_app. right. exact Hx2.
      * exact (H12 x Hx Hx2).
Qed.

Lemma parent_in_Node (n p : elem) (kids : list Tree) :
  parent_in n (Node p kids) = if is_child n kids then Some p else forest_parent n kids.
Proof.
  cbn [parent_in]. destruct (is_child n kids); [reflexivity|].
  induction kids as [|k r IH]; [reflexivity|].
  cbn [forest_parent]. rewrite IH. reflexivity.
Qed.

Lemma is_child_occurs (ref : elem) (f : list Tree) :
  is_child ref f = true -> In ref (forest_preorder f).
Proof.
  destruct (in_dec Nat.eq_dec ref (forest_preorder f)) as [H|H]; [auto|].
  rewrite is_child_false by exact H. discriminate.
Qed.

Lemma in_tl_in (x : elem) (l : list elem) : In x (tl l) -> In x l.
Proof. destruct l; [auto | intros H; right; exact H]. Qed.

(** The node whose parent is found occurs below the root. *)
Lemma parent_in_occurs (ref : elem) (t : Tree) (q : elem) :
  parent_in ref t = Some q -> In ref (tl (preorder t)).
Proof.
  revert q. induction t as [e kids IH] using Tree_induction. intros q.
  rewrite parent_in_Node, preorder_Node. cbn [tl].
  destruct (is_child ref kids) eqn:E; [intros _; apply is_child_occurs, E|].
  clear E. induction kids as [|k r IHr]; [discriminate|].
  apply List.Forall_cons_iff in IH as [Hk Hr].
  cbn [forest_parent]. rewrite forest_preorder_cons.
  destruct (parent_in ref k) as [q'|] eqn:Ek.
  - intros _. apply in_or_app. left. apply in_tl_in, (Hk q'). reflexivity.
  - intros H. apply in_or_app. right. apply IHr; assumption.
Qed.

Lemma forest_parent_occurs (ref : elem) (f : list Tree) (q : elem) :
  forest_parent ref f = Some q -> In ref (forest_preorder f).
Proof.
  induction f as [|k r IH]; [discriminate|].
  cbn [forest_parent]. rewrite forest_preorder_cons.
  destruct (parent_in ref k) as [q'|] eqn:Ek.
  - intros _. apply in_or_app. left. eapply in_tl_in, parent_in_occurs, Ek.
  - intros H. apply in_or_app. right. apply IH, H.
Qed.

Lemma absent_forest_unchanged (p new ref : elem) (f : list Tree) :
  ~ In ref (forest_preorder f) ->
  List.map (tree_insertBefore p new ref) f = f /\
  forest_remove ref f = f /\
  forest_replace ref new f = f.
Proof.
  induction f as [|k r IH]; [repeat split|].
  rewrite forest_preorder_cons. intros H.
  destruct (absent_unchanged p new ref k) as (Hk1 & Hk2 & Hk3);
    [intros Hin; apply H, in_or_app; left; exact Hin|].
  destruct IH as (Hr1 & Hr2 & Hr3);
    [intros Hin; apply H, in_or_app; right; exact Hin|].
  assert (Hroot : Nat.eqb (root k) ref = false).
  { apply Nat.eqb_neq. intros <-. apply H, in_or_app. left. apply root_in_preorder. }
  cbn [List.map forest_remove forest_replace].
  fold (forest_replace ref new r).
  rewrite Hroot, Hk1, Hk2, Hk3, Hr1, Hr2, Hr3. repeat split.
Qed.

(** Among children that are all different, the one rooted at [ref] gives
    way to the new leaf put in front of it. *)
Lemma replace_child (p new ref : elem) (f : list Tree) :
  new <> ref ->
  distinct (forest_preorder f) = true ->
  is_child ref f = true ->
  forest_remove ref (insert_child new ref (List.map (tree_insertBefore p new ref) f)) =
  forest_replace ref new f.
Proof.
  intros Hnew. induction f as [|k r IH]; [discriminate|].
  rewrite forest_preorder_cons. intros Hd Hc.
  apply distinct_app in Hd as (Hdk & Hdr & Hkr).
  cbn [List.map insert_child forest_replace]. fold (forest_replace ref new r).
  rewrite root_insertBefore.
  destruct (Nat.eqb_spec (root k) ref) as [Hroot|Hroot].
  - assert (Hr : ~ In ref (forest_preorder r)).
    { apply Hkr. rewrite <- Hroot. apply root_in_preorder. }
    destruct (absent_forest_unchanged p new ref r Hr) as (Hr1 & Hr2 & Hr3).
    cbn [forest_remove root]. rewrite root_insertBefore.
    rewrite (proj2 (Nat.eqb_neq new ref) Hnew), (proj2 (Nat.eqb_eq (root k) ref) Hroot).
    rewrite Hr1, Hr2, Hr3. reflexivity.
  - cbn [is_child existsb] in Hc. rewrite (proj2 (Nat.eqb_neq _ _) Hroot) in Hc.
    cbn [orb] in Hc. fold (is_child ref r) in Hc.
    assert (Hk : ~ In ref (preorder k)).
    { intros Hin. exact (Hkr ref Hin (is_child_occurs ref r Hc)). }
    destruct (absent_unchanged p new ref k Hk) as (Hk1 & Hk2 & Hk3).
    cbn [forest_remove]. rewrite root_insertBefore.
    rewrite (proj2 (Nat.eqb_neq _ _) Hroot), Hk1, Hk2, Hk3.
    f_equal. apply IH; assumption.
Qed.

(** Among sibling trees for which the statement below holds. *)
Lemma replace_in_siblings (p new ref : elem) (f : list Tree) :
  new <> ref ->
  Forall (fun t =>
            distinct (preorder t) = true ->
            parent_in ref t = Some p ->
            tree_remove ref (tree_insertBefore p new ref t) = tree_replace ref new t) f ->
  distinct (forest_preorder f) = true ->
  forest_parent ref f = Some p ->
  forest_remove ref (List.map (tree_insertBefore p new ref) f) = forest_replace ref new f.
Proof.
  intros Hnew. induction f as [|k r IH]; [discriminate|].
  rewrite forest_preorder_cons. intros Hall Hd Hp.
  apply List.Forall_cons_iff in Hall as [Hk Hr].
  apply distinct_app in Hd as (Hdk & Hdr & Hkr).
  cbn [forest_parent] in Hp.
  cbn [List.map forest_remove forest_replace]. fold (forest_replace ref new r).
  rewrite root_insertBefore.
  destruct (parent_in ref k) as [q|] eqn:Ek.
  - injection Hp as ->.
    assert (Hin : In ref (tl (preorder k))) by (eapply parent_in_occurs, Ek).
    assert (Hroot : root k <> ref).
    { destruct k as [e' kids']. cbn [root]. intros ->.
      rewrite preorder_Node in Hdk, Hin. cbn [tl] in Hin.
      apply distinct_cons in Hdk as [Habs _]. exact (Habs Hin). }
    assert (Hr0 : ~ In ref (forest_preorder r)) by (apply Hkr, in_tl_in, Hin).
    destruct (absent_forest_unchanged p new ref r Hr0) as (Hr1 & Hr2 & Hr3).
    rewrite (proj2 (Nat.eqb_neq _ _) Hroot), Hr1, Hr2, Hr3.
    f_equal. apply Hk; [exact Hdk | reflexivity].
  - assert (Hin : In ref (forest_preorder r)) by (eapply forest_parent_occurs, Hp).
    assert (Hk0 : ~ In ref (preorder k)) by (intros H; exact (Hkr ref H Hin)).
    destruct (absent_unchanged p new ref k Hk0) as (Hk1 & Hk2 & Hk3).
    assert (Hroot : root k <> ref).
    { intros <-. apply Hk0, root_in_preorder. }
    rewrite (proj2 (Nat.eqb_neq _ _) Hroot), Hk1, Hk2, Hk3.
    f_equal. apply IH; assumption.
Qed.

(** In a tree without repeated nodes in which the parent of [ref] is
    found to be [p], inserting [new] before [ref] under [p] and then
    removing [ref] puts [new] where [ref] was. *)
Lemma replace_in_tree (p new ref : elem) (t : Tree) :
  new <> ref ->
  distinct (preorder t) = true ->
  parent_in ref t = Some p ->
  tree_remove ref (tree_insertBefore p new ref t) = tree_replace ref new t.
Proof.
  intros Hnew. induction t as [e kids IH] using Tree_induction.
  rewrite preorder_Node, parent_in_Node. intros Hd Hp.
  apply distinct_cons in Hd as [He Hd].
  cbn [tree_insertBefore]. rewrite tree_remove_Node, tree_replace_Node. f_equal.
  destruct (is_child ref kids) eqn:Ec.
  - injection Hp as ->. rewrite Nat.eqb_refl. apply replace_child; assumption.
  - rewrite <- (is_child_map_insertBefore p new ref) in Ec.
    rewrite (insert_child_absent new ref _ Ec).
    replace (if Nat.eqb e p then List.map (tree_insertBefore p new ref) kids
             else List.map (tree_insertBefore p new ref) kids)
      with (List.map (tree_insertBefore p new ref) kids)
      by (destruct (Nat.eqb e p); reflexivity).
    apply replace_in_siblings; assumption.
Qed.

(** The same for the document. *)
Lemma replace_in_forest (p new ref : elem) (f : list Tree) :
  new <> ref ->
  distinct (forest_preorder f) = true ->
  forest_parent ref f = Some p ->
  forest_remove ref (List.map (tree_insertBefore p new ref) f) = forest_replace ref new f.
Proof.
  intros Hnew. apply replace_in_siblings; [exact Hnew|].
  apply List.Forall_forall. intros t _. apply replace_in_tree, Hnew.
Qed.

(** After the replacement [ref] is gone... *)
Lemma forest_replace_removes (ref new : elem) (f : list Tree) :
  new <> ref -> ~ In ref (forest_preorder (forest_replace ref new f)).
Proof.
  intros Hnew.
  assert (Htree : forall t, root t <> ref -> ~ In ref (preorder (tree_replace ref new t))).
  { induction t as [e kids IH] using Tree_induction. cbn [root]. intros He.
    rewrite tree_replace_Node, preorder_Node. intros [Hin|Hin]; [exact (He Hin)|].
    induction kids as [|k r IHr]; [exact Hin|].
    apply List.Forall_cons_iff in IH as [Hk Hr].
    cbn [forest_replace List.map] in Hin. fold (forest_replace ref new r) in Hin.
    rewrite forest_preorder_cons in Hin. apply in_app_or in Hin as [Hin|Hin].
    - destruct (Nat.eqb_spec (root k) ref) as [_|Hroot].
      + destruct Hin as [Hin|[]]. exact (Hnew Hin).
      + exact (Hk Hroot Hin).
    - exact (IHr Hr Hin). }
  induction f as [|k r IH]; [intros []|].
  cbn [forest_replace List.map]. fold (forest_replace ref new r).
  rewrite forest_preorder_cons. intros Hin. apply in_app_or in Hin as [Hin|Hin].
  - destruct (Nat.eqb_spec (root k) ref) as [_|Hroot].
    + destruct Hin as [Hin|[]]. exact (Hnew Hin).
    + exact (Htree k Hroot Hin).
  - exact (IH Hin).
Qed.

Lemma replace_child_places (ref new : elem) (f : list Tree) :
  is_child ref f = true -> In new (forest_preorder (forest_replace ref new f)).
Proof.
  induction f as [|k r IH]; [discriminate|].
  cbn [is_child existsb forest_replace List.map]. fold (forest_replace ref new r).
  fold (is_child ref r). rewrite forest_preorder_cons. intros H.
  apply in_or_app. destruct (Nat.eqb (root k) ref); [left; left; reflexivity|].
  right. apply IH, H.
Qed.

(** ...and [new] is there. *)
Lemma forest_replace_places (ref new p : elem) (f : list Tree) :
  forest_parent ref f = Some p -> In new (forest_preorder (forest_replace ref new f)).
Proof.
  assert (Hsiblings : forall l,
            Forall (fun t => parent_in ref t = Some p ->
                             In new (preorder (tree_replace ref new t))) l ->
            forest_parent ref l = Some p ->
            In new (forest_preorder (forest_replace ref new l))).
  { induction l as [|k r IH]; [discriminate|]. intros Hall Hp.
    apply List.Forall_cons_iff in Hall as [Hk Hr].
    cbn [forest_parent] in Hp.
    cbn [forest_replace List.map]. fold (forest_replace ref new r).
    rewrite forest_preorder_cons. apply in_or_app.
    destruct (Nat.eqb (root k) ref); [left; left; reflexivity|].
    destruct (parent_in ref k) as [q|]; [left; apply Hk, Hp | right; apply IH; assumption]. }
  assert (Htree : forall t, parent_in ref t = Some p ->
                            In new (preorder (tree_replace ref new t))).
  { induction t as [e kids IH] using Tree_induction.
    rewrite parent_in_Node, tree_replace_Node, preorder_Node. intros Hp. right.
    destruct (is_child ref kids) eqn:Ec; [apply replace_child_places, Ec|].
    apply Hsiblings; assumption. }
  intros Hp. apply Hsiblings; [|exact Hp].
  apply List.Forall_forall. intros t _. apply Htree.
Qed.

(** ** Deferred scripts *)

Lemma unique_names_absent (k : string) (v : string) (l : list (string * string)) :
  unique_names ((k, v) :: l) = true -> assoc_get k l = None.
Proof.
  cbn [unique_names fst]. intros H. apply andb_true_iff in H as [H _].
  apply negb_true_iff in H.
  induction l as [|[k' v'] l IH]; [reflexivity|].
  cbn [existsb fst] in H. apply orb_false_iff in H as [Hk Hl].
  cbn [assoc_get]. rewrite Hk. apply IH, Hl.
Qed.

(** The loop of lines 90-92 copies the one attribute with the marker
    name, if there is one. *)
Lemma copy_marker_loop (name : string) (s : elem) (attrs : list (string * string)) (q : Page) :
  ascii_lowercase name = name ->
  unique_names attrs = true ->
  forEach attrs (fun a =>
    if String.eqb (fst a) name then el_setAttribute s (fst a) (snd a) else mret tt) q =
  (Normal tt,
   match assoc_get name attrs with
   | Some v =>
       with_log (log q ++ [setAttribute_call s name v])
         (with_nodes (<[s := setAttribute name v (node q s)]> (nodes q)) q)
   | None => q
   end).
Proof.
  intros Hname. revert q. induction attrs as [|[k v] attrs IH]; intros q Hu; [reflexivity|].
  cbn [forEach fst snd assoc_get].
  destruct (String.eqb_spec k name) as [->|Hk].
  - rewrite (unique_names_absent name v attrs Hu) in IH.
    cbn [unique_names] in Hu. apply andb_true_iff in Hu as [_ Hu].
    erewrite bind_run by reflexivity. rewrite IH by exact Hu. reflexivity.
  - cbn [unique_names] in Hu. apply andb_true_iff in Hu as [_ Hu].
    erewrite bind_run by reflexivity. apply IH, Hu.
Qed.

Lemma window_load_run (O : LazyloadOptions) (q : Page) (n par : elem) (X : string) :
  attribute O = "lazy" ->
  getAttribute "data-lazy" (node q n) = Some X ->
  unique_names (attributes (node q n)) = true ->
  distinct (forest_preorder (document q)) = true ->
  forest_parent n (document q) = Some par ->
  allocated q = true ->
  Index.run_callback O (on_window_load n) q =
  (Normal tt,
   with_document (forest_replace n (next_node q) (document q))
     (with_next_node (S (next_node q))
        (with_log (log q ++ [ createElement_call "script" (next_node q);
                              setAttribute_call (next_node q) "data-lazy" X;
                              set_src_call (next_node q) (str X);
                              insertBefore_call par (next_node q) n;
                              remove_call n ])
           (with_nodes
              (<[next_node q := mkElement 1 "SCRIPT" [("data-lazy", X); ("src", X)]
                                  None [] (mkDOMRect 0 0 0 0) []]> (nodes q)) q)))).
Proof.
  intros Hattr HX Hu Hd Hp Halloc.
  assert (Hfresh : next_node q <> n).
  { intros Heq. unfold allocated in Halloc. rewrite forallb_forall in Halloc.
    specialize (Halloc n (forest_parent_occurs n _ par Hp)).
    apply Nat.ltb_lt in Halloc. lia. }
  cbn [Index.run_callback]. rewrite Hattr.
  change ("data-" +:+ "lazy") with "data-lazy".
  set (new := next_node q) in *.
  set (q1 := with_next_node (S new)
               (with_nodes (<[new := new_script]> (nodes q))
                  (with_log (log q ++ [createElement_call "script" new]) q))).
  assert (Hcreate : createElement_script q = (Normal new, q1)) by reflexivity.
  erewrite bind_run by exact Hcreate. cbv beta.
  assert (Hn1 : node q1 n = node q n).
  { unfold q1, node. cbn. apply lookup_total_insert_ne, Hfresh. }
  erewrite bind_run by (unfold read_node, gets; rewrite Hn1; reflexivity). cbv beta.
  erewrite bind_run by (apply copy_marker_loop; [reflexivity | exact Hu]). cbv beta.
  pose proof (dataset_lazy_value _ X HX) as Hlazy.
  change (assoc_get "data-lazy" (attributes (node q n)) = Some X) in HX.
  rewrite HX.
  set (q2 := with_log _ _).
  assert (Hn2 : node q2 n = node q n).
  { unfold q2, node. cbn. rewrite lookup_total_insert_ne by exact Hfresh.
    apply lookup_total_insert_ne, Hfresh. }
  erewrite bind_run
    by (unfold el_dataset, read_node, gets; rewrite Hn2, Hlazy; reflexivity).
  cbv beta.
  erewrite bind_run by reflexivity. cbv beta.
  erewrite bind_run by (unfold parentElement, gets; cbn [document]; reflexivity).
  cbv beta.
  change (document (with_nodes _ (with_log _ q2))) with (document q).
  rewrite Hp. unfold insertBefore, remove. run.
  rewrite (replace_in_forest par new n (document q) Hfresh Hd Hp).
  rewrite !lookup_total_insert_eq, !insert_insert_eq.
  f_equal. f_equal; try reflexivity; rewrite <- ?app_assoc; reflexivity.
Qed.

Lemma lazyscript_node_run (O : LazyloadOptions) (p : Page) (n : elem) :
  nodeType (node p n) = 1%Z ->
  is_identifier (Index.marker O) = true ->
  hasAttribute (Index.marker O) (node p n) = true ->
  nodeName (node p n) = "SCRIPT" ->
  Index.added_node O n p =
  (Normal tt,
   with_listeners (listeners p ++ [mkListener the_window "load" (on_window_load n)])
     (with_log (log p ++ [ lazyscript_call n;
                           addEventListener_call the_window "load" (on_window_load n) ])
        p)).
Proof.
  intros Htype Hsel Hmarker Hname. unfold Index.added_node.
  erewrite bind_run by reflexivity. rewrite Htype. cbn [Z.eqb Pos.eqb].
  erewrite bind_run
    by (rewrite el_matches_run by exact Hsel; rewrite Hmarker; reflexivity).
  cbv beta iota.
  erewrite bind_run by reflexivity. rewrite Hname. cbn [String.eqb].
  replace ("SCRIPT" =? "SCRIPT")%string with true by reflexivity.
  unfold Index.lazyscript, addEventListener. run.
  rewrite <- app_assoc. reflexivity.
Qed.

(** X20: the script deferral, for a script the mutation observer reports.
    Let the marker attribute be [data-lazy].  When an added node [n] is a script
    element carrying the marker, the callback of the mutation observer
    only registers a load listener on the window: nodes, document and
    watch set stay as they are.  When the load event fires on a page
    where [n] still has its marker with value [X], sits under a parent
    element in a document without repeated nodes, all created before the
    next node, the listener completes normally; the document is the one
    before with a new node where [n] was, [n] is no longer in it, and the
    new node is a script element with exactly the attributes
    [data-lazy = X] and [src = X]; no other node changes.  A load event
    on a page whose only listener is this one runs it. *)
Lemma inserted_script_deferred (O : LazyloadOptions) (p q : Page)
    (n par : elem) (X : string) :
  attribute O = "lazy" ->
  nodeType (node p n) = 1%Z ->
  nodeName (node p n) = "SCRIPT" ->
  hasAttribute (Index.marker O) (node p n) = true ->
  getAttribute "data-lazy" (node q n) = Some X ->
  unique_names (attributes (node q n)) = true ->
  distinct (forest_preorder (document q)) = true ->
  forest_parent n (document q) = Some par ->
  allocated q = true ->
  (exists p' : Page,
     Index.added_node O n p = (Normal tt, p') /\
     nodes p' = nodes p /\
     document p' = document p /\
     observationTargets p' = observationTargets p /\
     listeners p' = listeners p ++ [mkListener the_window "load" (on_window_load n)]) /\
  (exists q' : Page,
     Index.run_callback O (on_window_load n) q = (Normal tt, q') /\
     document q' = forest_replace n (next_node q) (document q) /\
     ~ In n (forest_preorder (document q')) /\
     In (next_node q) (forest_preorder (document q')) /\
     node q' (next_node q) =
       mkElement 1 "SCRIPT" [("data-lazy", X); ("src", X)] None [] (mkDOMRect 0 0 0 0) [] /\
     (forall e : elem, e <> next_node q -> node q' e = node q e)) /\
  (listeners q = [mkListener the_window "load" (on_window_load n)] ->
   Index.dispatchEvent O the_window "load" q =
   (Normal tt, snd (Index.run_callback O (on_window_load n) q))).
Proof.
  intros Hattr Htype Hname Hmarker HX Hu Hd Hp Halloc.
  assert (Hfresh : next_node q <> n).
  { intros Heq. unfold allocated in Halloc. rewrite forallb_forall in Halloc.
    specialize (Halloc n (forest_parent_occurs n _ par Hp)).
    apply Nat.ltb_lt in Halloc. lia. }
  split.
  { eexists. split; [apply lazyscript_node_run; try assumption|]; [|repeat split].
    unfold Index.marker. rewrite Hattr. reflexivity. }
  split.
  { eexists. split; [eapply window_load_run; eassumption|].
    split; [reflexivity|].
    split; [apply forest_replace_removes, Hfresh|].
    split; [eapply forest_replace_places, Hp|].
    split.
    - unfold node. cbn. apply lookup_total_insert_eq.
    - intros e He. unfold node. cbn. apply lookup_total_insert_ne. congruence. }
  intros Hls. unfold Index.dispatchEvent.
  erewrite bind_run by reflexivity. rewrite Hls. cbn [forEach].
  cbn [listener_target listener_type listener_callback].
  rewrite bool_decide_eq_true_2 by reflexivity.
  replace ("load" =? "load")%string with true by reflexivity. cbn [andb].
  unfold report, mbind, M_bind, mret, M_ret. reflexivity.
Qed.

Lemma inserted_script_deferred_witness :
  (exists p' : Page,
     Index.added_node default_options 1 script_page = (Normal tt, p') /\
     nodes p' = nodes script_page /\
     document p' = document script_page /\
     observationTargets p' = observationTargets script_page /\
     listeners p' =
       listeners script_page ++ [mkListener the_window "load" (on_window_load 1)]) /\
  (exists q' : Page,
     Index.run_callback default_options (on_window_load 1) script_page = (Normal tt, q') /\
     document q' = forest_replace 1 (next_node script_page) (document script_page) /\
     ~ In 1%nat (forest_preorder (document q')) /\
     In (next_node script_page) (forest_preorder (document q')) /\
     node q' (next_node script_page) =
       mkElement 1 "SCRIPT" [("data-lazy", "c.js"); ("src", "c.js")] None []
                 (mkDOMRect 0 0 0 0) [] /\
     (forall e : elem, e <> next_node script_page -> node q' e = node script_page e)) /\
  (listeners script_page = [mkListener the_window "load" (on_window_load 1)] ->
   Index.dispatchEvent default_options the_window "load" script_page =
   (Normal tt, snd (Index.run_callback default_options (on_window_load 1) script_page))).
Proof.
  apply (inserted_script_deferred default_options script_page script_page 1 0 "c.js");
    reflexivity.
Defined.

(** C7: a script that is in the document when the entry point runs is
    not deferred.  For [<script data-lazy="c.js">] under the default
    options, [fastLazyLoad] finds the script, hands it to the
    intersection observer like any other element and registers no
    listener, so that the load event of the window leaves the document
    and the script as they were and creates no node. *)
Lemma startup_script_not_deferred :
  let p1 := snd (Index.fastLazyLoad default_options script_page) in
  let p2 := snd (Index.dispatchEvent default_options the_window "load" p1) in
  lazyElements default_options script_page = [1%nat] /\
  listeners p1 = [] /\
  bool_decide (1%nat ∈ observationTargets p1) = true /\
  document p2 = document script_page /\
  node p2 1 = lazy_script /\
  next_node p2 = next_node script_page.
Proof. vm_compute. repeat split; reflexivity. Qed.

(** * Further properties of the script *)

(** ** The reveal operation, once more *)

Lemma node_after_update (p : Page) (e : elem) (el : Element) (l : list Call) :
  node (with_log l (with_nodes (<[e := el]> (nodes p)) p)) e = el.
Proof. unfold node. cbn. apply lookup_total_insert_eq. Qed.

Lemma node_after_update_ne (p : Page) (e e' : elem) (el : Element) (l : list Call) :
  e <> e' -> node (with_log l (with_nodes (<[e := el]> (nodes p)) p)) e' = node p e'.
Proof. intros H. unfold node. cbn. apply lookup_total_insert_ne, H. Qed.

Lemma node_after_unveil (O : LazyloadOptions) (p : Page) (e : elem) :
  node (snd (Index.unveil O e p)) e = unveil_element O (node p e).
Proof. rewrite unveil_run. apply node_after_update. Qed.

Lemma dataset_lazy_after_unveil (O : LazyloadOptions) (el : Element) :
  attribute O = "lazy" -> dataset_get "lazy" (unveil_element O el) = undefined.
Proof.
  intros HO. rewrite dataset_lazy. unfold unveil_element, Index.marker.
  rewrite HO. change ("data-" +:+ "lazy") with "data-lazy".
  rewrite getAttribute_remove_eq by discriminate. reflexivity.
Qed.

(** X1: the reveal operation is not idempotent.  With the marker named
    [lazy], a second call on the same element finds no [data-lazy] any
    more and writes what [undefined] turns into: the background image
    [url(undefined)] on an element with an inline background image, the
    [src] attribute "undefined" on an element that reflects [src], and
    the property [src] with the value [undefined] on any other
    element. *)
Theorem unveil_twice_overwrites (O : LazyloadOptions) (p : Page) (e : elem) :
  attribute O = "lazy" ->
  let p2 := snd (Index.unveil O e (snd (Index.unveil O e p))) in
  if has_inline_background (node p e)
  then backgroundImage (node p2 e) = css_url "undefined"
  else if reflects_src (nodeName (node p e))
       then src (node p2 e) = Some "undefined"
       else property "src" (node p2 e) = Some undefined.
Proof.
  intros HO p2. unfold p2. rewrite !node_after_unveil.
  pose proof (has_inline_background_unveil O (node p e)) as Hbg.
  pose proof (nodeName_unveil_element O (node p e)) as Hname.
  pose proof (dataset_lazy_after_unveil O (node p e) HO) as Hlazy.
  destruct (has_inline_background (node p e)) eqn:E.
  - rewrite backgroundImage_unveil_element; rewrite ?Hlazy; auto.
  - destruct (reflects_src (nodeName (node p e))) eqn:Er.
    + rewrite src_unveil_element, Hlazy; rewrite ?Hname; auto.
    + destruct (property_unveil_element O (unveil_element O (node p e))) as [Hp _];
        rewrite ?Hname; auto.
      rewrite Hp, Hlazy. reflexivity.
Qed.

Lemma unveil_twice_overwrites_witness :
  let p2 := snd (Index.unveil default_options 1
                   (snd (Index.unveil default_options 1 plain_div_page))) in
  if has_inline_background (node plain_div_page 1)
  then backgroundImage (node p2 1) = css_url "undefined"
  else if reflects_src (nodeName (node plain_div_page 1))
       then src (node p2 1) = Some "undefined"
       else property "src" (node p2 1) = Some undefined.
Proof. apply (unveil_twice_overwrites default_options plain_div_page 1). reflexivity. Defined.

Lemma style_property_set_ne (prop v : string) (el : Element) :
  prop <> "background-image" ->
  style el <> None ->
  style_property prop (set_backgroundImage v el) = style_property prop el.
Proof.
  intros H Hs. unfold set_backgroundImage.
  destruct (css_url_argument v) as [X|]; [|reflexivity].
  unfold style_property, with_style. cbn [style].
  rewrite assoc_get_set_ne by congruence.
  destruct (style el); [reflexivity | contradiction].
Qed.

Lemma getAttribute_set_backgroundImage (name v : string) (el : Element) :
  ascii_lowercase name <> "style" ->
  getAttribute name (set_backgroundImage v el) = getAttribute name el.
Proof.
  intros H. unfold set_backgroundImage.
  destruct (css_url_argument v) as [X|]; [|reflexivity].
  unfold getAttribute, with_style. cbn [style classList attributes].
  apply String.eqb_neq in H. rewrite H. reflexivity.
Qed.

(** X2: what the reveal operation leaves alone.  Whatever the options,
    the call completes normally and keeps the type, the tag, the class
    list and the rectangle of the element, every attribute other than
    [src], [style] and the marker, and every declaration of the inline
    style other than the background image; no other node, and nothing
    of the document, the watch set, the listeners or the node counter
    changes. *)
Theorem unveil_keeps_the_rest (O : LazyloadOptions) (p : Page) (e : elem)
    (name prop : string) :
  ascii_lowercase name <> "src" ->
  ascii_lowercase name <> "style" ->
  ascii_lowercase name <> ascii_lowercase (Index.marker O) ->
  prop <> "background-image" ->
  exists p' : Page,
    Index.unveil O e p = (Normal tt, p') /\
    nodeType (node p' e) = nodeType (node p e) /\
    nodeName (node p' e) = nodeName (node p e) /\
    classList (node p' e) = classList (node p e) /\
    boundingClientRect (node p' e) = boundingClientRect (node p e) /\
    getAttribute name (node p' e) = getAttribute name (node p e) /\
    style_property prop (node p' e) = style_property prop (node p e) /\
    (forall e' : elem, e' <> e -> node p' e' = node p e') /\
    document p' = document p /\
    observationTargets p' = observationTargets p /\
    listeners p' = listeners p /\
    next_node p' = next_node p.
Proof.
  intros Hsrc Hstyle0 Hmarker Hprop. eexists. split; [apply unveil_run|].
  rewrite node_after_update.
  assert (Hattr : getAttribute name (unveil_element O (node p e)) =
                  getAttribute name (node p e)).
  { unfold unveil_element. rewrite getAttribute_remove_ne by congruence.
    destruct (has_inline_background (node p e)).
    - apply getAttribute_set_backgroundImage, Hstyle0.
    - apply getAttribute_set_src, Hsrc. }
  assert (Hstyle : style_property prop (unveil_element O (node p e)) =
                   style_property prop (node p e)).
  { unfold unveil_element.
    change (style_property prop (removeAttribute ?n ?x)) with (style_property prop x).
    destruct (has_inline_background (node p e)) eqn:E.
    - apply style_property_set_ne; [exact Hprop|].
      unfold has_inline_background, hasAttribute in E. cbn in E.
      destruct (style (node p e)); [discriminate | discriminate E].
    - unfold set_src. destruct (reflects_src _); reflexivity. }
  assert (Hshape : forall el,
            nodeType (unveil_element O el) = nodeType el /\
            boundingClientRect (unveil_element O el) = boundingClientRect el).
  { intros el. split; unveil_branches. }
  destruct (Hshape (node p e)) as [Hty Hrect].
  repeat split; try assumption.
  - apply nodeName_unveil_element.
  - apply classList_unveil_element.
  - intros e' He'. apply node_after_update_ne. congruence.
Qed.

Lemma unveil_keeps_the_rest_witness :
  exists p' : Page,
    Index.unveil default_options 1 background_page = (Normal tt, p') /\
    nodeType (node p' 1) = nodeType (node background_page 1) /\
    nodeName (node p' 1) = nodeName (node background_page 1) /\
    classList (node p' 1) = classList (node background_page 1) /\
    boundingClientRect (node p' 1) = boundingClientRect (node background_page 1) /\
    getAttribute "title" (node p' 1) = getAttribute "title" (node background_page 1) /\
    style_property "width" (node p' 1) = style_property "width" (node background_page 1) /\
    (forall e' : elem, e' <> 1%nat -> node p' e' = node background_page e') /\
    document p' = document background_page /\
    observationTargets p' = observationTargets background_page /\
    listeners p' = listeners background_page /\
    next_node p' = next_node background_page.
Proof.
  apply (unveil_keeps_the_rest default_options background_page 1 "title" "width");
    discriminate.
Defined.

Lemma added_node_unselected (O : LazyloadOptions) (p : Page) (n : elem) :
  is_identifier (Index.marker O) = true ->
  selected O p n = false -> Index.added_node O n p = (Normal tt, p).
Proof.
  unfold selected. intros Hsel H. unfold Index.added_node.
  erewrite bind_run by reflexivity. cbv beta iota.
  destruct (nodeType (node p n) =? 1)%Z; cbn [andb] in H.
  - erewrite bind_run by (rewrite el_matches_run by exact Hsel; rewrite H; reflexivity).
    reflexivity.
  - erewrite bind_run by reflexivity. reflexivity.
Qed.

(** X3: a revealed element is out of reach of the script.  For a marker
    that makes a valid selector, after the reveal operation the element
    no longer matches the marker selector: the startup query does not
    find it, and the mutation callback, handed the element again, does
    nothing. *)
Theorem revealed_element_ignored (O : LazyloadOptions) (p : Page) (e : elem) :
  is_identifier (Index.marker O) = true ->
  let p' := snd (Index.unveil O e p) in
  hasAttribute (Index.marker O) (node p' e) = false /\
  ~ In e (lazyElements O p') /\
  querySelectorAll (Index.marker O) p' = (Normal (lazyElements O p'), p') /\
  Index.added_node O e p' = (Normal tt, p').
Proof.
  intros Hsel p'.
  assert (H : hasAttribute (Index.marker O) (node p' e) = false).
  { unfold p'. rewrite node_after_unveil. apply unveil_element_unmarked. }
  split; [exact H|]. split; [|split].
  - unfold lazyElements. intros Hin. apply filter_In in Hin as [_ Hin].
    rewrite H, andb_false_r in Hin. discriminate.
  - apply querySelectorAll_run, Hsel.
  - apply added_node_unselected; [exact Hsel|].
    unfold selected. rewrite H. apply andb_false_r.
Qed.

Lemma revealed_element_ignored_witness :
  let p' := snd (Index.unveil default_options 1 lazy_img_page) in
  hasAttribute (Index.marker default_options) (node p' 1) = false /\
  ~ In 1%nat (lazyElements default_options p') /\
  querySelectorAll (Index.marker default_options) p' =
    (Normal (lazyElements default_options p'), p') /\
  Index.added_node default_options 1 p' = (Normal tt, p').
Proof. apply (revealed_element_ignored default_options lazy_img_page 1). reflexivity. Defined.

(** ** Startup with both observers *)

Lemma targets_nil (T : gset elem) : list_to_set [] ∪ T = T.
Proof.
  apply set_eq. intros y.
  rewrite elem_of_union, elem_of_list_to_set, elem_of_nil. tauto.
Qed.

Lemma targets_cons (x : elem) (l : list elem) (T : gset elem) :
  list_to_set l ∪ ({[x]} ∪ T) = list_to_set (x :: l) ∪ T.
Proof.
  apply set_eq. intros y.
  rewrite !elem_of_union, !elem_of_list_to_set, elem_of_cons, elem_of_singleton.
  tauto.
Qed.

Lemma targets_fresh (l : list elem) : list_to_set l ∪ (∅ : gset elem) = list_to_set l.
Proof.
  apply set_eq. intros y. rewrite elem_of_union, elem_of_empty. tauto.
Qed.

Lemma observe_loop (l : list elem) (p : Page) :
  forEach l observe p =
  (Normal tt,
   with_observationTargets (list_to_set l ∪ observationTargets p)
     (with_log (log p ++ List.map observe_call l) p)).
Proof.
  revert p. induction l as [|x l IH]; intros p.
  - cbn [forEach List.map]. unfold mret, M_ret. rewrite app_nil_r.
    rewrite targets_nil. destruct p; reflexivity.
  - cbn [forEach]. erewrite bind_run by reflexivity. rewrite IH.
    unfold observe. run. f_equal. f_equal.
    + apply targets_cons.
    + rewrite <- app_assoc. reflexivity.
Qed.

(** X4: startup on a platform with both observers, for a marker that
    makes a valid selector.  The entry point puts exactly the elements
    that match the marker selector into the watch set of a new
    intersection observer, in document order, and starts the mutation
    observer on the body; it changes no node, no listener and nothing of
    the document.  It completes normally when the document has a body;
    while there is none ([document.body] is null) it registers the
    elements and then raises a [TypeError]. *)
Theorem startup_observes_matches (O : LazyloadOptions) (p : Page) :
  has_IntersectionObserver (window p) && has_MutationObserver (window p) = true ->
  is_identifier (Index.marker O) = true ->
  let p' := snd (Index.fastLazyLoad O p) in
  fst (Index.fastLazyLoad O p) =
    match body p with Some _ => Normal tt | None => Throw TypeError end /\
  observationTargets p' = list_to_set (lazyElements O p) /\
  log p' =
    log p ++ List.map observe_call (lazyElements O p)
    ++ match body p with Some b => [mutation_observe_call b] | None => [] end /\
  mutationTargets p' =
    mutationTargets p ++ match body p with Some b => [b] | None => [] end /\
  nodes p' = nodes p /\
  document p' = document p /\
  listeners p' = listeners p /\
  next_node p' = next_node p.
Proof.
  intros Hcap Hsel p'. unfold p', Index.fastLazyLoad.
  erewrite bind_run by (apply querySelectorAll_run, Hsel).
  erewrite bind_run by reflexivity.
  rewrite Hcap. fold (lazyElements O p).
  erewrite bind_run by reflexivity.
  erewrite bind_run by apply observe_loop.
  unfold mutation_observe_body. erewrite bind_run by reflexivity. cbn [body].
  change (body (with_observationTargets _ _)) with (body p).
  destruct (body p) as [b|]; run.
  - repeat split; try reflexivity; [apply targets_fresh | rewrite <- app_assoc; reflexivity].
  - repeat split; try reflexivity; [apply targets_fresh | rewrite app_nil_r; reflexivity
                                   | rewrite app_nil_r; reflexivity].
Qed.

Lemma startup_observes_matches_witness :
  let p' := snd (Index.fastLazyLoad default_options lazy_img_page) in
  fst (Index.fastLazyLoad default_options lazy_img_page) =
    match body lazy_img_page with Some _ => Normal tt | None => Throw TypeError end /\
  observationTargets p' = list_to_set (lazyElements default_options lazy_img_page) /\
  log p' =
    log lazy_img_page ++ List.map observe_call (lazyElements default_options lazy_img_page)
    ++ match body lazy_img_page with Some b => [mutation_observe_call b] | None => [] end /\
  mutationTargets p' =
    mutationTargets lazy_img_page
    ++ match body lazy_img_page with Some b => [b] | None => [] end /\
  nodes p' = nodes lazy_img_page /\
  document p' = document lazy_img_page /\
  listeners p' = listeners lazy_img_page /\
  next_node p' = next_node lazy_img_page.
Proof.
  apply (startup_observes_matches default_options lazy_img_page); reflexivity.
Defined.

(** ** What the callbacks leave alone *)

Lemma preserves_forEach_In {X A : Type} (f : Page -> X) (l : list A) (g : A -> M unit) :
  (forall a, In a l -> preserves f (g a)) -> preserves f (forEach l g).
Proof.
  induction l as [|x l IH]; intros Hg; cbn [forEach].
  - apply preserves_ret.
  - apply preserves_bind; [apply Hg; left; reflexivity|].
    intros _. apply IH. intros a Ha. apply Hg. right. exact Ha.
Qed.

Lemma preserves_watched_unobserve (t e : elem) :
  e <> t -> preserves (watched t) (unobserve e).
Proof.
  intros H. unfold unobserve. apply preserves_bind; [frame|]. intros _.
  apply preserves_modify. intros p. unfold watched. cbn.
  apply bool_decide_ext. rewrite elem_of_difference, elem_of_singleton.
  split; [tauto | intros Hin; split; [exact Hin | congruence]].
Qed.

Lemma preserves_watched_observe (t e : elem) :
  e <> t -> preserves (watched t) (observe e).
Proof.
  intros H. unfold observe. apply preserves_bind; [frame|]. intros _.
  apply preserves_modify. intros p. unfold watched. cbn.
  apply bool_decide_ext. rewrite elem_of_union, elem_of_singleton.
  split; [intros [Heq|Hin]; [congruence | exact Hin] | tauto].
Qed.

(** Steps of [frame] for the data of one node, where the computation
    updates other nodes only. *)
Ltac frame_node H :=
  repeat first
    [ frame_step
    | apply preserves_modify; intros ?; unfold node; cbn;
      apply lookup_total_insert_ne; exact H ].

Lemma unveil_other_node (O : LazyloadOptions) (t e : elem) :
  e <> t -> preserves (fun p => node p t) (Index.unveil O e).
Proof.
  intros H. unfold Index.unveil. frame_node H.
Qed.

Lemma entry_callback_other_node (O : LazyloadOptions) (t : elem)
    (en : IntersectionObserverEntry) :
  isIntersecting en = false \/ target en <> t ->
  preserves (fun p => node p t) (Index.entry_callback O en).
Proof.
  intros H. unfold Index.entry_callback.
  destruct (isIntersecting en); [|apply preserves_ret].
  destruct H as [H|H]; [discriminate|].
  frame_node H.
Qed.

Lemma entry_callback_other_watched (O : LazyloadOptions) (t : elem)
    (en : IntersectionObserverEntry) :
  isIntersecting en = false \/ target en <> t ->
  preserves (watched t) (Index.entry_callback O en).
Proof.
  intros H. unfold Index.entry_callback.
  destruct (isIntersecting en); [|apply preserves_ret].
  destruct H as [H|H]; [discriminate|].
  repeat (apply preserves_bind; [frame|intros _]).
  apply preserves_watched_unobserve, H.
Qed.

Lemma entries_for_none (t : elem) (entries : list IntersectionObserverEntry) :
  entries_for t entries = 0 ->
  forall en, In en entries -> isIntersecting en = false \/ target en <> t.
Proof.
  unfold entries_for. induction entries as [|a r IH]; intros H en []. 
  - subst a. cbn [List.filter] in H.
    destruct (isIntersecting en); [|left; reflexivity].
    destruct (Nat.eqb_spec (target en) t); [discriminate|right; assumption].
  - apply IH; [|assumption]. cbn [List.filter] in H.
    destruct (isIntersecting a && Nat.eqb (target a) t); [discriminate | exact H].
Qed.

(** X5: the intersection callback touches only the targets of its
    intersecting entries.  Whatever the options, even when a class name
    is invalid and the callback raises, an element for which the batch
    holds no intersecting entry keeps its data and its place in or out
    of the watch set; and the callback changes neither the document nor
    the node counter nor what the mutation observer watches. *)
Theorem callback_touches_targets_only (O : LazyloadOptions)
    (entries : list IntersectionObserverEntry) (p : Page) (t : elem) :
  entries_for t entries = 0 ->
  let p' := snd (Index.lazyLoadBackgrounds O entries p) in
  node p' t = node p t /\
  watched t p' = watched t p /\
  document p' = document p /\
  next_node p' = next_node p /\
  mutationTargets p' = mutationTargets p.
Proof.
  intros Ht p'. pose proof (entries_for_none t entries Ht) as Hen.
  unfold p', Index.lazyLoadBackgrounds.
  split; [apply (preserves_forEach_In (fun q => node q t)); intros en Hin;
          apply entry_callback_other_node, Hen, Hin|].
  split; [apply (preserves_forEach_In (watched t)); intros en Hin;
          apply entry_callback_other_watched, Hen, Hin|].
  repeat split.
  - apply (preserves_forEach document). intros en. unfold Index.entry_callback. frame.
  - apply (preserves_forEach next_node). intros en. unfold Index.entry_callback. frame.
  - apply (preserves_forEach mutationTargets). intros en. unfold Index.entry_callback. frame.
Qed.

Lemma callback_touches_targets_only_witness :
  let p' := snd (Index.lazyLoadBackgrounds default_options [mkEntry true 1; mkEntry false 0]
                   watched_img_page) in
  node p' 0 = node watched_img_page 0 /\
  watched 0 p' = watched 0 watched_img_page /\
  document p' = document watched_img_page /\
  next_node p' = next_node watched_img_page /\
  mutationTargets p' = mutationTargets watched_img_page.
Proof.
  apply (callback_touches_targets_only default_options
           [mkEntry true 1; mkEntry false 0] watched_img_page 0).
  reflexivity.
Defined.

(** *** The watch set only shrinks *)

Lemma never_watches_ret {A : Type} (a : A) : never_watches (mret a).
Proof. intros p x H. exact H. Qed.

Lemma never_watches_bind {A B : Type} (m : M A) (k : A -> M B) :
  never_watches m -> (forall a, never_watches (k a)) -> never_watches (m ≫= k).
Proof.
  intros Hm Hk p x. unfold mbind, M_bind.
  specialize (Hm p x). destruct (m p) as [[a|e] p1]; cbn in *.
  - intros H. apply Hm. eapply Hk, H.
  - exact Hm.
Qed.

Lemma never_watches_forEach {A : Type} (l : list A) (g : A -> M unit) :
  (forall a, never_watches (g a)) -> never_watches (forEach l g).
Proof.
  intros Hg. induction l as [|x l IH]; cbn [forEach].
  - apply never_watches_ret.
  - apply never_watches_bind; [apply Hg | intros _; exact IH].
Qed.

Lemma never_watches_preserves {A : Type} (m : M A) :
  preserves observationTargets m -> never_watches m.
Proof. intros H p x. rewrite H. auto. Qed.

Lemma never_watches_unobserve (e : elem) : never_watches (unobserve e).
Proof.
  intros p x. unfold unobserve. run. rewrite elem_of_difference. tauto.
Qed.

Lemma entry_callback_never_watches (O : LazyloadOptions) (en : IntersectionObserverEntry) :
  never_watches (Index.entry_callback O en).
Proof.
  unfold Index.entry_callback. destruct (isIntersecting en); [|apply never_watches_ret].
  repeat (apply never_watches_bind; [apply never_watches_preserves; frame | intros _]).
  apply never_watches_unobserve.
Qed.

(** X6: the intersection callback puts no element into the watch set,
    whatever the options and the batch: an element watched after it was
    watched before. *)
Theorem callback_never_watches (O : LazyloadOptions)
    (entries : list IntersectionObserverEntry) (p : Page) (x : elem) :
  x ∈ observationTargets (snd (Index.lazyLoadBackgrounds O entries p)) ->
  x ∈ observationTargets p.
Proof. apply (never_watches_forEach entries), entry_callback_never_watches. Qed.

Lemma callback_never_watches_witness :
  0%nat ∈ observationTargets
            (snd (Index.lazyLoadBackgrounds default_options [mkEntry true 1]
                    both_watched_page)) /\
  0%nat ∈ observationTargets both_watched_page.
Proof.
  assert (H : 0%nat ∈ observationTargets
                        (snd (Index.lazyLoadBackgrounds default_options [mkEntry true 1]
                                both_watched_page)))
    by (vm_compute; reflexivity).
  split; [exact H|].
  exact (callback_never_watches default_options [mkEntry true 1] both_watched_page 0 H).
Defined.

(** ** Class names that are not valid tokens *)

Lemma bind_raise {A B : Type} (m : M A) (k : A -> M B) (p p' : Page) (e : Exception) :
  m p = (Throw e, p') -> (m ≫= k) p = (Throw e, p').
Proof. intros H. unfold mbind, M_bind. rewrite H. reflexivity. Qed.

Lemma validate_invalid (t : string) :
  valid_token t = false -> validate_token t = Throw (token_error t).
Proof.
  unfold valid_token, validate_token, token_error.
  destruct (String.eqb t ""); [reflexivity|]. cbn [negb andb].
  destruct (existsb_string is_whitespace t); [reflexivity | discriminate].
Qed.

Lemma classList_add_invalid (e : elem) (t : string) (p : Page) :
  valid_token t = false ->
  classList_add e t p =
  (Throw (token_error t), with_log (log p ++ [classList_add_call e t]) p).
Proof.
  intros Ht. unfold classList_add. run. rewrite (validate_invalid t Ht). reflexivity.
Qed.

(** X7: an invalid [on] class name stops every reveal.  When
    [Options.on] is empty or holds whitespace, the intersection callback
    raises at the first intersecting entry of the batch, a [SyntaxError]
    for the empty name and an [InvalidCharacterError] otherwise; it has
    then done nothing but the failed [classList.add]: no element is
    revealed, none leaves the watch set, no listener is registered.  A
    batch without intersecting entries completes normally. *)
Theorem invalid_on_blocks_reveal (O : LazyloadOptions)
    (entries : list IntersectionObserverEntry) (p : Page) :
  valid_token (on O) = false ->
  Index.lazyLoadBackgrounds O entries p =
  match first_intersecting entries with
  | Some t =>
      (Throw (token_error (on O)),
       with_log (log p ++ [classList_add_call t (on O)]) p)
  | None => (Normal tt, p)
  end.
Proof.
  intros Hon. unfold Index.lazyLoadBackgrounds.
  induction entries as [|en r IH]; [reflexivity|].
  cbn [forEach first_intersecting].
  destruct (isIntersecting en) eqn:Een.
  - erewrite bind_raise; [reflexivity|].
    unfold Index.entry_callback. rewrite Een.
    erewrite bind_raise; [reflexivity|].
    apply classList_add_invalid, Hon.
  - erewrite bind_run by (unfold Index.entry_callback; rewrite Een; reflexivity).
    exact IH.
Qed.

Lemma invalid_on_blocks_reveal_witness :
  Index.lazyLoadBackgrounds empty_on_options [mkEntry false 0; mkEntry true 1]
    watched_img_page =
  match first_intersecting [mkEntry false 0; mkEntry true 1] with
  | Some t =>
      (Throw (token_error (on empty_on_options)),
       with_log (log watched_img_page ++ [classList_add_call t (on empty_on_options)])
         watched_img_page)
  | None => (Normal tt, watched_img_page)
  end.
Proof.
  apply (invalid_on_blocks_reveal empty_on_options [mkEntry false 0; mkEntry true 1]
           watched_img_page).
  reflexivity.
Defined.

(** X8: an invalid [loaded] class name stops the fallback after the
    first element.  On a platform without one of the observers, for a
    marker that makes a valid selector, when [Options.loaded] is empty
    or holds whitespace, the entry point
    reveals the first element the selector found, raises when it adds
    the class to it, and leaves every other element unrevealed; with no
    matching element it completes normally and changes nothing. *)
Theorem invalid_loaded_stops_fallback (O : LazyloadOptions) (p : Page) :
  has_IntersectionObserver (window p) && has_MutationObserver (window p) = false ->
  is_identifier (Index.marker O) = true ->
  valid_token (loaded O) = false ->
  Index.fastLazyLoad O p =
  match lazyElements O p with
  | [] => (Normal tt, p)
  | e :: _ =>
      (Throw (token_error (loaded O)),
       with_log (log p ++ unveil_calls O e (node p e) ++ [classList_add_call e (loaded O)])
         (with_nodes (<[e := unveil_element O (node p e)]> (nodes p)) p))
  end.
Proof.
  intros Hcap Hsel Hloaded. unfold Index.fastLazyLoad.
  erewrite bind_run by (apply querySelectorAll_run, Hsel).
  erewrite bind_run by reflexivity.
  rewrite Hcap.
  destruct (lazyElements O p) as [|e r]; [reflexivity|].
  cbn [forEach]. erewrite bind_raise; [reflexivity|].
  unfold Index.fallbackNode. erewrite bind_run by apply unveil_run.
  rewrite classList_add_invalid by exact Hloaded. run.
  rewrite <- app_assoc. reflexivity.
Qed.

Lemma invalid_loaded_stops_fallback_witness :
  Index.fastLazyLoad spaced_loaded_options legacy_img_page =
  match lazyElements spaced_loaded_options legacy_img_page with
  | [] => (Normal tt, legacy_img_page)
  | e :: _ =>
      (Throw (token_error (loaded spaced_loaded_options)),
       with_log (log legacy_img_page
                 ++ unveil_calls spaced_loaded_options e (node legacy_img_page e)
                 ++ [classList_add_call e (loaded spaced_loaded_options)])
         (with_nodes
            (<[e := unveil_element spaced_loaded_options (node legacy_img_page e)]>
               (nodes legacy_img_page)) legacy_img_page))
  end.
Proof.
  apply (invalid_loaded_stops_fallback spaced_loaded_options legacy_img_page);
    reflexivity.
Defined.

(** ** Load events *)

Lemma contains_remove_eq (t : string) (l : list string) :
  contains t (tokens_remove t l) = false.
Proof.
  unfold contains, tokens_remove. induction l as [|a l IH]; [reflexivity|].
  cbn [List.filter]. destruct (String.eqb_spec a t) as [->|Hne]; cbn [negb]; [exact IH|].
  cbn [existsb]. rewrite IH.
  destruct (String.eqb_spec t a) as [->|_]; [contradiction|reflexivity].
Qed.

Lemma contains_remove_ne (c t : string) (l : list string) :
  c <> t -> contains c (tokens_remove t l) = contains c l.
Proof.
  intros Hc. unfold contains, tokens_remove. induction l as [|a l IH]; [reflexivity|].
  cbn [List.filter existsb]. destruct (String.eqb_spec a t) as [->|Hne]; cbn [negb].
  - rewrite IH. destruct (String.eqb_spec c t); [contradiction|reflexivity].
  - cbn [existsb]. rewrite IH. reflexivity.
Qed.

(** Among the listeners of the script, those for a load at the node [t]
    are the load listener of [t]. *)
Lemma load_listener_callback (t : elem) (l : Listener) :
  script_listener l = true ->
  listener_target l = the_node t ->
  String.eqb (listener_type l) "load" = true ->
  listener_callback l = on_load t.
Proof.
  unfold script_listener. intros Hl Ht Hty.
  apply String.eqb_eq in Hty.
  destruct (listener_callback l) as [t'|t'|n'];
    apply andb_true_iff in Hl as [Htarget Htype];
    apply bool_decide_eq_true in Htarget; apply String.eqb_eq in Htype.
  - rewrite Ht in Htarget. congruence.
  - rewrite Hty in Htype. discriminate.
  - rewrite Ht in Htarget. discriminate.
Qed.

Lemma load_listeners_run (O : LazyloadOptions) (t : elem) (ls : list Listener) (q : Page) :
  valid_token (loaded O) = true ->
  valid_token (loading O) = true ->
  forallb script_listener ls = true ->
  forEach ls (fun l =>
    if bool_decide (listener_target l = the_node t) && String.eqb (listener_type l) "load"
    then report (Index.run_callback O (listener_callback l))
    else mret tt) q =
  (Normal tt, Nat.iter (length (listening (the_node t) "load" ls)) (loaded_page O t) q).
Proof.
  intros Hloaded Hloading. revert q.
  induction ls as [|l ls IH]; intros q Hls; [reflexivity|].
  cbn [forallb] in Hls. apply andb_true_iff in Hls as [Hl Hls].
  cbn [forEach listening List.filter].
  destruct (bool_decide (listener_target l = the_node t)
            && String.eqb (listener_type l) "load") eqn:E.
  - apply andb_true_iff in E as [Ht Hty]. apply bool_decide_eq_true in Ht.
    rewrite (load_listener_callback t l Hl Ht Hty).
    erewrite bind_run
      by (unfold report; rewrite on_load_run by assumption; reflexivity).
    rewrite IH by exact Hls. cbn [length].
    rewrite Nat.iter_succ_r. reflexivity.
  - erewrite bind_run by reflexivity. apply IH, Hls.
Qed.

Lemma iter_loaded_page (O : LazyloadOptions) (t : elem) (k : nat) (q : Page) :
  listeners (Nat.iter k (loaded_page O t) q) = listeners q /\
  src (node (Nat.iter k (loaded_page O t) q) t) = src (node q t) /\
  (1 <= k ->
   contains (loading O) (classList (node (Nat.iter k (loaded_page O t) q) t)) = false) /\
  (1 <= k -> loaded O <> loading O ->
   contains (loaded O) (classList (node (Nat.iter k (loaded_page O t) q) t)) = true) /\
  (forall c : string,
     c <> loading O ->
     contains c (classList (node q t)) = true ->
     contains c (classList (node (Nat.iter k (loaded_page O t) q) t)) = true).
Proof.
  induction k as [|k (IHl & IHs & _ & _ & IHc)]; cbn [Nat.iter].
  - repeat split; [lia | lia | auto].
  - assert (Hnode : forall x : Page,
               classList (node (loaded_page O t x) t) =
               tokens_remove (loading O) (tokens_add (loaded O) (classList (node x t)))).
    { intros x. unfold loaded_page, node. cbn.
      rewrite lookup_total_insert_eq. reflexivity. }
    assert (Hsrc : forall x : Page, src (node (loaded_page O t x) t) = src (node x t)).
    { intros x. unfold loaded_page, node. cbn.
      rewrite lookup_total_insert_eq. reflexivity. }
    rewrite !Nat.iter_succ.
    repeat split.
    + exact IHl.
    + rewrite Hsrc. exact IHs.
    + intros _. rewrite Hnode. apply contains_remove_eq.
    + intros _ Hne. rewrite Hnode, contains_remove_ne by exact Hne. apply contains_add.
    + intros c Hc Hin. rewrite Hnode, contains_remove_ne by exact Hc.
      apply contains_add_mono, IHc; assumption.
Qed.

Lemma dispatch_times_load (O : LazyloadOptions) (t : elem) (n : nat) (q : Page) :
  valid_token (loaded O) = true ->
  valid_token (loading O) = true ->
  forallb script_listener (listeners q) = true ->
  let k := length (listening (the_node t) "load" (listeners q)) in
  dispatch_times O n (the_node t) "load" q = Nat.iter (n * k) (loaded_page O t) q.
Proof.
  intros Hloaded Hloading. revert q.
  induction n as [|n IH]; intros q Hls k; [reflexivity|].
  cbn [dispatch_times]. unfold Index.dispatchEvent.
  erewrite bind_run by reflexivity.
  rewrite load_listeners_run by assumption. cbn [snd]. fold k.
  destruct (iter_loaded_page O t k q) as (Hl & _).
  rewrite IH by (rewrite Hl; exact Hls). rewrite Hl. fold k.
  rewrite <- Nat.iter_add. f_equal. lia.
Qed.

(** X9: the life of an element whose resource loads.  Let the class
    names [on], [loading] and [loaded] be valid tokens and the listeners
    of the page those of the script.  After an intersecting entry for
    [t] was delivered and then one or more load events fired at [t], the
    element no longer carries the class [loading]; it carries [loaded]
    and [on] provided these differ from [loading]; the load events
    change neither its [src] nor the listeners, and the element is no
    longer watched. *)
Theorem loaded_element_stops_loading (O : LazyloadOptions) (p : Page) (t : elem) (n : nat) :
  valid_token (on O) = true ->
  valid_token (loading O) = true ->
  valid_token (loaded O) = true ->
  forallb script_listener (listeners p) = true ->
  let p1 := snd (Index.deliver_entries O [mkEntry true t] p) in
  let p2 := dispatch_times O (S n) (the_node t) "load" p1 in
  contains (loading O) (classList (node p2 t)) = false /\
  (loaded O <> loading O -> contains (loaded O) (classList (node p2 t)) = true) /\
  (on O <> loading O -> contains (on O) (classList (node p2 t)) = true) /\
  src (node p2 t) = src (node p1 t) /\
  listeners p2 = listeners p1 /\
  watched t p2 = false.
Proof.
  intros Hon Hloading Hloaded Hls p1 p2.
  assert (Hp1 : p1 = entered_page O t p).
  { unfold p1. rewrite deliver_entries_run by assumption. reflexivity. }
  assert (Hls1 : forallb script_listener (listeners p1) = true).
  { rewrite Hp1. unfold entered_page. cbn.
    rewrite forallb_app, Hls. cbn.
    rewrite !bool_decide_eq_true_2 by reflexivity. reflexivity. }
  assert (Hk : 1 <= length (listening (the_node t) "load" (listeners p1))).
  { rewrite Hp1. unfold entered_page, listening. cbn.
    rewrite List.filter_app, length_app. cbn.
    rewrite !bool_decide_eq_true_2 by reflexivity. cbn. lia. }
  assert (Hclasses : classList (node p1 t) =
            tokens_add (loading O) (tokens_add (on O) (classList (node p t)))).
  { rewrite Hp1. unfold entered_page, node. cbn.
    rewrite lookup_total_insert_eq. unfold entered_element.
    rewrite classList_unveil_element. reflexivity. }
  assert (Hw : forall k, watched t (Nat.iter k (loaded_page O t) p1) = false).
  { intros k. induction k as [|k IH].
    - rewrite Hp1. unfold watched, entered_page. cbn.
      apply bool_decide_eq_false_2. rewrite elem_of_difference, elem_of_singleton. tauto.
    - rewrite Nat.iter_succ. exact IH. }
  unfold p2. rewrite dispatch_times_load by assumption.
  set (k := length (listening (the_node t) "load" (listeners p1))) in *.
  destruct (iter_loaded_page O t (S n * k) p1) as (Hl & Hs & Hg & Hd & Hc).
  split; [apply Hg; nia|].
  split; [intros Hne; apply Hd; [nia | exact Hne]|].
  split; [intros Hne; apply Hc; [exact Hne|];
          rewrite Hclasses; apply contains_add_mono, contains_add|].
  split; [exact Hs|]. split; [exact Hl | apply Hw].
Qed.

Lemma loaded_element_stops_loading_witness :
  let p1 := snd (Index.deliver_entries default_options [mkEntry true 1] watched_img_page) in
  let p2 := dispatch_times default_options (S 1) (the_node 1) "load" p1 in
  contains (loading default_options) (classList (node p2 1)) = false /\
  (loaded default_options <> loading default_options ->
   contains (loaded default_options) (classList (node p2 1)) = true) /\
  (on default_options <> loading default_options ->
   contains (on default_options) (classList (node p2 1)) = true) /\
  src (node p2 1) = src (node p1 1) /\
  listeners p2 = listeners p1 /\
  watched 1 p2 = false.
Proof.
  apply (loaded_element_stops_loading default_options watched_img_page 1 1);
    reflexivity.
Defined.

(** ** The callback of the mutation observer *)

Lemma completes_ret {A : Type} (a : A) : completes_normally (mret a).
Proof. intros p. exists a. reflexivity. Qed.

Lemma completes_gets {A : Type} (g : Page -> A) : completes_normally (gets g).
Proof. intros p. exists (g p). reflexivity. Qed.

Lemma completes_modify (g : Page -> Page) : completes_normally (modify g).
Proof. intros p. exists tt. reflexivity. Qed.

Lemma completes_bind {A B : Type} (m : M A) (k : A -> M B) :
  completes_normally m -> (forall a, completes_normally (k a)) ->
  completes_normally (m ≫= k).
Proof.
  intros Hm Hk p. unfold mbind, M_bind.
  destruct (Hm p) as [a Ha]. destruct (m p) as [[a'|e] p1]; cbn in Ha.
  - apply Hk.
  - discriminate.
Qed.

Lemma completes_forEach {A : Type} (l : list A) (g : A -> M unit) :
  (forall a, completes_normally (g a)) -> completes_normally (forEach l g).
Proof.
  intros Hg. induction l as [|x l IH]; cbn [forEach].
  - apply completes_ret.
  - apply completes_bind; [apply Hg | intros _; exact IH].
Qed.

Lemma completes_el_matches (e : elem) (name : string) :
  is_identifier name = true -> completes_normally (el_matches e name).
Proof.
  intros H p. rewrite el_matches_run by exact H. eexists. reflexivity.
Qed.

Ltac normal_step :=
  lazymatch goal with
  | |- completes_normally (mret _) => apply completes_ret
  | |- completes_normally (gets _) => apply completes_gets
  | |- completes_normally (modify _) => apply completes_modify
  | |- completes_normally (el_matches _ _) => apply completes_el_matches; assumption
  | |- completes_normally (forEach _ _) => apply completes_forEach; intros ?
  | |- completes_normally (mbind _ _) => apply completes_bind; [|intros ?]
  | |- completes_normally (if ?b then _ else _) => destruct b
  | |- completes_normally _ =>
      progress unfold record, update_node, read_node, addEventListener,
        el_hasAttribute, el_setAttribute, el_removeAttribute, el_dataset,
        el_backgroundImage, el_set_backgroundImage, el_set_src,
        observe, Index.unveil, Index.lazyscript, Index.isElementInViewport
  end.

Lemma added_node_completes (O : LazyloadOptions) (n : elem) :
  is_identifier (Index.marker O) = true ->
  completes_normally (Index.added_node O n).
Proof. intros Hsel. unfold Index.added_node. repeat normal_step. Qed.

Lemma normal_unit (c : Completion unit) : (exists a : unit, c = Normal a) -> c = Normal tt.
Proof. intros [[] H]. exact H. Qed.

Lemma never_unwatches_bind {A B : Type} (m : M A) (k : A -> M B) :
  never_unwatches m -> (forall a, never_unwatches (k a)) -> never_unwatches (m ≫= k).
Proof.
  intros Hm Hk p x Hx. unfold mbind, M_bind.
  specialize (Hm p x Hx). destruct (m p) as [[a|e] p1]; cbn in *.
  - apply Hk, Hm.
  - exact Hm.
Qed.

Lemma never_unwatches_forEach {A : Type} (l : list A) (g : A -> M unit) :
  (forall a, never_unwatches (g a)) -> never_unwatches (forEach l g).
Proof.
  intros Hg. induction l as [|x l IH]; cbn [forEach].
  - intros p y Hy. exact Hy.
  - apply never_unwatches_bind; [apply Hg | intros _; exact IH].
Qed.

Lemma never_unwatches_preserves {A : Type} (m : M A) :
  preserves observationTargets m -> never_unwatches m.
Proof. intros H p x. rewrite H. auto. Qed.

Lemma never_unwatches_observe (e : elem) : never_unwatches (observe e).
Proof.
  intros p x. unfold observe. run. rewrite elem_of_union. tauto.
Qed.

Lemma added_node_never_unwatches (O : LazyloadOptions) (n : elem) :
  never_unwatches (Index.added_node O n).
Proof.
  unfold Index.added_node.
  apply never_unwatches_bind; [apply never_unwatches_preserves; frame | intros nt].
  apply never_unwatches_bind; [apply never_unwatches_preserves; frame | intros [|]].
  2: apply never_unwatches_preserves; frame.
  apply never_unwatches_bind; [apply never_unwatches_preserves; frame | intros name].
  destruct (String.eqb name "SCRIPT"); [apply never_unwatches_preserves; frame|].
  apply never_unwatches_bind; [apply never_unwatches_preserves; frame | intros [|]].
  - apply never_unwatches_preserves. frame.
  - apply never_unwatches_observe.
Qed.

Lemma added_node_other_node (O : LazyloadOptions) (n e : elem) :
  n <> e -> preserves (fun p => node p e) (Index.added_node O n).
Proof. intros H. unfold Index.added_node. frame_node H. Qed.

Lemma added_node_other_watched (O : LazyloadOptions) (n e : elem) :
  n <> e -> preserves (watched e) (Index.added_node O n).
Proof.
  intros H. unfold Index.added_node.
  repeat first
    [ lazymatch goal with
      | |- preserves _ (observe _) => apply preserves_watched_observe; exact H
      end
    | frame_step ].
Qed.

(** X10: the callback of the mutation observer, for a marker that
    makes a valid selector.  Whatever the records and the page, it
    raises no exception; it changes neither the document nor the node
    counter nor what the mutation observer watches; it takes no element
    out of the watch set, so that an element it reveals stays watched if
    it was; and a node that no [childList] record of the batch reports
    as added keeps its data and its place in or out of the watch set. *)
Theorem mutation_callback_completes (O : LazyloadOptions)
    (records : list MutationRecord) (p : Page) :
  is_identifier (Index.marker O) = true ->
  let p' := snd (Index.mutation_callback O records p) in
  fst (Index.mutation_callback O records p) = Normal tt /\
  document p' = document p /\
  next_node p' = next_node p /\
  mutationTargets p' = mutationTargets p /\
  (forall x : elem, x ∈ observationTargets p -> x ∈ observationTargets p') /\
  (forall e : elem,
     ~ In e (added_nodes records) ->
     node p' e = node p e /\ watched e p' = watched e p).
Proof.
  intros Hsel p'. unfold p'. rewrite mutation_callback_nodes.
  split; [apply normal_unit, completes_forEach; intros n;
          apply added_node_completes, Hsel|].
  split; [apply (preserves_forEach document); intros n;
          unfold Index.added_node; frame|].
  split; [apply (preserves_forEach next_node); intros n;
          unfold Index.added_node; frame|].
  split; [apply (preserves_forEach mutationTargets); intros n;
          unfold Index.added_node; frame|].
  split; [intros x; apply (never_unwatches_forEach _ _ (added_node_never_unwatches O))|].
  intros e He. split.
  - apply (preserves_forEach_In (fun q => node q e)). intros n Hn.
    apply added_node_other_node. congruence.
  - apply (preserves_forEach_In (watched e)). intros n Hn.
    apply added_node_other_watched. congruence.
Qed.

Lemma mutation_callback_completes_witness :
  let p' := snd (Index.mutation_callback default_options
                   [mkMutation "childList" [1%nat]] watched_visible_page) in
  fst (Index.mutation_callback default_options
         [mkMutation "childList" [1%nat]] watched_visible_page) = Normal tt /\
  document p' = document watched_visible_page /\
  next_node p' = next_node watched_visible_page /\
  mutationTargets p' = mutationTargets watched_visible_page /\
  (forall x : elem,
     x ∈ observationTargets watched_visible_page -> x ∈ observationTargets p') /\
  (forall e : elem,
     ~ In e (added_nodes [mkMutation "childList" [1%nat]]) ->
     node p' e = node watched_visible_page e /\
     watched e p' = watched e watched_visible_page).
Proof.
  apply (mutation_callback_completes default_options
           [mkMutation "childList" [1%nat]] watched_visible_page).
  reflexivity.
Defined.

(** X11: nodes that the selector does not match are passed over.  For
    a marker that makes a valid selector, when every node that the
    [childList] records of a batch report as added is either not an
    element or an element without the marker attribute, the callback of
    the mutation observer completes normally and leaves the page exactly
    as it was, log included; records of another type are not looked
    at. *)
Theorem unmatched_nodes_ignored (O : LazyloadOptions)
    (records : list MutationRecord) (p : Page) :
  is_identifier (Index.marker O) = true ->
  forallb (fun n => negb (selected O p n)) (added_nodes records) = true ->
  Index.mutation_callback O records p = (Normal tt, p).
Proof.
  intros Hsel. rewrite mutation_callback_nodes.
  induction (added_nodes records) as [|n l IH]; intros H; [reflexivity|].
  cbn [forallb] in H. apply andb_true_iff in H as [Hn Hl].
  apply negb_true_iff in Hn.
  cbn [forEach].
  erewrite bind_run by (apply added_node_unselected; [exact Hsel | exact Hn]).
  apply IH, Hl.
Qed.

Lemma unmatched_nodes_ignored_witness :
  Index.mutation_callback default_options
    [mkMutation "childList" [1%nat; 0%nat]; mkMutation "attributes" [1%nat]] text_page =
  (Normal tt, text_page).
Proof.
  apply (unmatched_nodes_ignored default_options
           [mkMutation "childList" [1%nat; 0%nat]; mkMutation "attributes" [1%nat]]
           text_page);
    reflexivity.
Defined.

(** ** The later version with a configured marker name *)

Lemma to_lower_not_upper (c : ascii) : is_upper_alpha c = false -> to_lower c = c.
Proof. unfold to_lower. intros ->. reflexivity. Qed.

Lemma plain_lowercase (k : string) : plain k = true -> ascii_lowercase k = k.
Proof.
  induction k as [|c k IH]; [reflexivity|]. cbn [plain ascii_lowercase]. intros Hk.
  apply andb_true_iff in Hk as [Hc Hk].
  apply andb_true_iff in Hc as [_ Hup]. apply negb_true_iff in Hup.
  rewrite (to_lower_not_upper c Hup), IH by exact Hk. reflexivity.
Qed.

Lemma marker_plain (O : LazyloadOptions) :
  plain (attribute O) = true -> ascii_lowercase (Index.marker O) = Index.marker O.
Proof.
  intros H. rewrite marker_lowercase, plain_lowercase by exact H. reflexivity.
Qed.

(** For a plain configured name, [el.dataset[Options.attribute]] is the
    value of the marker attribute. *)
Lemma dataset_configured (O : LazyloadOptions) (el : Element) :
  plain (attribute O) = true ->
  dataset_get (attribute O) el =
  match getAttribute (Index.marker O) el with Some v => str v | None => undefined end.
Proof.
  intros H. unfold dataset_get, getAttribute.
  rewrite dataset_find_plain, marker_plain by exact H. reflexivity.
Qed.

Lemma node_after_later_unveil (O : LazyloadOptions) (p : Page) (e : elem) :
  node (snd (Later.unveil O e p)) e = later_unveil_element O (node p e).
Proof.
  destruct (later_unveil_run O e p) as (calls & -> & _).
  unfold node. cbn. apply lookup_total_insert_eq.
Qed.

Lemma later_unveil_element_unmarked (O : LazyloadOptions) (el : Element) :
  hasAttribute (Index.marker O) (later_unveil_element O el) = false.
Proof. apply hasAttribute_remove_eq; [apply marker_not_style | apply marker_not_class]. Qed.

Lemma src_later_unveil_element (O : LazyloadOptions) (el : Element) :
  has_inline_background el = false ->
  reflects_src (nodeName el) = true ->
  src (later_unveil_element O el) = Some (ToString (dataset_get (attribute O) el)).
Proof.
  intros H Hr. unfold later_unveil_element. rewrite H. unfold src.
  rewrite getAttribute_remove_ne by apply marker_not_src.
  apply src_set, Hr.
Qed.

Lemma property_later_unveil_element (O : LazyloadOptions) (el : Element) :
  has_inline_background el = false ->
  reflects_src (nodeName el) = false ->
  property "src" (later_unveil_element O el) = Some (dataset_get (attribute O) el).
Proof.
  intros H Hr. unfold later_unveil_element. rewrite H.
  apply (src_set_property _ el Hr).
Qed.

Lemma backgroundImage_later_unveil_element (O : LazyloadOptions) (el : Element) :
  has_inline_background el = true ->
  unquoted_url (ToString (dataset_get (attribute O) el)) = true ->
  backgroundImage (later_unveil_element O el) =
  css_url (ToString (dataset_get (attribute O) el)).
Proof.
  intros H HX. unfold later_unveil_element. rewrite H.
  change (backgroundImage (removeAttribute ?n ?x)) with (backgroundImage x).
  apply backgroundImage_set, HX.
Qed.

(** X12: in the later version the configured marker name is honoured,
    for a name without hyphens and uppercase letters.  For an element
    whose marker attribute [data-A] has the value [X], the reveal
    operation completes normally.  An element with an inline background
    image gets the background image [url(X)], provided that is valid
    CSS ([X] is made of the characters of an unquoted URL).  On any
    other element [X] is assigned to [src]: the attribute becomes [X] on
    an element that reflects [src], the object gets the property [src]
    with the value [X] otherwise.  The marker attribute is absent
    afterwards and no other node changes. *)
Theorem later_unveil_round_trip (O : LazyloadOptions) (p : Page) (e : elem) (X : string) :
  plain (attribute O) = true ->
  getAttribute (Index.marker O) (node p e) = Some X ->
  (has_inline_background (node p e) = true -> unquoted_url X = true) ->
  exists p' : Page,
    Later.unveil O e p = (Normal tt, p') /\
    hasAttribute (Index.marker O) (node p' e) = false /\
    (if has_inline_background (node p e)
     then backgroundImage (node p' e) = css_url X
     else if reflects_src (nodeName (node p e))
          then src (node p' e) = Some X
          else property "src" (node p' e) = Some (str X)) /\
    (forall e' : elem, e' <> e -> node p' e' = node p e').
Proof.
  intros Hplain HX Hurl.
  pose proof (node_after_later_unveil O p e) as Hnode.
  destruct (later_unveil_run O e p) as (calls & Hrun & _).
  rewrite Hrun in Hnode. cbn [snd] in Hnode.
  eexists. split; [exact Hrun|]. rewrite Hnode.
  split; [apply later_unveil_element_unmarked|].
  assert (Hget : dataset_get (attribute O) (node p e) = str X)
    by (rewrite dataset_configured, HX by exact Hplain; reflexivity).
  split.
  - destruct (has_inline_background (node p e)) eqn:E.
    + rewrite backgroundImage_later_unveil_element; rewrite ?Hget; auto.
    + destruct (reflects_src (nodeName (node p e))) eqn:Er.
      * rewrite src_later_unveil_element, Hget by assumption. reflexivity.
      * rewrite property_later_unveil_element, Hget by assumption. reflexivity.
  - intros e' He'. unfold node. cbn. apply lookup_total_insert_ne. congruence.
Qed.

Lemma later_unveil_round_trip_witness :
  exists p' : Page,
    Later.unveil defer_options 1 defer_img_page = (Normal tt, p') /\
    hasAttribute (Index.marker defer_options) (node p' 1) = false /\
    (if has_inline_background (node defer_img_page 1)
     then backgroundImage (node p' 1) = css_url "a.png"
     else if reflects_src (nodeName (node defer_img_page 1))
          then src (node p' 1) = Some "a.png"
          else property "src" (node p' 1) = Some (str "a.png")) /\
    (forall e' : elem, e' <> 1%nat -> node p' e' = node defer_img_page e').
Proof.
  apply (later_unveil_round_trip defer_options defer_img_page 1 "a.png");
    [reflexivity | reflexivity | intros _; reflexivity].
Defined.

(** X13: in the later version a configured marker name that holds a
    hyphen followed by a lowercase letter loses the pending URL.
    [dataset] exposes no property under such a name, so the reveal
    operation writes what [undefined] turns into, whatever the element
    carries: the background image [url(undefined)] on an element with
    an inline background image, the [src] attribute "undefined" on an
    element that reflects [src], the property [src] with the value
    [undefined] on any other element; and then it removes the marker
    attribute. *)
Theorem later_unveil_hyphenated_name (O : LazyloadOptions) (p : Page) (e : elem) :
  dash_lower (attribute O) = true ->
  let p' := snd (Later.unveil O e p) in
  (if has_inline_background (node p e)
   then backgroundImage (node p' e) = css_url "undefined"
   else if reflects_src (nodeName (node p e))
        then src (node p' e) = Some "undefined"
        else property "src" (node p' e) = Some undefined) /\
  hasAttribute (Index.marker O) (node p' e) = false.
Proof.
  intros Hdash p'. unfold p'. rewrite node_after_later_unveil.
  assert (Hget : dataset_get (attribute O) (node p e) = undefined).
  { unfold dataset_get. rewrite dataset_find_dash_lower by exact Hdash. reflexivity. }
  split; [|apply later_unveil_element_unmarked].
  destruct (has_inline_background (node p e)) eqn:E.
  - rewrite backgroundImage_later_unveil_element; rewrite ?Hget; auto.
  - destruct (reflects_src (nodeName (node p e))) eqn:Er.
    + rewrite src_later_unveil_element, Hget by assumption. reflexivity.
    + rewrite property_later_unveil_element, Hget by assumption. reflexivity.
Qed.

Lemma later_unveil_hyphenated_name_witness :
  let p' := snd (Later.unveil hyphen_options 1 hyphen_img_page) in
  (if has_inline_background (node hyphen_img_page 1)
   then backgroundImage (node p' 1) = css_url "undefined"
   else if reflects_src (nodeName (node hyphen_img_page 1))
        then src (node p' 1) = Some "undefined"
        else property "src" (node p' 1) = Some undefined) /\
  hasAttribute (Index.marker hyphen_options) (node p' 1) = false.
Proof.
  apply (later_unveil_hyphenated_name hyphen_options hyphen_img_page 1). reflexivity.
Defined.

(** ** The later version of the script deferral *)

Lemma later_window_load_run (O : LazyloadOptions) (q : Page) (n par : elem) (X : string) :
  plain (attribute O) = true ->
  getAttribute (Index.marker O) (node q n) = Some X ->
  unique_names (attributes (node q n)) = true ->
  distinct (forest_preorder (document q)) = true ->
  forest_parent n (document q) = Some par ->
  allocated q = true ->
  Later.window_load_listener O n q =
  (Normal tt,
   with_document (forest_replace n (next_node q) (document q))
     (with_next_node (S (next_node q))
        (with_log (log q ++ [ createElement_call "script" (next_node q);
                              setAttribute_call (next_node q) (Index.marker O) X;
                              set_src_call (next_node q) (str X);
                              insertBefore_call par (next_node q) n;
                              remove_call n ])
           (with_nodes
              (<[next_node q := mkElement 1 "SCRIPT" [(Index.marker O, X); ("src", X)]
                                  None [] (mkDOMRect 0 0 0 0) []]> (nodes q)) q)))).
Proof.
  intros Hplain HX Hu Hd Hp Halloc.
  assert (Hfresh : next_node q <> n).
  { intros Heq. unfold allocated in Halloc. rewrite forallb_forall in Halloc.
    specialize (Halloc n (forest_parent_occurs n _ par Hp)).
    apply Nat.ltb_lt in Halloc. lia. }
  pose proof (marker_plain O Hplain) as Hlow.
  unfold Later.window_load_listener. fold (Index.marker O).
  set (new := next_node q) in *.
  set (q1 := with_next_node (S new)
               (with_nodes (<[new := new_script]> (nodes q))
                  (with_log (log q ++ [createElement_call "script" new]) q))).
  assert (Hcreate : createElement_script q = (Normal new, q1)) by reflexivity.
  erewrite bind_run by exact Hcreate. cbv beta.
  assert (Hn1 : node q1 n = node q n).
  { unfold q1, node. cbn. apply lookup_total_insert_ne, Hfresh. }
  erewrite bind_run by (unfold read_node, gets; rewrite Hn1; reflexivity). cbv beta.
  erewrite bind_run by (apply copy_marker_loop; [exact Hlow | exact Hu]). cbv beta.
  pose proof HX as HX0.
  rewrite getAttribute_ordinary in HX
    by (apply marker_not_style || apply marker_not_class).
  rewrite Hlow in HX. rewrite HX.
  set (q2 := with_log _ _).
  assert (Hn2 : node q2 n = node q n).
  { unfold q2, node. cbn. rewrite lookup_total_insert_ne by exact Hfresh.
    apply lookup_total_insert_ne, Hfresh. }
  erewrite bind_run
    by (unfold el_dataset, read_node, gets;
        rewrite Hn2, dataset_configured, HX0 by exact Hplain; reflexivity).
  cbv beta.
  erewrite bind_run by reflexivity. cbv beta.
  erewrite bind_run by (unfold parentElement, gets; cbn [document]; reflexivity).
  cbv beta.
  change (document (with_nodes _ (with_log _ q2))) with (document q).
  rewrite Hp. unfold insertBefore, remove. run.
  rewrite (replace_in_forest par new n (document q) Hfresh Hd Hp).
  rewrite !lookup_total_insert_eq, !insert_insert_eq.
  assert (Hnew : set_src (str X) (setAttribute (Index.marker O) X new_script) =
                 mkElement 1 "SCRIPT" [(Index.marker O, X); ("src", X)]
                           None [] (mkDOMRect 0 0 0 0) []).
  { unfold set_src, setAttribute, with_attributes, new_script. cbn.
    rewrite Hlow. reflexivity. }
  rewrite Hnew.
  f_equal. f_equal; try reflexivity; rewrite <- ?app_assoc; reflexivity.
Qed.

(** X14: the script deferral of the later version, for a configured
    marker name without hyphens and uppercase letters.  When the load
    event of the window reaches the listener for a script [n] that
    still has its marker [data-A] with value [X] and sits under a parent
    element, in a document without repeated nodes, all created before
    the next node, the listener completes normally: the document is the
    one before with a new node where [n] was, [n] is no longer in it,
    and the new node is a script element with exactly the attributes
    [data-A = X] and [src = X]; no other node changes. *)
Theorem later_script_replaced (O : LazyloadOptions) (q : Page) (n par : elem) (X : string) :
  plain (attribute O) = true ->
  getAttribute (Index.marker O) (node q n) = Some X ->
  unique_names (attributes (node q n)) = true ->
  distinct (forest_preorder (document q)) = true ->
  forest_parent n (document q) = Some par ->
  allocated q = true ->
  exists q' : Page,
    Later.window_load_listener O n q = (Normal tt, q') /\
    document q' = forest_replace n (next_node q) (document q) /\
    ~ In n (forest_preorder (document q')) /\
    In (next_node q) (forest_preorder (document q')) /\
    node q' (next_node q) =
      mkElement 1 "SCRIPT" [(Index.marker O, X); ("src", X)] None [] (mkDOMRect 0 0 0 0) [] /\
    (forall e : elem, e <> next_node q -> node q' e = node q e).
Proof.
  intros Hplain HX Hu Hd Hp Halloc.
  assert (Hfresh : next_node q <> n).
  { intros Heq. unfold allocated in Halloc. rewrite forallb_forall in Halloc.
    specialize (Halloc n (forest_parent_occurs n _ par Hp)).
    apply Nat.ltb_lt in Halloc. lia. }
  eexists. split; [eapply later_window_load_run; eassumption|].
  split; [reflexivity|].
  split; [apply forest_replace_removes, Hfresh|].
  split; [eapply forest_replace_places, Hp|].
  split.
  - unfold node. cbn. apply lookup_total_insert_eq.
  - intros e He. unfold node. cbn. apply lookup_total_insert_ne. congruence.
Qed.

Lemma later_script_replaced_witness :
  exists q' : Page,
    Later.window_load_listener defer_options 1 defer_script_page = (Normal tt, q') /\
    document q' =
      forest_replace 1 (next_node defer_script_page) (document defer_script_page) /\
    ~ In 1%nat (forest_preorder (document q')) /\
    In (next_node defer_script_page) (forest_preorder (document q')) /\
    node q' (next_node defer_script_page) =
      mkElement 1 "SCRIPT" [(Index.marker defer_options, "c.js"); ("src", "c.js")]
                None [] (mkDOMRect 0 0 0 0) [] /\
    (forall e : elem, e <> next_node defer_script_page -> node q' e = node defer_script_page e).
Proof.
  apply (later_script_replaced defer_options defer_script_page 1 0 "c.js"); reflexivity.
Defined.

(** ** From startup to the reveal *)

Lemma startup_state (O : LazyloadOptions) (p : Page) :
  has_IntersectionObserver (window p) && has_MutationObserver (window p) = true ->
  is_identifier (Index.marker O) = true ->
  observationTargets (snd (Index.fastLazyLoad O p)) = list_to_set (lazyElements O p) /\
  nodes (snd (Index.fastLazyLoad O p)) = nodes p /\
  listeners (snd (Index.fastLazyLoad O p)) = listeners p.
Proof.
  intros Hcap Hsel. unfold Index.fastLazyLoad.
  erewrite bind_run by (apply querySelectorAll_run, Hsel).
  erewrite bind_run by reflexivity.
  rewrite Hcap.
  erewrite bind_run by reflexivity.
  erewrite bind_run by apply observe_loop.
  unfold mutation_observe_body. erewrite bind_run by reflexivity. cbn [body].
  change (body (with_observationTargets _ _)) with (body p).
  destruct (body p) as [b|]; run; (split; [apply targets_fresh | split; reflexivity]).
Qed.

Lemma marker_default (O : LazyloadOptions) :
  attribute O = "lazy" -> Index.marker O = "data-lazy".
Proof. intros H. unfold Index.marker. rewrite H. reflexivity. Qed.

Lemma hasAttribute_data_lazy (el : Element) (X : string) :
  getAttribute "data-lazy" el = Some X -> hasAttribute "data-lazy" el = true.
Proof. intros H. unfold hasAttribute. cbn. rewrite H. reflexivity. Qed.

(** X15: from startup to the reveal of one element.  Let the platform
    have both observers, the marker be named [lazy] and the class names
    [on] and [loading] be valid tokens.  An element of the document
    whose [data-lazy] has the value [X] is untouched and watched after
    the entry point ran; after an intersecting entry for it was
    delivered, it is no longer watched, no longer matches the marker
    selector and carries the classes [on] and [loading].  If it had an
    inline background image and [url(X)] is valid CSS, its background
    image is [url(X)]; if it had none, [X] went into its [src]: the
    attribute on an element that reflects [src], the property of the
    object otherwise. *)
Theorem startup_then_entry_reveals (O : LazyloadOptions) (p : Page) (e : elem)
    (X : string) :
  has_IntersectionObserver (window p) && has_MutationObserver (window p) = true ->
  attribute O = "lazy" ->
  valid_token (on O) = true ->
  valid_token (loading O) = true ->
  In e (forest_preorder (document p)) ->
  nodeType (node p e) = 1%Z ->
  getAttribute "data-lazy" (node p e) = Some X ->
  (has_inline_background (node p e) = true -> unquoted_url X = true) ->
  let p1 := snd (Index.fastLazyLoad O p) in
  let p2 := snd (Index.deliver_entries O [mkEntry true e] p1) in
  node p1 e = node p e /\
  watched e p1 = true /\
  watched e p2 = false /\
  selected O p2 e = false /\
  contains (on O) (classList (node p2 e)) = true /\
  contains (loading O) (classList (node p2 e)) = true /\
  (if has_inline_background (node p e)
   then backgroundImage (node p2 e) = css_url X
   else if reflects_src (nodeName (node p e))
        then src (node p2 e) = Some X
        else property "src" (node p2 e) = Some (str X)).
Proof.
  intros Hcap HO Hon Hloading Hin Htype HX Hurl p1 p2.
  assert (Hsel : is_identifier (Index.marker O) = true)
    by (rewrite (marker_default O HO); reflexivity).
  destruct (startup_state O p Hcap Hsel) as (Htargets & Hnodes & _).
  fold p1 in Htargets, Hnodes.
  assert (Hnode : node p1 e = node p e) by (unfold node; rewrite Hnodes; reflexivity).
  assert (Hp2 : p2 = entered_page O e p1).
  { unfold p2. rewrite deliver_entries_run by assumption. reflexivity. }
  set (el := with_classList
               (tokens_add (loading O) (tokens_add (on O) (classList (node p e))))
               (node p e)).
  assert (Hnode2 : node p2 e = unveil_element O el).
  { rewrite Hp2. unfold entered_page, node at 1. cbn.
    rewrite lookup_total_insert_eq. unfold entered_element. rewrite Hnode. reflexivity. }
  assert (Hbg : has_inline_background el = has_inline_background (node p e))
    by reflexivity.
  assert (Hname : nodeName el = nodeName (node p e)) by reflexivity.
  assert (Hlazy : dataset_get "lazy" el = str X)
    by (apply dataset_lazy_value; exact HX).
  split; [exact Hnode|].
  split.
  { unfold watched. apply bool_decide_eq_true_2. rewrite Htargets.
    apply elem_of_list_to_set, list_elem_of_In. unfold lazyElements.
    apply filter_In. split; [exact Hin|].
    rewrite Htype, (marker_default O HO), (hasAttribute_data_lazy _ X HX). reflexivity. }
  split.
  { rewrite Hp2. unfold watched, entered_page. cbn.
    apply bool_decide_eq_false_2. rewrite elem_of_difference, elem_of_singleton. tauto. }
  split.
  { unfold selected. rewrite Hnode2, unveil_element_unmarked. apply andb_false_r. }
  rewrite Hnode2, classList_unveil_element.
  split; [apply contains_add_mono, contains_add|].
  split; [apply contains_add|].
  rewrite <- Hbg, <- Hname.
  destruct (has_inline_background el) eqn:E.
  - rewrite backgroundImage_unveil_element; rewrite ?Hlazy; auto.
  - destruct (reflects_src (nodeName el)) eqn:Er.
    + rewrite src_unveil_element, Hlazy by assumption. reflexivity.
    + destruct (property_unveil_element O el E Er) as [Hp _].
      rewrite Hp, Hlazy. reflexivity.
Qed.

Lemma startup_then_entry_reveals_witness :
  let p1 := snd (Index.fastLazyLoad default_options background_page) in
  let p2 := snd (Index.deliver_entries default_options [mkEntry true 1] p1) in
  node p1 1 = node background_page 1 /\
  watched 1 p1 = true /\
  watched 1 p2 = false /\
  selected default_options p2 1 = false /\
  contains (on default_options) (classList (node p2 1)) = true /\
  contains (loading default_options) (classList (node p2 1)) = true /\
  (if has_inline_background (node background_page 1)
   then backgroundImage (node p2 1) = css_url "b.png"
   else if reflects_src (nodeName (node background_page 1))
        then src (node p2 1) = Some "b.png"
        else property "src" (node p2 1) = Some (str "b.png")).
Proof.
  apply (startup_then_entry_reveals default_options background_page 1 "b.png");
    try reflexivity.
  vm_compute. tauto.
Defined.

(** ** An element the mutation observer reveals while it is watched *)

Lemma added_node_visible_run (O : LazyloadOptions) (p : Page) (n : elem) :
  nodeType (node p n) = 1%Z ->
  is_identifier (Index.marker O) = true ->
  hasAttribute (Index.marker O) (node p n) = true ->
  nodeName (node p n) <> "SCRIPT" ->
  fst (Index.isElementInViewport n p) = Normal true ->
  exists p' : Page,
    Index.added_node O n p = (Normal tt, p') /\
    observationTargets p' = observationTargets p /\
    listeners p' = listeners p /\
    node p' n =
      (if wants_priority (node p n)
       then setAttribute "fetchpriority" "high" (unveil_element O (node p n))
       else unveil_element O (node p n)).
Proof.
  intros Htype Hsel Hmarker Hname Hvisible.
  assert (Hvis : Index.isElementInViewport n p = (Normal true, p)).
  { rewrite isElementInViewport_run in Hvisible |- *. cbn [fst] in Hvisible.
    rewrite Hvisible. reflexivity. }
  assert (Hscript : String.eqb (nodeName (node p n)) "SCRIPT" = false)
    by (apply String.eqb_neq, Hname).
  unfold Index.added_node.
  erewrite bind_run by reflexivity. rewrite Htype. cbn [Z.eqb Pos.eqb].
  erewrite bind_run by (rewrite el_matches_run by exact Hsel; rewrite Hmarker; reflexivity).
  cbv beta iota.
  erewrite bind_run by reflexivity. rewrite Hscript.
  erewrite bind_run by exact Hvis. cbv beta iota.
  erewrite bind_run by apply unveil_run.
  set (p1 := with_log _ _).
  assert (Hp1 : node p1 n = unveil_element O (node p n)).
  { unfold p1, node. cbn. apply lookup_total_insert_eq. }
  unfold wants_priority.
  destruct (String.eqb (nodeName (node p n)) "IMG"
            || String.eqb (nodeName (node p n)) "VIDEO") eqn:Etag; cbn [andb].
  - erewrite bind_run
      by (unfold el_hasAttribute, read_node, gets;
          rewrite Hp1, fetchpriority_after_unveil; reflexivity).
    destruct (hasAttribute "fetchpriority" (node p n)) eqn:Ehint; cbn [negb].
    + eexists. split; [reflexivity|]. repeat split. exact Hp1.
    + eexists. split; [reflexivity|]. unfold el_setAttribute. run.
      rewrite !lookup_total_insert_eq. repeat split.
  - eexists. split; [reflexivity|]. repeat split. exact Hp1.
Qed.

Lemma deliver_one_added_node (O : LazyloadOptions) (p : Page) (n : elem) :
  snd (Index.deliver_mutations O [mkMutation "childList" [n]] p) =
  snd (Index.added_node O n p).
Proof.
  unfold Index.deliver_mutations, report. cbn [snd].
  rewrite mutation_callback_nodes.
  change (added_nodes [mkMutation "childList" [n]]) with [n].
  cbn [forEach]. unfold mbind, M_bind.
  destruct (Index.added_node O n p) as [[[]|ex] p1]; reflexivity.
Qed.

Lemma getAttribute_priority (name : string) (el : Element) :
  ascii_lowercase name <> "fetchpriority" ->
  getAttribute name (setAttribute "fetchpriority" "high" el) = getAttribute name el.
Proof.
  intros H. apply getAttribute_set_ne. intros Heq. apply H. rewrite <- Heq. reflexivity.
Qed.

(** X16: the immediate reveal of an added node does not end its
    observation.  Let the marker be named [lazy] and the class names
    [on] and [loading] be valid tokens.  When the mutation observer
    reports a watched element with [data-lazy = X] and no inline
    background image that is inside the viewport, the callback reveals
    it and leaves it in the watch set: [X] is in the [src] attribute of
    an element that reflects [src], in the property [src] of any other.
    An intersecting entry delivered for it afterwards reveals it a
    second time: the [src] attribute ends as the text "undefined", the
    property as the value [undefined]. *)
Theorem reinserted_element_revealed_twice (O : LazyloadOptions) (p : Page) (e : elem)
    (X : string) :
  attribute O = "lazy" ->
  valid_token (on O) = true ->
  valid_token (loading O) = true ->
  nodeType (node p e) = 1%Z ->
  nodeName (node p e) <> "SCRIPT" ->
  getAttribute "data-lazy" (node p e) = Some X ->
  has_inline_background (node p e) = false ->
  fst (Index.isElementInViewport e p) = Normal true ->
  watched e p = true ->
  let p1 := snd (Index.deliver_mutations O [mkMutation "childList" [e]] p) in
  let p2 := snd (Index.deliver_entries O [mkEntry true e] p1) in
  (if reflects_src (nodeName (node p e))
   then src (node p1 e) = Some X
   else property "src" (node p1 e) = Some (str X)) /\
  watched e p1 = true /\
  (if reflects_src (nodeName (node p e))
   then src (node p2 e) = Some "undefined"
   else property "src" (node p2 e) = Some undefined) /\
  watched e p2 = false.
Proof.
  intros HO Hon Hloading Htype Hname HX Hbg Hvisible Hwatched p1 p2.
  assert (Hsel : is_identifier (Index.marker O) = true)
    by (rewrite (marker_default O HO); reflexivity).
  assert (Hmarker : hasAttribute (Index.marker O) (node p e) = true)
    by (rewrite (marker_default O HO); apply (hasAttribute_data_lazy _ X HX)).
  destruct (added_node_visible_run O p e Htype Hsel Hmarker Hname Hvisible)
    as (p' & Hrun & Htargets & _ & Hnode).
  assert (Hp1 : p1 = p').
  { unfold p1. rewrite deliver_one_added_node, Hrun. reflexivity. }
  pose proof (dataset_lazy_value _ X HX) as Hlazy0.
  set (el1 := unveil_element O (node p e)) in *.
  assert (Hname1 : nodeName (node p1 e) = nodeName (node p e)).
  { rewrite Hp1, Hnode. destruct (wants_priority (node p e));
      apply nodeName_unveil_element. }
  assert (Hbg1 : has_inline_background (node p1 e) = false).
  { rewrite Hp1, Hnode. destruct (wants_priority (node p e)).
    - change (has_inline_background (setAttribute ?a ?b ?x)) with (has_inline_background x).
      unfold el1. rewrite has_inline_background_unveil. exact Hbg.
    - unfold el1. rewrite has_inline_background_unveil. exact Hbg. }
  assert (Hlazy1 : getAttribute "data-lazy" el1 = None).
  { unfold el1, unveil_element. rewrite (marker_default O HO).
    apply getAttribute_remove_eq; discriminate. }
  assert (Hlazy : dataset_get "lazy" (node p1 e) = undefined).
  { rewrite dataset_lazy, Hp1, Hnode.
    destruct (wants_priority (node p e));
      rewrite ?getAttribute_priority by discriminate; rewrite Hlazy1; reflexivity. }
  assert (Hp2 : p2 = entered_page O e p1).
  { unfold p2. rewrite deliver_entries_run by assumption. reflexivity. }
  set (el2 := with_classList
                (tokens_add (loading O) (tokens_add (on O) (classList (node p1 e))))
                (node p1 e)).
  assert (Hnode2 : node p2 e = unveil_element O el2).
  { rewrite Hp2. unfold entered_page, node at 1. cbn. apply lookup_total_insert_eq. }
  assert (Hbg2 : has_inline_background el2 = false) by exact Hbg1.
  assert (Hname2 : nodeName el2 = nodeName (node p e)) by exact Hname1.
  assert (Hlazy2 : dataset_get "lazy" el2 = undefined) by exact Hlazy.
  split.
  { rewrite Hp1, Hnode.
    destruct (reflects_src (nodeName (node p e))) eqn:Er.
    - assert (Hsrc1 : src el1 = Some X)
        by (unfold el1; rewrite src_unveil_element, Hlazy0 by assumption; reflexivity).
      destruct (wants_priority (node p e)); [|exact Hsrc1].
      unfold src. rewrite getAttribute_priority by discriminate. exact Hsrc1.
    - destruct (property_unveil_element O (node p e) Hbg Er) as [Hp _].
      fold el1 in Hp. rewrite Hlazy0 in Hp.
      destruct (wants_priority (node p e)); exact Hp. }
  split.
  { rewrite Hp1. unfold watched in *. rewrite Htargets. exact Hwatched. }
  split.
  { rewrite Hnode2, <- Hname2.
    destruct (reflects_src (nodeName el2)) eqn:Er.
    - rewrite src_unveil_element, Hlazy2 by assumption. reflexivity.
    - destruct (property_unveil_element O el2 Hbg2 Er) as [Hp _].
      rewrite Hp, Hlazy2. reflexivity. }
  rewrite Hp2. unfold watched, entered_page. cbn.
  apply bool_decide_eq_false_2. rewrite elem_of_difference, elem_of_singleton. tauto.
Qed.

Lemma reinserted_element_revealed_twice_witness :
  let p1 := snd (Index.deliver_mutations default_options [mkMutation "childList" [1%nat]]
                   watched_visible_page) in
  let p2 := snd (Index.deliver_entries default_options [mkEntry true 1] p1) in
  (if reflects_src (nodeName (node watched_visible_page 1))
   then src (node p1 1) = Some "a.png"
   else property "src" (node p1 1) = Some (str "a.png")) /\
  watched 1 p1 = true /\
  (if reflects_src (nodeName (node watched_visible_page 1))
   then src (node p2 1) = Some "undefined"
   else property "src" (node p2 1) = Some undefined) /\
  watched 1 p2 = false.
Proof.
  apply (reinserted_element_revealed_twice default_options watched_visible_page 1 "a.png");
    try reflexivity.
  discriminate.
Defined.

(** ** Added nodes outside the viewport *)

Lemma gt_zero_false (x : Q) : (x <= 0)%Q -> gt_zero x = false.
Proof.
  intros H. unfold gt_zero. apply negb_false_iff, Qle_bool_iff, H.
Qed.

(** X17: an added element above or left of the viewport is watched, not
    revealed.  Let the marker make a valid selector.  When the bounding
    rectangle of an added element that matches the marker selector and
    is not a script has a bottom or a right edge that is not positive
    (as has the empty rectangle of an element that is not rendered), the
    callback only hands the element to the intersection observer: one
    call of [observe], no node changed. *)
Theorem offscreen_element_watched (O : LazyloadOptions) (p : Page) (n : elem) :
  nodeType (node p n) = 1%Z ->
  is_identifier (Index.marker O) = true ->
  hasAttribute (Index.marker O) (node p n) = true ->
  nodeName (node p n) <> "SCRIPT" ->
  (bottom (boundingClientRect (node p n)) <= 0)%Q \/
  (right (boundingClientRect (node p n)) <= 0)%Q ->
  Index.added_node O n p =
  (Normal tt,
   with_observationTargets ({[n]} ∪ observationTargets p)
     (with_log (log p ++ [observe_call n]) p)).
Proof.
  intros Htype Hsel Hmarker Hname Hrect.
  assert (Hscript : String.eqb (nodeName (node p n)) "SCRIPT" = false)
    by (apply String.eqb_neq, Hname).
  assert (Hvis : Index.isElementInViewport n p = (Normal false, p)).
  { rewrite isElementInViewport_run. f_equal. f_equal.
    destruct Hrect as [H|H]; rewrite (gt_zero_false _ H).
    - reflexivity.
    - rewrite andb_false_r. reflexivity. }
  unfold Index.added_node.
  erewrite bind_run by reflexivity. rewrite Htype. cbn [Z.eqb Pos.eqb].
  erewrite bind_run by (rewrite el_matches_run by exact Hsel; rewrite Hmarker; reflexivity).
  cbv beta iota.
  erewrite bind_run by reflexivity. rewrite Hscript.
  erewrite bind_run by exact Hvis. reflexivity.
Qed.

Lemma offscreen_element_watched_witness :
  Index.added_node default_options 1 lazy_img_page =
  (Normal tt,
   with_observationTargets ({[1%nat]} ∪ observationTargets lazy_img_page)
     (with_log (log lazy_img_page ++ [observe_call 1]) lazy_img_page)).
Proof.
  apply (offscreen_element_watched default_options lazy_img_page 1);
    [reflexivity | reflexivity | reflexivity | discriminate
    | left; vm_compute; discriminate].
Defined.

(** ** Entries that are not intersecting *)

(** X18: a batch without an intersecting entry changes nothing.
    Whatever the options, the intersection callback completes normally
    on such a batch and leaves the page exactly as it was, log and watch
    set included. *)
Theorem leaving_entries_ignored (O : LazyloadOptions)
    (entries : list IntersectionObserverEntry) (p : Page) :
  forallb (fun en => negb (isIntersecting en)) entries = true ->
  Index.lazyLoadBackgrounds O entries p = (Normal tt, p).
Proof.
  unfold Index.lazyLoadBackgrounds.
  induction entries as [|en r IH]; intros H; [reflexivity|].
  cbn [forallb] in H. apply andb_true_iff in H as [Hen Hr].
  apply negb_true_iff in Hen.
  cbn [forEach].
  erewrite bind_run by (unfold Index.entry_callback; rewrite Hen; reflexivity).
  apply IH, Hr.
Qed.

Lemma leaving_entries_ignored_witness :
  Index.lazyLoadBackgrounds empty_on_options [mkEntry false 1; mkEntry false 0]
    watched_img_page =
  (Normal tt, watched_img_page).
Proof.
  apply (leaving_entries_ignored empty_on_options [mkEntry false 1; mkEntry false 0]
           watched_img_page).
  reflexivity.
Defined.

(** ** The name the script deferral reads *)

Lemma window_load_configured_run (O : LazyloadOptions) (q : Page) (n par : elem)
    (X : string) :
  plain (attribute O) = true ->
  getAttribute (Index.marker O) (node q n) = Some X ->
  unique_names (attributes (node q n)) = true ->
  distinct (forest_preorder (document q)) = true ->
  forest_parent n (document q) = Some par ->
  allocated q = true ->
  Index.run_callback O (on_window_load n) q =
  (Normal tt,
   with_document (forest_replace n (next_node q) (document q))
     (with_next_node (S (next_node q))
        (with_log (log q ++ [ createElement_call "script" (next_node q);
                              setAttribute_call (next_node q) (Index.marker O) X;
                              set_src_call (next_node q) (dataset_get "lazy" (node q n));
                              insertBefore_call par (next_node q) n;
                              remove_call n ])
           (with_nodes
              (<[next_node q :=
                   mkElement 1 "SCRIPT"
                     [(Index.marker O, X);
                      ("src", ToString (dataset_get "lazy" (node q n)))]
                     None [] (mkDOMRect 0 0 0 0) []]> (nodes q)) q)))).
Proof.
  intros Hplain HX Hu Hd Hp Halloc.
  assert (Hfresh : next_node q <> n).
  { intros Heq. unfold allocated in Halloc. rewrite forallb_forall in Halloc.
    specialize (Halloc n (forest_parent_occurs n _ par Hp)).
    apply Nat.ltb_lt in Halloc. lia. }
  pose proof (marker_plain O Hplain) as Hlow.
  cbn [Index.run_callback]. fold (Index.marker O).
  set (new := next_node q) in *.
  set (q1 := with_next_node (S new)
               (with_nodes (<[new := new_script]> (nodes q))
                  (with_log (log q ++ [createElement_call "script" new]) q))).
  assert (Hcreate : createElement_script q = (Normal new, q1)) by reflexivity.
  erewrite bind_run by exact Hcreate. cbv beta.
  assert (Hn1 : node q1 n = node q n).
  { unfold q1, node. cbn. apply lookup_total_insert_ne, Hfresh. }
  erewrite bind_run by (unfold read_node, gets; rewrite Hn1; reflexivity). cbv beta.
  erewrite bind_run by (apply copy_marker_loop; [exact Hlow | exact Hu]). cbv beta.
  rewrite getAttribute_ordinary in HX
    by (apply marker_not_style || apply marker_not_class).
  rewrite Hlow in HX. rewrite HX.
  set (q2 := with_log _ _).
  assert (Hn2 : node q2 n = node q n).
  { unfold q2, node. cbn. rewrite lookup_total_insert_ne by exact Hfresh.
    apply lookup_total_insert_ne, Hfresh. }
  erewrite bind_run
    by (unfold el_dataset, read_node, gets; rewrite Hn2; reflexivity).
  cbv beta.
  erewrite bind_run by reflexivity. cbv beta.
  erewrite bind_run by (unfold parentElement, gets; cbn [document]; reflexivity).
  cbv beta.
  change (document (with_nodes _ (with_log _ q2))) with (document q).
  rewrite Hp. unfold insertBefore, remove. run.
  rewrite (replace_in_forest par new n (document q) Hfresh Hd Hp).
  rewrite !lookup_total_insert_eq, !insert_insert_eq.
  assert (Hnew : forall v : Value,
             set_src v (setAttribute (Index.marker O) X new_script) =
             mkElement 1 "SCRIPT" [(Index.marker O, X); ("src", ToString v)]
                       None [] (mkDOMRect 0 0 0 0) []).
  { intros v. unfold set_src, setAttribute, with_attributes, new_script. cbn.
    rewrite Hlow. reflexivity. }
  rewrite Hnew.
  f_equal. f_equal; try reflexivity; rewrite <- ?app_assoc; reflexivity.
Qed.

(** X19: the script deferral reads [data-lazy] whatever the configured
    name is.  Let the marker be named [A], without hyphens and uppercase
    letters.  When the load event of the window reaches the listener
    for a script [n] that still has its marker [data-A] with value [X]
    and sits under a parent element, in a document without repeated
    nodes, all created before the next node, the listener completes
    normally and puts a new script element where [n] was; the new
    element has the attribute [data-A = X], and its [src] is the value
    of the attribute [data-lazy] of [n], or the text "undefined" when
    [n] has none. *)
Theorem deferred_script_reads_data_lazy (O : LazyloadOptions) (q : Page)
    (n par : elem) (X : string) :
  plain (attribute O) = true ->
  getAttribute (Index.marker O) (node q n) = Some X ->
  unique_names (attributes (node q n)) = true ->
  distinct (forest_preorder (document q)) = true ->
  forest_parent n (document q) = Some par ->
  allocated q = true ->
  exists q' : Page,
    Index.run_callback O (on_window_load n) q = (Normal tt, q') /\
    document q' = forest_replace n (next_node q) (document q) /\
    ~ In n (forest_preorder (document q')) /\
    In (next_node q) (forest_preorder (document q')) /\
    node q' (next_node q) =
      mkElement 1 "SCRIPT"
        [(Index.marker O, X);
         ("src", match getAttribute "data-lazy" (node q n) with
                 | Some v => v
                 | None => "undefined"
                 end)]
        None [] (mkDOMRect 0 0 0 0) [].
Proof.
  intros Hplain HX Hu Hd Hp Halloc.
  assert (Hfresh : next_node q <> n).
  { intros Heq. unfold allocated in Halloc. rewrite forallb_forall in Halloc.
    specialize (Halloc n (forest_parent_occurs n _ par Hp)).
    apply Nat.ltb_lt in Halloc. lia. }
  eexists. split; [eapply window_load_configured_run; eassumption|].
  split; [reflexivity|].
  split; [apply forest_replace_removes, Hfresh|].
  split; [eapply forest_replace_places, Hp|].
  unfold node at 1. cbn. rewrite lookup_total_insert_eq, dataset_lazy.
  destruct (getAttribute "data-lazy" (node q n)); reflexivity.
Qed.

Lemma deferred_script_reads_data_lazy_witness :
  exists q' : Page,
    Index.run_callback defer_options (on_window_load 1) defer_script_page = (Normal tt, q') /\
    document q' =
      forest_replace 1 (next_node defer_script_page) (document defer_script_page) /\
    ~ In 1%nat (forest_preorder (document q')) /\
    In (next_node defer_script_page) (forest_preorder (document q')) /\
    node q' (next_node defer_script_page) =
      mkElement 1 "SCRIPT"
        [(Index.marker defer_options, "c.js");
         ("src", match getAttribute "data-lazy" (node defer_script_page 1) with
                 | Some v => v
                 | None => "undefined"
                 end)]
        None [] (mkDOMRect 0 0 0 0) [].
Proof.
  apply (deferred_script_reads_data_lazy defer_options defer_script_page 1 0 "c.js");
    reflexivity.
Defined.

(** ** A marker name that breaks the selector *)

Lemma is_identifier_marker (O : LazyloadOptions) :
  is_identifier (Index.marker O) = forallb_string is_name_char (attribute O).
Proof. reflexivity. Qed.

Lemma breaks_selector_name (a : string) :
  breaks_selector a = true -> forallb_string is_name_char a = false.
Proof.
  induction a as [|c a IH]; [discriminate|].
  cbn [breaks_selector forallb_string].
  destruct (is_name_char c); [|reflexivity].
  intros H. rewrite (IH H). reflexivity.
Qed.

(** X21: a marker name that breaks the selector stops the script at
    its first line.  When the identifier characters of
    [Options.attribute] are followed by a delimiter, or by white space
    and then another name or a delimiter (as in [a.b] or [a b]), the
    selector [[data-...]] does not parse: the entry point raises a
    [SyntaxError] in [querySelectorAll] and leaves the page as it was,
    nothing observed and nothing revealed, on a platform with or without
    the observers; and the arrow function of the mutation callback
    raises the same error for every element node it is given. *)
Theorem invalid_selector_stops_startup (O : LazyloadOptions) (p : Page) :
  breaks_selector (attribute O) = true ->
  Index.fastLazyLoad O p = (Throw SyntaxError, p) /\
  (forall n : elem,
     nodeType (node p n) = 1%Z ->
     Index.added_node O n p = (Throw SyntaxError, p)).
Proof.
  intros H.
  assert (Hsel : is_identifier (Index.marker O) = false)
    by (rewrite is_identifier_marker; apply breaks_selector_name, H).
  split.
  - unfold Index.fastLazyLoad, mbind, M_bind.
    rewrite querySelectorAll_invalid by exact Hsel. reflexivity.
  - intros n Hn. unfold Index.added_node.
    erewrite bind_run by reflexivity. rewrite Hn. cbn [Z.eqb Pos.eqb].
    unfold mbind, M_bind. rewrite el_matches_invalid by exact Hsel. reflexivity.
Qed.

Lemma invalid_selector_stops_startup_witness :
  Index.fastLazyLoad spaced_attribute_options lazy_img_page =
    (Throw SyntaxError, lazy_img_page) /\
  (forall n : elem,
     nodeType (node lazy_img_page n) = 1%Z ->
     Index.added_node spaced_attribute_options n lazy_img_page =
       (Throw SyntaxError, lazy_img_page)).
Proof.
  apply (invalid_selector_stops_startup spaced_attribute_options lazy_img_page).
  reflexivity.
Defined.
